(** * targetcli backstores UI (targetcli/ui_backstore.py)

    A shallow embedding of the backstore management commands of targetcli:
    the per-plugin [create] commands, the shared [delete] command, the HBA
    index allocator, the name availability check and the legacy name
    de-duplication, together with the properties stated about them.

    The RTS library (rtslib), the shell framework (configshell) and the
    operating system are collaborators of this code.  They are modelled by
    an explicit [World]: the configfs objects the library reports, the UI
    children of every backstore node, the part of the filesystem the UI
    looks at, and the shell log.  Python exceptions are values of [exn];
    a command is a function from a world to a result and a new world, so
    that the effects performed before an exception is raised stay visible
    after it, as they do in Python.  What the code cannot predict (whether
    rtslib accepts an object, whether the operating system carries out a
    file operation, in which order a Python set yields its elements) is
    answered by the [Driver] of the world. *)

From Stdlib Require Import ZArith List String Ascii Bool Lia DecimalString.
From Stdlib Require Import DecimalPos DecimalZ Permutation FunctionalExtensionality.
From Equations Require Import Equations.
Import ListNotations.

Local Open Scope Z_scope.
Local Open Scope string_scope.
Local Open Scope list_scope.

(** ** Data model *)

(** The five backstore plugins; [plugin_name] is the string rtslib and the
    UI nodes use for them. *)
Inductive Plugin : Type := pscsi | rd_dr | rd_mcp | fileio | iblock.

Definition plugin_name (k : Plugin) : string :=
  match k with
  | pscsi => "pscsi"
  | rd_dr => "rd_dr"
  | rd_mcp => "rd_mcp"
  | fileio => "fileio"
  | iblock => "iblock"
  end.

Definition Plugin_eqb (a b : Plugin) : bool :=
  match a, b with
  | pscsi, pscsi | rd_dr, rd_dr | rd_mcp, rd_mcp
  | fileio, fileio | iblock, iblock => true
  | _, _ => false
  end.

(** A backstore (HBA) as rtslib reports it: [backstore.plugin] and
    [backstore.index]. *)
Record Backstore : Type := mkBackstore {
  bs_plugin : Plugin;
  bs_index : Z
}.

Definition Backstore_eqb (a b : Backstore) : bool :=
  Plugin_eqb (bs_plugin a) (bs_plugin b) && Z.eqb (bs_index a) (bs_index b).

(** A storage object as rtslib reports it: [so.name], [so.backstore] and
    the arguments its constructor was given. *)
Record StorageObject : Type := mkStorageObject {
  so_name : string;
  so_backstore : Backstore;
  so_dev : option string;
  so_size : option string;
  so_gen_wwn : option bool;
  so_buffered_mode : option bool
}.

(** Two handles denote the same configfs object when they have the same
    backstore and the same name. *)
Definition StorageObject_eqb (a b : StorageObject) : bool :=
  Backstore_eqb (so_backstore a) (so_backstore b)
  && String.eqb (so_name a) (so_name b).

(** A [UIStorageObject] node: its node name and the rtslib object it
    wraps ([rtsnode]). *)
Record UIStorageObject : Type := mkUIStorageObject {
  ui_name : string;
  rtsnode : StorageObject
}.

(** Python exceptions that occur in this file. *)
Inductive exn : Type :=
| ExecutionError (msg : string)
| ValueError (msg : string)
| UnboundLocalError (msg : string)
| IOError (msg : string)
| OSError (msg : string)
| OverflowError (msg : string)
| RTSLibError (msg : string).

(** What a path names in the filesystem.  [OtherNode] is what is neither
    a regular file nor a block device nor a partition; where it matters it
    is taken to be a directory. *)
Inductive FNode : Type :=
| RegularFile (data : list Byte.byte)
| BlockDevice
| DiskPartition
| OtherNode.

Inductive Level : Type := Debug | Info | Error.

(** The calls that [_create_file] makes on its file.  [len] is the number
    of bytes the file holds, as the process sees it, when the call is
    made. *)
Inductive IOCall : Type :=
| Open (path : string)                  (* open(path, "w+") *)
| Ftruncate (path : string) (size : Z)  (* os.ftruncate(f.fileno(), size) *)
| Write (path : string) (len : Z)       (* f.write(data) *)
| Close (path : string) (len : Z)       (* f.close() *)
| Remove (path : string).               (* os.remove(path) *)

(** The behaviour of the collaborators that the UI cannot predict: whether
    rtslib accepts a storage object, how it reads a human size, whether the
    operating system carries out a call on a file ([None]) or fails it with
    an errno message, and the order in which a set yields its elements (see
    [set_iter]). *)
Record Driver : Type := mkDriver {
  so_rejected : StorageObject -> option exn;
  convert_human_to_bytes : string -> exn + Z;
  io_error : IOCall -> option string;
  iteration_key : list nat
}.

Record World : Type := mkWorld {
  rts_backstores : list Backstore;            (* RTSRoot().backstores *)
  rts_storage_objects : list StorageObject;   (* RTSRoot().storage_objects *)
  children : Plugin -> list UIStorageObject;  (* node.children, per backstore node *)
  fs : string -> option FNode;
  log : list (Level * string);                (* shell.log, oldest first *)
  driver : Driver
}.

Definition with_backstores (l : list Backstore) (w : World) : World :=
  mkWorld l (rts_storage_objects w) (children w) (fs w) (log w) (driver w).

Definition with_storage_objects (l : list StorageObject) (w : World) : World :=
  mkWorld (rts_backstores w) l (children w) (fs w) (log w) (driver w).

Definition with_children (c : Plugin -> list UIStorageObject) (w : World) : World :=
  mkWorld (rts_backstores w) (rts_storage_objects w) c (fs w) (log w) (driver w).

Definition with_fs (f : string -> option FNode) (w : World) : World :=
  mkWorld (rts_backstores w) (rts_storage_objects w) (children w) f (log w) (driver w).

Definition with_log (l : list (Level * string)) (w : World) : World :=
  mkWorld (rts_backstores w) (rts_storage_objects w) (children w) (fs w) l (driver w).

(** ** Commands: state and exceptions *)

Definition M (A : Type) : Type := World -> (exn + A) * World.

Definition ret {A} (a : A) : M A := fun w => (inr a, w).

Definition raise {A} (e : exn) : M A := fun w => (inl e, w).

Definition bind {A B} (m : M A) (k : A -> M B) : M B :=
  fun w =>
    match m w with
    | (inl e, w') => (inl e, w')
    | (inr a, w') => k a w'
    end.

Declare Scope cmd_scope.
Delimit Scope cmd_scope with cmd.
Notation "x <- m ;; k" := (bind m (fun x => k))
  (at level 61, m at next level, right associativity) : cmd_scope.
Notation "m ;; k" := (bind m (fun _ => k))
  (at level 61, right associativity) : cmd_scope.
Local Open Scope cmd_scope.

(** [try: m except Exception, e: h e]. *)
Definition try_except {A} (m : M A) (h : exn -> M A) : M A :=
  fun w =>
    match m w with
    | (inl e, w') => h e w'
    | (inr a, w') => (inr a, w')
    end.

Definition get : M World := fun w => (inr w, w).

Definition modify (f : World -> World) : M unit := fun w => (inr tt, f w).

Definition shell_log (lvl : Level) (msg : string) : M unit :=
  modify (fun w => with_log (log w ++ [(lvl, msg)]) w).

(** ** Python formatting *)

(** ["%d" % z] *)
Definition fmt_d (z : Z) : string := NilZero.string_of_int (Z.to_int z).

(** ["%s" % v] for a value that may be [None]. *)
Definition fmt_s (v : option string) : string :=
  match v with
  | Some s => s
  | None => "None"
  end.

Definition fmt_bool (v : option bool) : string :=
  match v with
  | Some true => "True"
  | Some false => "False"
  | None => "None"
  end.

(** ["%r" % l] for a list whose items are already formatted. *)
Definition fmt_r_list (items : list string) : string :=
  ("[" ++ String.concat ", " items ++ "]")%string.

Definition fmt_r_backstore (b : Backstore) : string :=
  ("('" ++ plugin_name (bs_plugin b) ++ "', " ++ fmt_d (bs_index b) ++ ")")%string.

(** ** dedup_so_name *)

Definition dedup_so_name (storage_object : StorageObject) : M string :=
  w <- get ;;
  let names :=
    map so_name
      (filter (fun so => Plugin_eqb (bs_plugin (so_backstore so))
                                    (bs_plugin (so_backstore storage_object)))
              (rts_storage_objects w)) in
  if (1 <? count_occ string_dec names (so_name storage_object))%nat
  then ret (so_name storage_object ++ "_"
            ++ fmt_d (bs_index (so_backstore storage_object)))%string
  else ret (so_name storage_object).

(** ** The collaborators *)

(** rtslib, [XBackstore(index, mode='create')]: the new HBA appears among
    [RTSRoot().backstores]; an index already taken is refused. *)
Definition Backstore_create (k : Plugin) (i : Z) : M Backstore :=
  w <- get ;;
  let b := mkBackstore k i in
  if existsb (Backstore_eqb b) (rts_backstores w)
  then raise (RTSLibError ("Backstore " ++ plugin_name k ++ "_" ++ fmt_d i
                           ++ " already exists")%string)
  else modify (with_backstores (rts_backstores w ++ [b])) ;; ret b.

(** rtslib, [hba.storage_objects]. *)
Definition hba_storage_objects (hba : Backstore) (w : World) : list StorageObject :=
  filter (fun so => Backstore_eqb (so_backstore so) hba) (rts_storage_objects w).

(** rtslib, [backstore.delete()]: removes the HBA and whatever storage
    objects are still attached to it. *)
Definition Backstore_delete (hba : Backstore) : M unit :=
  modify (fun w =>
    with_backstores
      (filter (fun b => negb (Backstore_eqb b hba)) (rts_backstores w))
      (with_storage_objects
         (filter (fun so => negb (Backstore_eqb (so_backstore so) hba))
                 (rts_storage_objects w)) w)).

(** rtslib, [XStorageObject(backstore, name, ...)]: raises what the driver
    answers, or registers the object. *)
Definition StorageObject_create (so : StorageObject) : M StorageObject :=
  w <- get ;;
  match so_rejected (driver w) so with
  | Some e => raise e
  | None =>
      modify (with_storage_objects (rts_storage_objects w ++ [so])) ;; ret so
  end.

(** rtslib, [so.delete()]. *)
Definition StorageObject_delete (so : StorageObject) : M unit :=
  modify (fun w =>
    with_storage_objects
      (filter (fun s => negb (StorageObject_eqb s so)) (rts_storage_objects w)) w).

Definition set_children (k : Plugin) (l : list UIStorageObject) (w : World) : World :=
  with_children (fun k' => if Plugin_eqb k' k then l else children w k') w.

Definition UIStorageObject_eqb (a b : UIStorageObject) : bool :=
  String.eqb (ui_name a) (ui_name b) && StorageObject_eqb (rtsnode a) (rtsnode b).

(** A node registers itself with its parent when it is constructed. *)
Definition add_child (k : Plugin) (node : UIStorageObject) : M unit :=
  modify (fun w => set_children k (children w k ++ [node]) w).

(** The order in which a Python set yields its elements is not fixed by the
    language and changes from run to run.  [set_iter key l] is an order of
    the elements of [l]: every element is put at the place the key gives
    for it, so that every order arises from some key and the empty key
    keeps the order of [l]. *)
Fixpoint insert_at {A} (n : nat) (x : A) (l : list A) : list A :=
  match n, l with
  | S n', y :: l' => y :: insert_at n' x l'
  | _, _ => x :: l
  end.

Fixpoint set_iter {A} (key : list nat) (l : list A) : list A :=
  match l with
  | [] => []
  | x :: l' =>
      match key with
      | [] => x :: set_iter [] l'
      | n :: key' => insert_at n x (set_iter key' l')
      end
  end.

(** [node.children] gone through: the children of the backstore node of
    plugin [k] in the order in which the set yields them in this run. *)
Definition iter_children (w : World) (k : Plugin) : list UIStorageObject :=
  set_iter (iteration_key (driver w)) (children w k).

(** configshell, [node.get_child(name)]: the first child of that name
    that the set yields, [ValueError] when there is none. *)
Definition get_child (k : Plugin) (name : string) : M UIStorageObject :=
  w <- get ;;
  match find (fun c => String.eqb (ui_name c) name) (iter_children w k) with
  | Some c => ret c
  | None => raise (ValueError ("No such path /backstores/" ++ plugin_name k
                               ++ "/" ++ name)%string)
  end.

(** configshell, [node.remove_child(child)]. *)
Definition remove_child (k : Plugin) (child : UIStorageObject) : M unit :=
  modify (fun w =>
    set_children k
      (filter (fun c => negb (UIStorageObject_eqb c child)) (children w k)) w).

(** Modelled from the spec: [UINode.assert_root] is defined in ui_node.py,
    which is not part of the sources at hand.  The spec describes a single
    administrative session and names no privilege failure for any entry
    point, so the check passes and touches nothing. *)
Definition assert_root : M unit := ret tt.

(** Modelled from the spec: [UINode.new_node] is defined in ui_node.py,
    which is not part of the sources at hand.  The spec says that a
    successful creation returns a view wrapping the new storage object. *)
Definition new_node (ui_so : UIStorageObject) : M (option UIStorageObject) :=
  ret (Some ui_so).

(** [UIStorageObject.__init__], through [UIRTSLibNode.__init__] and
    configshell's [ConfigNode.__init__(name, parent)]: the node takes the
    storage object's stored name; a name that a child of [parent] already
    carries is refused with ValueError, otherwise the node becomes a child
    of [parent]. *)
Definition UIStorageObject_init (storage_object : StorageObject) (parent : Plugin)
  : M UIStorageObject :=
  let name := so_name storage_object in
  let node := mkUIStorageObject name storage_object in
  w <- get ;;
  if existsb (String.eqb name) (map ui_name (children w parent))
  then raise (ValueError ("Name '" ++ name ++ "' already used by a sibling.")%string)
  else add_child parent node ;; ret node.

(** [ui_so.name = name]: the node [ui_so], a child of [parent], is shown
    under a new label from now on.  No check is made. *)
Definition set_name (parent : Plugin) (ui_so : UIStorageObject) (name : string)
  : M unit :=
  modify (fun w =>
    set_children parent
      (map (fun c => if UIStorageObject_eqb c ui_so
                     then mkUIStorageObject name (rtsnode c)
                     else c)
           (children w parent)) w).

(** ** UIBackstore: the methods shared by the five backstore nodes.
    [self] is the plugin of the node, which is also its name. *)

(** The loop of [refresh]: for every storage object of the plugin a node is
    constructed under the stored name and then given the de-duplicated
    name. *)
Fixpoint refresh_loop (self : Plugin) (sos : list StorageObject) : M unit :=
  match sos with
  | [] => ret tt
  | so :: rest =>
      (if Plugin_eqb (bs_plugin (so_backstore so)) self
       then ui_so <- UIStorageObject_init so self ;;
            n <- dedup_so_name so ;;
            set_name self ui_so n
       else ret tt) ;;
      refresh_loop self rest
  end.

Definition refresh (self : Plugin) : M unit :=
  modify (set_children self []) ;;
  w <- get ;;
  refresh_loop self (rts_storage_objects w).

(** configshell, [ui_eval_param(value, 'bool', default)], for a parameter
    that is either absent ([None]) or a Python boolean. *)
Definition ui_eval_param_bool (value : option bool) (default : bool) : bool :=
  match value with
  | Some b => b
  | None => default
  end.

Definition prm_gen_wwn (generate_wwn : option bool) : M bool :=
  let generate_wwn := ui_eval_param_bool generate_wwn true in
  (if generate_wwn
   then shell_log Info "Generating a wwn serial."
   else shell_log Info "Not generating a wwn serial.") ;;
  ret generate_wwn.

Definition prm_buffered (buffered : option bool) : M bool :=
  let buffered := ui_eval_param_bool buffered true in
  (if buffered
   then shell_log Info "Using buffered mode."
   else shell_log Info "Not using buffered mode.") ;;
  ret buffered.

(** [UIBackstore.__init__(plugin, parent)]: the node becomes a child of
    the backstores container, whose children have just been dropped so that
    no sibling carries its name, and refreshes itself. *)
Definition UIBackstore_init (plugin : Plugin) : M unit := refresh plugin.

(** [UIBackstores.refresh]: the container drops its five nodes, and their
    children with them, and constructs the nodes anew one after the other.
    A backstore node that has not been constructed shows no children. *)
Definition UIBackstores_refresh : M unit :=
  modify (with_children (fun _ => [])) ;;
  UIBackstore_init pscsi ;;
  UIBackstore_init rd_dr ;;
  UIBackstore_init rd_mcp ;;
  UIBackstore_init fileio ;;
  UIBackstore_init iblock.

(** [try: x = m  except ValueError: h  else: k x] *)
Definition try_except_ValueError_else {A B} (m : M A) (h : M B) (k : A -> M B)
  : M B :=
  fun w =>
    match m w with
    | (inl (ValueError _), w') => h w'
    | (inl e, w') => (inl e, w')
    | (inr a, w') => k a w'
    end.

(** Modelled from the spec: [self.parent.parent] is the root node, whose
    class is defined in ui_root.py, which is not part of the sources at
    hand.  The spec speaks of one hierarchical configuration tree that
    shows the resources of a driver queried fresh each time; of the root's
    [refresh] the part that concerns this file is taken to be that the
    backstores container is built again, which [UIBackstores.__init__] does
    by calling its own [refresh]. *)
Definition root_refresh : M unit := UIBackstores_refresh.

Definition ui_command_delete (self : Plugin) (name : string) : M unit :=
  assert_root ;;
  try_except_ValueError_else
    (get_child self name)
    (shell_log Error ("No storage object named " ++ name ++ ".")%string)
    (fun child =>
       let hba := so_backstore (rtsnode child) in
       StorageObject_delete (rtsnode child) ;;
       w <- get ;;
       (match hba_storage_objects hba w with
        | [] => Backstore_delete hba
        | _ :: _ => ret tt
        end) ;;
       remove_child self child ;;
       shell_log Info ("Deleted storage object " ++ name ++ ".")%string ;;
       root_refresh).

(** A local variable of a Python function: not yet assigned, or holding
    [None] or a value. *)
Inductive local (A : Type) : Type :=
| Unbound
| PyNone
| PyVal (v : A).
Arguments Unbound {A}.
Arguments PyNone {A}.
Arguments PyVal {A} v.

(** [for index in range(stop): if index not in indexes:
       backstore_index = index; break],
    started at [index] with [n] iterations left. *)
Fixpoint for_index_in_range (n : nat) (index : Z) (indexes : list Z)
                            (backstore_index : local Z) : local Z :=
  match n with
  | O => backstore_index
  | S n' =>
      if negb (existsb (Z.eqb index) indexes)
      then PyVal index
      else for_index_in_range n' (index + 1) indexes backstore_index
  end.

Definition range_stop : Z := 1048576.

Definition backstore_indexes (self : Plugin) (w : World) : list Z :=
  map bs_index
      (filter (fun backstore => Plugin_eqb (bs_plugin backstore) self)
              (rts_backstores w)).

Definition next_hba_index (self : Plugin) : M Z :=
  w <- get ;;
  shell_log Debug (fmt_r_list (map fmt_r_backstore (rts_backstores w))) ;;
  let indexes := backstore_indexes self w in
  shell_log Debug ("Existing " ++ plugin_name self ++ " backstore indexes: "
                   ++ fmt_r_list (map fmt_d indexes))%string ;;
  match for_index_in_range (Z.to_nat range_stop) 0 indexes Unbound with
  | Unbound =>
      raise (UnboundLocalError
               "local variable 'backstore_index' referenced before assignment")
  | PyNone =>
      raise (ExecutionError "Cannot find an available backstore index.")
  | PyVal backstore_index =>
      shell_log Debug ("First available " ++ plugin_name self
                       ++ " backstore index is " ++ fmt_d backstore_index
                       ++ ".")%string ;;
      ret backstore_index
  end.

Definition assert_available_so_name (self : Plugin) (name : string) : M unit :=
  w <- get ;;
  let names := map ui_name (children w self) in
  if existsb (String.eqb name) names
  then raise (ExecutionError ("Storage object " ++ plugin_name self ++ "/"
                              ++ name ++ " already exist.")%string)
  else ret tt.

(** ** The filesystem as the UI sees it *)

(** rtslib.utils, [get_block_type(path)]: a type number for a block
    device, [None] for anything else. *)
Definition get_block_type (path : string) (w : World) : option Z :=
  match fs w path with
  | Some BlockDevice => Some 0
  | _ => None
  end.

(** rtslib.utils, [is_disk_partition(path)]. *)
Definition is_disk_partition (path : string) (w : World) : bool :=
  match fs w path with
  | Some DiskPartition => true
  | _ => false
  end.

Definition os_path_isfile (path : string) (w : World) : bool :=
  match fs w path with
  | Some (RegularFile _) => true
  | _ => false
  end.

Definition os_path_exists (path : string) (w : World) : bool :=
  match fs w path with
  | Some _ => true
  | None => false
  end.

Definition os_path_getsize (path : string) (w : World) : Z :=
  match fs w path with
  | Some (RegularFile data) => Z.of_nat (List.length data)
  | _ => 0
  end.

(** The number of bytes the file at [path] holds. *)
Definition file_length (path : string) (w : World) : Z :=
  match fs w path with
  | Some (RegularFile data) => Z.of_nat (List.length data)
  | _ => 0
  end.

Definition set_file (path : string) (node : option FNode) (w : World) : World :=
  with_fs (fun p => if String.eqb p path then node else fs w p) w.

(** [open(filename, "w+")]: IOError for a directory and whenever the
    operating system refuses (a missing directory, no permission); a device
    is opened as it is; a regular file is emptied, a missing one created.
    The file object is known by its path. *)
Definition open_w (filename : string) : M unit :=
  w <- get ;;
  match fs w filename with
  | Some OtherNode =>
      raise (IOError ("[Errno 21] Is a directory: '" ++ filename ++ "'")%string)
  | node =>
      match io_error (driver w) (Open filename) with
      | Some msg => raise (IOError msg)
      | None =>
          match node with
          | Some BlockDevice | Some DiskPartition => ret tt
          | _ => modify (set_file filename (Some (RegularFile [])))
          end
      end
  end.

(** [os.ftruncate(fd, size)]: OverflowError for a size that does not fit
    the signed 64-bit offset of the call, OSError for a negative size, for a
    device and whenever the operating system refuses; otherwise the file
    becomes [size] bytes long, cut off or filled up with zeros. *)
Definition os_ftruncate (filename : string) (size : Z) : M unit :=
  if (size <? - 2 ^ 63)%Z || (2 ^ 63 <=? size)%Z
  then raise (OverflowError "Python int too large to convert to C long")
  else if (size <? 0)%Z
  then raise (OSError "[Errno 22] Invalid argument")
  else
    w <- get ;;
    match io_error (driver w) (Ftruncate filename size) with
    | Some msg => raise (OSError msg)
    | None =>
        match fs w filename with
        | Some (RegularFile d) =>
            let n := Z.to_nat size in
            modify (set_file filename
                      (Some (RegularFile
                               (firstn n d ++ repeat Byte.x00 (n - List.length d)))))
        | _ => raise (OSError "[Errno 22] Invalid argument")
        end
    end.

(** [f.write(data)]: the file object collects the bytes and hands them to
    the operating system when its buffer is full, so that a failure, such as
    a full disk, is raised by the write that happens to flush, which may be
    a later one, or only by [f.close()]; which call raises is the driver's
    answer.  The bytes of a write that returns count as content of the
    file; what a device holds is not recorded. *)
Definition f_write (filename : string) (data : list Byte.byte) : M unit :=
  w <- get ;;
  match io_error (driver w) (Write filename (file_length filename w)) with
  | Some msg => raise (IOError msg)
  | None =>
      match fs w filename with
      | Some (RegularFile d) =>
          modify (set_file filename (Some (RegularFile (d ++ data))))
      | _ => ret tt
      end
  end.

(** [f.close()]: flushes what is still buffered, and raises IOError when
    that fails. *)
Definition f_close (filename : string) : M unit :=
  w <- get ;;
  match io_error (driver w) (Close filename (file_length filename w)) with
  | Some msg => raise (IOError msg)
  | None => ret tt
  end.

(** [os.remove(filename)]: OSError when the operating system refuses. *)
Definition os_remove (filename : string) : M unit :=
  w <- get ;;
  match io_error (driver w) (Remove filename) with
  | Some msg => raise (OSError msg)
  | None => modify (set_file filename None)
  end.

(** [try: m  except IOError: h]; other exceptions pass through. *)
Definition try_except_IOError {A} (m : M A) (h : M A) : M A :=
  fun w =>
    match m w with
    | (inl (IOError _), w') => h w'
    | r => r
    end.

(** Lifting a pure call that may raise. *)
Definition call {A} (r : exn + A) : M A :=
  match r with
  | inl e => raise e
  | inr a => ret a
  end.

(** Python truth value of the [size] parameter. *)
Definition truthy (size : option string) : bool :=
  match size with
  | None => false
  | Some s => negb (String.eqb s "")
  end.

Definition is_None {A} (v : option A) : bool :=
  match v with
  | None => true
  | Some _ => false
  end.

(** ** The five backstore nodes *)

Module UIPSCSIBackstore.

Definition ui_command_create (name dev : string) : M (option UIStorageObject) :=
  assert_root ;;
  assert_available_so_name pscsi name ;;
  i <- next_hba_index pscsi ;;
  backstore <- Backstore_create pscsi i ;;
  w <- get ;;
  (if negb (is_None (get_block_type dev w)) || is_disk_partition dev w
   then shell_log Info "Note: block backstore recommended for SCSI block devices"
   else ret tt) ;;
  so <- try_except
          (StorageObject_create
             (mkStorageObject name backstore (Some dev) None None None))
          (fun exception => Backstore_delete backstore ;; raise exception) ;;
  ui_so <- UIStorageObject_init so pscsi ;;
  shell_log Info ("Created pscsi storage object " ++ name ++ " using " ++ dev)%string ;;
  new_node ui_so.

End UIPSCSIBackstore.

Module UIRDDRBackstore.

Definition ui_command_create (name size : string) (generate_wwn : option bool)
  : M (option UIStorageObject) :=
  assert_root ;;
  assert_available_so_name rd_dr name ;;
  i <- next_hba_index rd_dr ;;
  backstore <- Backstore_create rd_dr i ;;
  so <- try_except
          (gen_wwn <- prm_gen_wwn generate_wwn ;;
           StorageObject_create
             (mkStorageObject name backstore None (Some size) (Some gen_wwn) None))
          (fun exception => Backstore_delete backstore ;; raise exception) ;;
  ui_so <- UIStorageObject_init so rd_dr ;;
  shell_log Info ("Created rd_dr ramdisk " ++ name ++ " with size " ++ size ++ ".")%string ;;
  new_node ui_so.

End UIRDDRBackstore.

Module UIRDMCPBackstore.

Definition ui_command_create (name size : string) (generate_wwn : option bool)
  : M (option UIStorageObject) :=
  assert_root ;;
  assert_available_so_name rd_mcp name ;;
  i <- next_hba_index rd_mcp ;;
  backstore <- Backstore_create rd_mcp i ;;
  so <- try_except
          (gen_wwn <- prm_gen_wwn generate_wwn ;;
           StorageObject_create
             (mkStorageObject name backstore None (Some size) (Some gen_wwn) None))
          (fun exception => Backstore_delete backstore ;; raise exception) ;;
  ui_so <- UIStorageObject_init so rd_mcp ;;
  shell_log Info ("Created rd_mcp ramdisk " ++ name ++ " with size " ++ size ++ ".")%string ;;
  new_node ui_so.

End UIRDMCPBackstore.

Module UIIBlockBackstore.

Definition ui_command_create (name dev : string) (generate_wwn : option bool)
  : M (option UIStorageObject) :=
  assert_root ;;
  assert_available_so_name iblock name ;;
  i <- next_hba_index iblock ;;
  backstore <- Backstore_create iblock i ;;
  so <- try_except
          (gen_wwn <- prm_gen_wwn generate_wwn ;;
           StorageObject_create
             (mkStorageObject name backstore (Some dev) None (Some gen_wwn) None))
          (fun exception => Backstore_delete backstore ;; raise exception) ;;
  ui_so <- UIStorageObject_init so iblock ;;
  shell_log Info ("Created iblock storage object " ++ name ++ " using " ++ dev ++ ".")%string ;;
  new_node ui_so.

End UIIBlockBackstore.

Module UIFileIOBackstore.

(** The [while size > 0] loop of [_create_file]. *)
Equations? write_loop (filename : string) (size : Z) : M unit
  by wf (Z.to_nat size) lt :=
  write_loop filename size with Z_lt_dec 0 size := {
    | left _ =>
        let write_size := Z.min size 1024 in
        f_write filename (repeat Byte.x00 (Z.to_nat write_size)) ;;
        write_loop filename (size - write_size)
    | right _ => ret tt }.
Proof. lia. Qed.

Definition _create_file (filename : string) (size : Z) (sparse : bool) : M unit :=
  open_w filename ;;
  try_except_IOError
    (if sparse
     then os_ftruncate filename size
     else shell_log Info ("Writing " ++ fmt_d size ++ " bytes")%string ;;
          write_loop filename size)
    (f_close filename ;;
     os_remove filename ;;
     raise (ExecutionError "Could not expand file to size")) ;;
  f_close filename.

Definition ui_command_create (name file_or_dev : string) (size : option string)
                             (generate_wwn buffered sparse : option bool)
  : M (option UIStorageObject) :=
  assert_root ;;
  assert_available_so_name fileio name ;;
  shell_log Debug ("Using params size=" ++ fmt_s size
                   ++ " generate_wwn=" ++ fmt_bool generate_wwn
                   ++ " buffered=" ++ fmt_bool buffered
                   ++ " sparse=" ++ fmt_bool sparse)%string ;;
  let sparse := ui_eval_param_bool sparse true in
  i <- next_hba_index fileio ;;
  backstore <- Backstore_create fileio i ;;
  w <- get ;;
  let is_dev := negb (is_None (get_block_type file_or_dev w))
                || is_disk_partition file_or_dev w in
  if is_None size && is_dev then
    i <- next_hba_index fileio ;;
    backstore <- Backstore_create fileio i ;;
    so <- try_except
            (gen_wwn <- prm_gen_wwn generate_wwn ;;
             buffered_mode <- prm_buffered buffered ;;
             StorageObject_create
               (mkStorageObject name backstore (Some file_or_dev) None
                                (Some gen_wwn) (Some buffered_mode)))
            (fun exception => Backstore_delete backstore ;; raise exception) ;;
    shell_log Info ("Created fileio " ++ name ++ " with size " ++ fmt_s size ++ ".")%string ;;
    shell_log Info "Note: block backstore preferred for  best results." ;;
    ui_so <- UIStorageObject_init so fileio ;;
    new_node ui_so
  else if negb (is_None size) && negb is_dev then
    i <- next_hba_index fileio ;;
    backstore <- Backstore_create fileio i ;;
    so <- try_except
            (gen_wwn <- prm_gen_wwn generate_wwn ;;
             buffered_mode <- prm_buffered buffered ;;
             StorageObject_create
               (mkStorageObject name backstore (Some file_or_dev) size
                                (Some gen_wwn) (Some buffered_mode)))
            (fun exception => Backstore_delete backstore ;; raise exception) ;;
    shell_log Info ("Created fileio " ++ name ++ ".")%string ;;
    ui_so <- UIStorageObject_init so fileio ;;
    new_node ui_so
  else
    (* use given file size only if backing file does not exist *)
    if os_path_isfile file_or_dev w then
      let new_size := fmt_d (os_path_getsize file_or_dev w) in
      (if truthy size
       then shell_log Info (file_or_dev ++ " exists, using its size ("
                            ++ new_size ++ " bytes) instead")%string
       else ret tt) ;;
      (* size = new_size; the function ends here and returns None *)
      ret None
    else if os_path_exists file_or_dev w then
      raise (ExecutionError ("Path " ++ file_or_dev
                             ++ " exists but is not a file")%string)
    else
      (* create file and extend to given file size *)
      match size with
      | Some s =>
          if negb (truthy size)
          then raise (ExecutionError
                 "Attempting to create file for new fileio backstore, need a size")
          else bytes <- call (convert_human_to_bytes (driver w) s) ;;
               _create_file file_or_dev bytes sparse ;;
               ret None
      | None =>
          raise (ExecutionError
                 "Attempting to create file for new fileio backstore, need a size")
      end.

End UIFileIOBackstore.

(** ** Notions used in the statements *)

(** The world [ui_command_delete] leaves before the final refresh, when
    [child] is the child that carries the name. *)
Definition after_delete (k : Plugin) (name : string) (child : UIStorageObject)
                        (w : World) : World :=
  let hba := so_backstore (rtsnode child) in
  let w1 := snd (StorageObject_delete (rtsnode child) w) in
  let w2 := match hba_storage_objects hba w1 with
            | [] => snd (Backstore_delete hba w1)
            | _ :: _ => w1
            end in
  let w3 := snd (remove_child k child w2) in
  snd (shell_log Info ("Deleted storage object " ++ name ++ ".")%string w3).

(** A property of the world that a command leaves as it found it. *)
Definition preserves {A B} (proj : World -> B) (m : M A) : Prop :=
  forall w, proj (snd (m w)) = proj w.

(** A live backstore that carries no storage object. *)
Definition orphaned (b : Backstore) (w : World) : Prop :=
  In b (rts_backstores w) /\ hba_storage_objects b w = [].

(** A command that keeps an invariant of the world, whether it returns or
    raises, and whose result, when it returns, satisfies [R]. *)
Definition keeps {A} (I : World -> Prop) (m : M A) (R : A -> Prop) : Prop :=
  forall w, I w -> I (snd (m w)) /\ (forall a, fst (m w) = inr a -> R a).

(** ** The display name as the spec words it *)

(** The number of storage objects among [all] that have the kind of
    [object] and carry its literal name. *)
Definition carriers (object : StorageObject) (all : list StorageObject) : nat :=
  List.length
    (filter (fun so => Plugin_eqb (bs_plugin (so_backstore so))
                                  (bs_plugin (so_backstore object))
                       && String.eqb (so_name so) (so_name object))
            all).

(** [displayName(object, all)]: the stored name, unless more than one object
    of the same kind shares it; then the name, an underscore and the index of
    the owning backend. *)
Definition displayName (object : StorageObject) (all : list StorageObject) : string :=
  if (carriers object all <=? 1)%nat
  then so_name object
  else (so_name object ++ "_" ++ fmt_d (bs_index (so_backstore object)))%string.

(** ** Worlds used in the examples *)

(** rtslib accepts every object, every file operation is carried out, and
    a set yields its elements in the order in which they were added. *)
Definition accepting : Driver :=
  mkDriver (fun _ => None) (fun _ => inr 2048) (fun _ => None) [].

Definition refusing : Driver :=
  mkDriver (fun _ => Some (RTSLibError "Device already in use"))
           (fun _ => inr 2048) (fun _ => None) [].

Definition empty_world (d : Driver) : World :=
  mkWorld [] [] (fun _ => []) (fun _ => None) [] d.

(** Every index of the scanned range is taken by a live backstore of
    plugin [k]. *)
Definition exhausted_world (k : Plugin) (d : Driver) : World :=
  mkWorld (map (fun n => mkBackstore k (Z.of_nat n)) (seq 0 (Z.to_nat range_stop)))
          [] (fun _ => []) (fun _ => None) [] d.

(** Backstores fileio_0, fileio_1, fileio_2 and pscsi_0, nothing else. *)
Definition three_fileio_world : World :=
  with_backstores
    [mkBackstore fileio 0; mkBackstore pscsi 0;
     mkBackstore fileio 1; mkBackstore fileio 2]
    (empty_world accepting).

(** A legacy configuration of ramdisks: [a] and [b] share the backstore
    rd_dr_0, [c] has rd_dr_1 to itself. *)
Definition ramdisk (name : string) (i : Z) : StorageObject :=
  mkStorageObject name (mkBackstore rd_dr i) None (Some "1M") (Some true) None.

Definition shared_world : World :=
  mkWorld [mkBackstore rd_dr 0; mkBackstore rd_dr 1]
          [ramdisk "a" 0; ramdisk "b" 0; ramdisk "c" 1]
          (fun k => match k with
                    | rd_dr => [mkUIStorageObject "a" (ramdisk "a" 0);
                                mkUIStorageObject "b" (ramdisk "b" 0);
                                mkUIStorageObject "c" (ramdisk "c" 1)]
                    | _ => []
                    end)
          (fun _ => None) [] accepting.

(** A legacy configuration of names: two fileio objects called [disk] on
    different backstores, one called [solo], and an iblock object that is
    also called [disk]. *)
Definition named (k : Plugin) (name : string) (i : Z) : StorageObject :=
  mkStorageObject name (mkBackstore k i) (Some "/dev/sdb") None (Some true) None.

Definition legacy_world : World :=
  mkWorld [mkBackstore fileio 0; mkBackstore fileio 1; mkBackstore fileio 2;
           mkBackstore iblock 0]
          [named fileio "disk" 0; named fileio "disk" 1; named fileio "solo" 2;
           named iblock "disk" 0]
          (fun k => match k with
                    | fileio => [mkUIStorageObject "disk_0" (named fileio "disk" 0);
                                 mkUIStorageObject "disk_1" (named fileio "disk" 1);
                                 mkUIStorageObject "solo" (named fileio "solo" 2)]
                    | iblock => [mkUIStorageObject "disk" (named iblock "disk" 0)]
                    | _ => []
                    end)
          (fun _ => None) [] accepting.

(** A world whose only file is the regular file /tmp/disk.img, 4096
    bytes long. *)
Definition file_world (d : Driver) : World :=
  with_fs (fun p => if String.eqb p "/tmp/disk.img"
                    then Some (RegularFile (repeat Byte.x00 4096))
                    else None)
          (empty_world d).

(** ** The remaining methods of the backstore nodes *)

(** [UIBackstore.summary]: the number of children, and no health mark. *)
Definition UIBackstore_summary (self : Plugin) : M (string * option bool) :=
  w <- get ;;
  let no_storage_objects := Z.of_nat (List.length (children w self)) in
  let msg := if (1 <? no_storage_objects)%Z
             then (fmt_d no_storage_objects ++ " Storage Objects")%string
             else (fmt_d no_storage_objects ++ " Storage Object")%string in
  ret (msg, None).

(** [UIBackstore.ui_complete_delete]: [parameters] is the dictionary of the
    parameters typed so far, which the method does not look at.  The
    children are a set, gone through in the order of the run. *)
Definition ui_complete_delete (self : Plugin) (parameters : list (string * string))
                              (text current_param : string) : M (list string) :=
  w <- get ;;
  let completions :=
    if String.eqb current_param "name"
    then let names := map ui_name (iter_children w self) in
         filter (fun name => String.prefix text name) names
    else [] in
  match completions with
  | [c] => ret [(c ++ " ")%string]
  | _ => ret completions
  end.

(** The live attributes of a storage object that rtslib reads from
    configfs and that [UIStorageObject.summary] shows: [so.udev_path],
    [so.status], and [convert_bytes_to_human(getattr(so, "size", 0))]. *)
Record Attributes : Type := mkAttributes {
  udev_path : StorageObject -> option string;
  status : StorageObject -> string;
  human_size : StorageObject -> string
}.

(** [UIStorageObject.summary] *)
Definition UIStorageObject_summary (attrs : Attributes) (self : UIStorageObject)
  : M (string * bool) :=
  w <- get ;;
  let so := rtsnode self in
  let path := if String.prefix "rd" (plugin_name (bs_plugin (so_backstore so)))
              then Some "ramdisk"
              else udev_path attrs so in
  let errors := if truthy path then [] else ["BROKEN STORAGE LINK"] in
  let legacy :=
    (if String.eqb (so_name so) (ui_name self) then [] else ["ADDED SUFFIX"])
    ++ (if (1 <? List.length (hba_storage_objects (so_backstore so) w))%nat
        then ["SHARED HBA"] else []) in
  let errors :=
    match legacy with
    | [] => errors
    | _ :: _ => errors ++ [("LEGACY: " ++ String.concat ", " legacy)%string]
    end in
  let size := human_size attrs so in
  match errors with
  | _ :: _ =>
      let msg := String.concat ", " errors in
      let msg := if truthy path
                 then (msg ++ " (" ++ fmt_s path ++ " " ++ status attrs so ++ ")")%string
                 else msg in
      ret (msg, false)
  | [] =>
      ret ((fmt_s path ++ " " ++ size ++ status attrs so)%string, true)
  end.

(** ** Further notions used in the statements *)

(** Two worlds that differ at most in the shell log. *)
Definition same_but_log (w1 w2 : World) : Prop :=
  rts_backstores w1 = rts_backstores w2
  /\ rts_storage_objects w1 = rts_storage_objects w2
  /\ children w1 = children w2
  /\ fs w1 = fs w2
  /\ driver w1 = driver w2.

(** A command whose only effect is on the shell log. *)
Definition log_only {A} (m : M A) : Prop :=
  forall w, same_but_log (snd (m w)) w.

(** Every live backstore carries at least one storage object. *)
Definition no_orphans (w : World) : Prop :=
  forall b, In b (rts_backstores w) -> hba_storage_objects b w <> [].

(** Every storage object sits on a live backstore. *)
Definition attached (w : World) : Prop :=
  forall so, In so (rts_storage_objects w) -> In (so_backstore so) (rts_backstores w).

(** [i] is the smallest index below [range_stop] that no live backstore of
    plugin [k] uses. *)
Definition first_free (k : Plugin) (w : World) (i : Z) : Prop :=
  0 <= i < range_stop
  /\ ~ In i (backstore_indexes k w)
  /\ (forall m, 0 <= m < i -> In m (backstore_indexes k w)).

(** The storage objects of plugin [k] among [sos]. *)
Definition of_plugin (k : Plugin) (sos : list StorageObject) : list StorageObject :=
  filter (fun so => Plugin_eqb (bs_plugin (so_backstore so)) k) sos.

(** The node that shows the storage object [so] when the RTS tree holds
    [sos]: it wraps [so] and is labelled with its display name. *)
Definition node_of (sos : list StorageObject) (so : StorageObject) : UIStorageObject :=
  mkUIStorageObject (displayName so sos) so.

(** The children a backstore node of plugin [k] shows for the storage
    objects [sos] of the RTS tree: one node per object of the plugin,
    labelled with its display name. *)
Definition nodes_of (k : Plugin) (sos : list StorageObject) : list UIStorageObject :=
  map (node_of sos) (of_plugin k sos).

(** Among the storage objects of plugin [k], in the order in which rtslib
    lists them, one has as its stored name the display name of one listed
    before it. *)
Definition label_clash (k : Plugin) (sos : list StorageObject) : Prop :=
  exists l1 so1 l2 so2 l3,
    of_plugin k sos = l1 ++ so1 :: l2 ++ so2 :: l3
    /\ so_name so2 = displayName so1 sos.

(** A storage object of plugin [k] among [sos] is shown under the label
    [name], and one has [name] as its stored name. *)
Definition shown_as (k : Plugin) (name : string) (sos : list StorageObject) : Prop :=
  exists so, In so (of_plugin k sos) /\ displayName so sos = name.

Definition stored_as (k : Plugin) (name : string) (sos : list StorageObject) : Prop :=
  exists so, In so (of_plugin k sos) /\ so_name so = name.

(** The backstore nodes of the plugins [ks] constructed one after the
    other. *)
Fixpoint UIBackstore_init_each (ks : list Plugin) : M unit :=
  match ks with
  | [] => ret tt
  | k :: ks' => UIBackstore_init k ;; UIBackstore_init_each ks'
  end.

(** The path names nothing yet, or a regular file. *)
Definition new_or_regular (path : string) (w : World) : Prop :=
  fs w path = None \/ exists d, fs w path = Some (RegularFile d).

(** The operating system carries out every call on a file. *)
Definition quiet (w : World) : Prop :=
  forall c, io_error (driver w) c = None.

(** The outcome of a refresh: it returns, or a node constructor has raised
    ValueError. *)
Definition returns_or_ValueError (r : exn + unit) : Prop :=
  r = inr tt \/ exists msg, r = inl (ValueError msg).

(** Attributes used in the examples: every object has the path its
    constructor was given, reports itself activated and is 1.0M large. *)
Definition plain_attributes : Attributes :=
  mkAttributes so_dev (fun _ => " activated") (fun _ => "1.0M").

(** [w'] differs from [w] at most in the file [filename] and in the log. *)
Definition only_file (filename : string) (w w' : World) : Prop :=
  rts_backstores w' = rts_backstores w
  /\ rts_storage_objects w' = rts_storage_objects w
  /\ children w' = children w
  /\ driver w' = driver w
  /\ (forall p, p <> filename -> fs w' p = fs w p).

(** A world with a block device, a partition and a directory. *)
Definition device_world : World :=
  with_fs (fun p => if String.eqb p "/dev/sdb" then Some BlockDevice
                    else if String.eqb p "/dev/sdb1" then Some DiskPartition
                    else if String.eqb p "/tmp" then Some OtherNode
                    else None)
          (empty_world accepting).

(** A driver under which the write that finds [len] bytes in the file
    fails for want of room, and one under which only closing does. *)
Definition full_at (len : Z) : Driver :=
  mkDriver (fun _ => None) (fun _ => inr 2048)
           (fun c => match c with
                     | Write _ n => if Z.eqb n len
                                    then Some "[Errno 28] No space left on device"
                                    else None
                     | _ => None
                     end) [].

Definition full_on_close : Driver :=
  mkDriver (fun _ => None) (fun _ => inr 2048)
           (fun c => match c with
                     | Close _ _ => Some "[Errno 28] No space left on device"
                     | _ => None
                     end) [].

(** A legacy configuration in which a stored name is the display name of
    another object: two fileio objects called [disk], the first on
    backstore 0, and one called [disk_0]. *)
Definition clash_world : World :=
  mkWorld [mkBackstore fileio 0; mkBackstore fileio 1; mkBackstore fileio 2]
          [named fileio "disk" 0; named fileio "disk_0" 1; named fileio "disk" 2]
          (fun _ => []) (fun _ => None) [] accepting.

(** * Properties *)

(** ** Equality tests *)

Lemma Plugin_eqb_eq (a b : Plugin) : Plugin_eqb a b = true <-> a = b.
Proof. destruct a, b; simpl; split; congruence. Qed.

Lemma Plugin_eqb_refl (a : Plugin) : Plugin_eqb a a = true.
Proof. now apply Plugin_eqb_eq. Qed.

Lemma Backstore_eqb_eq (a b : Backstore) : Backstore_eqb a b = true <-> a = b.
Proof.
  unfold Backstore_eqb. rewrite andb_true_iff, Plugin_eqb_eq, Z.eqb_eq.
  destruct a, b; simpl; split.
  - intros [-> ->]; reflexivity.
  - intros E; injection E; auto.
Qed.

Lemma Backstore_eqb_refl (a : Backstore) : Backstore_eqb a a = true.
Proof. now apply Backstore_eqb_eq. Qed.

Lemma existsb_Zeqb_In (i : Z) (l : list Z) :
  existsb (Z.eqb i) l = true <-> In i l.
Proof.
  rewrite existsb_exists. split.
  - intros [x [Hx E]]. apply Z.eqb_eq in E. now subst.
  - intros H. exists i. split; [assumption | apply Z.eqb_refl].
Qed.

Lemma existsb_String_eqb_In (s : string) (l : list string) :
  existsb (String.eqb s) l = true <-> In s l.
Proof.
  rewrite existsb_exists. split.
  - intros [x [Hx E]]. apply String.eqb_eq in E. now subst.
  - intros H. exists s. split; [assumption | apply String.eqb_refl].
Qed.

(** ** The scan of [next_hba_index] *)

Lemma for_index_in_range_never_None (n : nat) (i : Z) (l : list Z) :
  for_index_in_range n i l Unbound <> PyNone.
Proof.
  revert i. induction n as [| n IH]; intros i; simpl.
  - discriminate.
  - destruct (existsb (Z.eqb i) l); simpl; [apply IH | discriminate].
Qed.

Lemma for_index_in_range_Unbound (n : nat) (i : Z) (l : list Z) :
  for_index_in_range n i l Unbound = Unbound <->
  (forall m, i <= m < i + Z.of_nat n -> In m l).
Proof.
  revert i. induction n as [| n IH]; intros i; simpl for_index_in_range.
  - split; [intros _ m Hm; lia | reflexivity].
  - destruct (existsb (Z.eqb i) l) eqn:E; simpl negb; cbv iota.
    + apply existsb_Zeqb_In in E. rewrite IH. split; intros H m Hm.
      * destruct (Z.eq_dec m i) as [-> | Hne]; [assumption | apply H; lia].
      * apply H; lia.
    + split; [discriminate |].
      intros H. assert (Hi : In i l) by (apply H; lia).
      apply existsb_Zeqb_In in Hi. congruence.
Qed.

Lemma for_index_in_range_PyVal (n : nat) (i j : Z) (l : list Z) :
  for_index_in_range n i l Unbound = PyVal j ->
  i <= j < i + Z.of_nat n /\ ~ In j l /\ (forall m, i <= m < j -> In m l).
Proof.
  revert i. induction n as [| n IH]; intros i; simpl for_index_in_range.
  - discriminate.
  - destruct (existsb (Z.eqb i) l) eqn:E; simpl negb; cbv iota.
    + intros H. apply IH in H. destruct H as (Hr & Hfree & Hbelow).
      apply existsb_Zeqb_In in E.
      repeat split; try lia; try assumption.
      intros m Hm. destruct (Z.eq_dec m i) as [-> | Hne];
        [assumption | apply Hbelow; lia].
    + intros H. injection H as <-.
      repeat split; try lia.
      intros Hin. apply existsb_Zeqb_In in Hin. congruence.
Qed.

(** What [next_hba_index] answers, read off the scan. *)
Lemma next_hba_index_result (self : Plugin) (w : World) :
  fst (next_hba_index self w) =
  match for_index_in_range (Z.to_nat range_stop) 0
                           (backstore_indexes self w) Unbound with
  | Unbound =>
      inl (UnboundLocalError
             "local variable 'backstore_index' referenced before assignment")
  | PyNone => inl (ExecutionError "Cannot find an available backstore index.")
  | PyVal j => inr j
  end.
Proof.
  unfold next_hba_index, bind, get, shell_log, modify, raise, ret.
  cbv beta iota.
  destruct (for_index_in_range (Z.to_nat range_stop) 0
                               (backstore_indexes self w) Unbound);
    reflexivity.
Qed.

Lemma rts_backstores_exhausted_world (k : Plugin) (d : Driver) :
  rts_backstores (exhausted_world k d) =
  map (fun n => mkBackstore k (Z.of_nat n)) (seq 0 (Z.to_nat range_stop)).
Proof. reflexivity. Qed.

Lemma backstore_indexes_exhausted_world (k : Plugin) (d : Driver) (m : Z) :
  0 <= m < range_stop -> In m (backstore_indexes k (exhausted_world k d)).
Proof.
  intros Hm. unfold backstore_indexes.
  rewrite rts_backstores_exhausted_world.
  apply in_map_iff. exists (mkBackstore k m). split; [reflexivity |].
  apply filter_In. split; [| apply Plugin_eqb_refl].
  apply in_map_iff. exists (Z.to_nat m). split.
  - f_equal. apply Z2Nat.id. lia.
  - apply in_seq. split; [lia |].
    rewrite Nat.add_0_l. apply Z2Nat.inj_lt; lia.
Qed.

(** C4, as stated, fails when the scanned range is exhausted: with a live
    iblock backstore at every index below [range_stop], the smallest
    non-negative integer that is not taken is [range_stop] itself, and the
    allocator returns no index at all. *)
Lemma next_hba_index_exhausted_returns_no_index :
  ~ In range_stop (backstore_indexes iblock (exhausted_world iblock accepting))
  /\ In (range_stop - 1)
        (backstore_indexes iblock (exhausted_world iblock accepting))
  /\ ~ (exists j, fst (next_hba_index iblock (exhausted_world iblock accepting))
                  = inr j).
Proof.
  split; [| split].
  - unfold backstore_indexes. rewrite rts_backstores_exhausted_world.
    intros H. apply in_map_iff in H. destruct H as [b [Hb H]].
    apply filter_In in H. destruct H as [H _].
    apply in_map_iff in H. destruct H as [n [<- Hn]].
    apply in_seq in Hn. cbn [bs_index] in Hb.
    assert (Hlt : Z.of_nat n < range_stop).
    { rewrite <- (Z2Nat.id range_stop) by (unfold range_stop; lia).
      apply Nat2Z.inj_lt. lia. }
    lia.
  - apply backstore_indexes_exhausted_world. unfold range_stop. lia.
  - intros [j Hj]. rewrite next_hba_index_result in Hj.
    assert (E : for_index_in_range (Z.to_nat range_stop) 0
                  (backstore_indexes iblock (exhausted_world iblock accepting))
                  Unbound = Unbound).
    { apply for_index_in_range_Unbound. intros m Hm.
      apply backstore_indexes_exhausted_world.
      rewrite Z2Nat.id in Hm by (unfold range_stop; lia). lia. }
    rewrite E in Hj. discriminate Hj.
Qed.

(** C4, amended. The index allocator scans 0, 1, 2, ... below [range_stop];
    when one of these indexes is not taken by a live backstore of the
    plugin, it returns the smallest non-negative integer that is not taken.
    In particular, when the live indexes of the plugin are 0, 1 and 2 and
    the backstore at index 1 is deleted, the next index is 1. *)
Theorem next_hba_index_smallest_unused (k : Plugin) (w : World) :
  (exists i, 0 <= i < range_stop /\ ~ In i (backstore_indexes k w)) ->
  (exists j,
      fst (next_hba_index k w) = inr j
      /\ 0 <= j
      /\ ~ In j (backstore_indexes k w)
      /\ (forall m, 0 <= m < j -> In m (backstore_indexes k w)))
  /\ ((forall i, In i (backstore_indexes k w) <-> i = 0 \/ i = 1 \/ i = 2) ->
      fst (next_hba_index k (snd (Backstore_delete (mkBackstore k 1) w))) = inr 1).
Proof.
  intros [i [Hi Hfree]]. split.
  - rewrite next_hba_index_result.
    destruct (for_index_in_range (Z.to_nat range_stop) 0
                                 (backstore_indexes k w) Unbound) as [| | j] eqn:E.
    + exfalso. apply Hfree.
      apply (proj1 (for_index_in_range_Unbound _ _ _) E).
      rewrite Z2Nat.id by (unfold range_stop; lia). lia.
    + exfalso. exact (for_index_in_range_never_None _ _ _ E).
    + apply for_index_in_range_PyVal in E. destruct E as (Hr & Hj & Hbelow).
      exists j. repeat split; try assumption; lia.
  - intros Hset. rewrite next_hba_index_result.
    set (w' := snd (Backstore_delete (mkBackstore k 1) w)).
    assert (Hidx : forall m, In m (backstore_indexes k w') <-> m = 0 \/ m = 2).
    { intros m. unfold backstore_indexes, w', Backstore_delete, modify.
      cbn [snd rts_backstores with_backstores].
      rewrite in_map_iff. split.
      - intros [b [<- Hb]]. apply filter_In in Hb. destruct Hb as [Hb Hk].
        apply filter_In in Hb. destruct Hb as [Hb Hne].
        apply Plugin_eqb_eq in Hk.
        assert (Hin : In (bs_index b) (backstore_indexes k w)).
        { unfold backstore_indexes. apply in_map. apply filter_In.
          split; [assumption | now apply Plugin_eqb_eq]. }
        apply Hset in Hin. destruct Hin as [H0 | [H1 | H2]]; auto.
        exfalso. apply negb_true_iff in Hne.
        assert (Heq : Backstore_eqb b (mkBackstore k 1) = true).
        { apply Backstore_eqb_eq. destruct b; simpl in *; congruence. }
        congruence.
      - intros Hm.
        assert (Hin : In m (backstore_indexes k w)) by (apply Hset; tauto).
        unfold backstore_indexes in Hin. apply in_map_iff in Hin.
        destruct Hin as [b [Hbm Hb]]. apply filter_In in Hb.
        destruct Hb as [Hb Hk]. exists b. split; [assumption |].
        apply filter_In. split; [| assumption].
        apply filter_In. split; [assumption |].
        apply negb_true_iff. destruct (Backstore_eqb b (mkBackstore k 1)) eqn:Eb;
          [| reflexivity].
        apply Backstore_eqb_eq in Eb. subst b. simpl in Hbm. lia. }
    destruct (for_index_in_range (Z.to_nat range_stop) 0
                                 (backstore_indexes k w') Unbound) as [| | j] eqn:E.
    + exfalso.
      assert (H1 : In 1 (backstore_indexes k w')).
      { apply (proj1 (for_index_in_range_Unbound _ _ _) E).
        unfold range_stop. lia. }
      apply Hidx in H1. lia.
    + exfalso. exact (for_index_in_range_never_None _ _ _ E).
    + apply for_index_in_range_PyVal in E. destruct E as (Hr & Hj & Hbelow).
      f_equal.
      assert (H0 : In 0 (backstore_indexes k w')) by (apply Hidx; auto).
      assert (Hj1 : j <= 1).
      { destruct (Z_le_gt_dec j 1) as [Hle | Hgt]; [assumption |].
        assert (H1 : In 1 (backstore_indexes k w')) by (apply Hbelow; lia).
        apply Hidx in H1. lia. }
      assert (Hj0 : j <> 0) by (intros ->; contradiction).
      lia.
Qed.


Lemma next_hba_index_smallest_unused_witness :
  (exists i, 0 <= i < range_stop
             /\ ~ In i (backstore_indexes fileio three_fileio_world))
  /\ (forall i, In i (backstore_indexes fileio three_fileio_world)
                <-> i = 0 \/ i = 1 \/ i = 2)
  /\ (exists j,
         fst (next_hba_index fileio three_fileio_world) = inr j
         /\ 0 <= j
         /\ ~ In j (backstore_indexes fileio three_fileio_world)
         /\ (forall m, 0 <= m < j ->
                       In m (backstore_indexes fileio three_fileio_world)))
  /\ fst (next_hba_index fileio
            (snd (Backstore_delete (mkBackstore fileio 1) three_fileio_world)))
     = inr 1.
Proof.
  assert (H : exists i, 0 <= i < range_stop
                        /\ ~ In i (backstore_indexes fileio three_fileio_world)).
  { exists 3. split; [unfold range_stop; lia |].
    cbn. intros [E | [E | [E | []]]]; discriminate E. }
  assert (Hset : forall i, In i (backstore_indexes fileio three_fileio_world)
                           <-> i = 0 \/ i = 1 \/ i = 2).
  { intros i. cbn. split.
    - intros [E | [E | [E | []]]]; subst i; auto.
    - intros [E | [E | E]]; subst i; auto. }
  destruct (next_hba_index_smallest_unused fileio three_fileio_world H)
    as [Hleast Hscenario].
  split; [exact H |].
  split; [exact Hset |].
  split; [exact Hleast | exact (Hscenario Hset)].
Defined.

(** C5. When every index of the scanned range is taken by a live backstore
    of the plugin, the loop ends without ever assigning [backstore_index];
    the test [backstore_index is None] then reads an unassigned local and
    Python raises UnboundLocalError, not the ExecutionError
    "Cannot find an available backstore index." written two lines below. *)
Theorem next_hba_index_exhausted_raises_UnboundLocalError (k : Plugin) (d : Driver) :
  fst (next_hba_index k (exhausted_world k d)) =
    inl (UnboundLocalError
           "local variable 'backstore_index' referenced before assignment")
  /\ fst (next_hba_index k (exhausted_world k d)) <>
    inl (ExecutionError "Cannot find an available backstore index.").
Proof.
  assert (E : for_index_in_range (Z.to_nat range_stop) 0
                (backstore_indexes k (exhausted_world k d)) Unbound = Unbound).
  { apply for_index_in_range_Unbound. intros m Hm.
    apply backstore_indexes_exhausted_world.
    rewrite Z2Nat.id in Hm by (unfold range_stop; lia). lia. }
  rewrite next_hba_index_result, E. split; [reflexivity | discriminate].
Qed.

(** ** Frame rules *)

Section Frame.
Context {B : Type} (proj : World -> B).

Lemma preserves_ret {A} (a : A) : preserves proj (ret a).
Proof. intros w; reflexivity. Qed.

Lemma preserves_raise {A} (e : exn) : preserves proj (@raise A e).
Proof. intros w; reflexivity. Qed.

Lemma preserves_get : preserves proj get.
Proof. intros w; reflexivity. Qed.

Lemma preserves_bind {A C} (m : M A) (k : A -> M C) :
  preserves proj m -> (forall a, preserves proj (k a)) ->
  preserves proj (bind m k).
Proof.
  intros Hm Hk w. unfold bind. specialize (Hm w).
  destruct (m w) as [[e | a] w']; simpl in *; [assumption |].
  rewrite Hk. assumption.
Qed.

Lemma preserves_try_except {A} (m : M A) (h : exn -> M A) :
  preserves proj m -> (forall e, preserves proj (h e)) ->
  preserves proj (try_except m h).
Proof.
  intros Hm Hh w. unfold try_except. specialize (Hm w).
  destruct (m w) as [[e | a] w']; simpl in *; [| assumption].
  rewrite Hh. assumption.
Qed.

Lemma preserves_modify (f : World -> World) :
  (forall w, proj (f w) = proj w) -> preserves proj (modify f).
Proof. intros H w; apply H. Qed.

Lemma preserves_if {A} (b : bool) (m1 m2 : M A) :
  preserves proj m1 -> preserves proj m2 ->
  preserves proj (if b then m1 else m2).
Proof. destruct b; auto. Qed.

Lemma preserves_call {A} (r : exn + A) : preserves proj (call r).
Proof. destruct r; intros w; reflexivity. Qed.
End Frame.

Lemma add_child_preserves {B} (proj : World -> B) (k : Plugin) (c : UIStorageObject) :
  (forall f w, proj (with_children f w) = proj w) ->
  preserves proj (add_child k c).
Proof. intros H. apply preserves_modify. intros w; apply H. Qed.

(** [frame] proves that a command built from the primitives leaves a
    projection of the world alone, by walking through its structure. *)
Ltac frame :=
  repeat match goal with
    | |- preserves _ (bind _ _) => apply preserves_bind; [| intro]
    | |- preserves _ (ret _) => apply preserves_ret
    | |- preserves _ (raise _) => apply preserves_raise
    | |- preserves _ get => apply preserves_get
    | |- preserves _ (call _) => apply preserves_call
    | |- preserves _ (try_except _ _) => apply preserves_try_except; [| intro]
    | |- preserves _ (modify _) => apply preserves_modify; intro; reflexivity
    | |- preserves _ (if ?b then _ else _) => destruct b
    | |- preserves _ (match ?x with _ => _ end) => destruct x
    | |- preserves _ assert_root => unfold assert_root
    | |- preserves _ (new_node _) => unfold new_node
    | |- preserves _ (shell_log _ _) => unfold shell_log
    | |- preserves _ (add_child _ _) => unfold add_child
    | |- preserves _ (UIStorageObject_init _ _) =>
        unfold UIStorageObject_init; cbv zeta
    | |- preserves _ (set_name _ _ _) => unfold set_name
    | |- preserves _ (assert_available_so_name _ _) =>
        unfold assert_available_so_name; cbv zeta
    | |- preserves _ (next_hba_index _) => unfold next_hba_index; cbv zeta
    | |- preserves _ (Backstore_create _ _) => unfold Backstore_create; cbv zeta
    | |- preserves _ (Backstore_delete _) => unfold Backstore_delete
    | |- preserves _ (StorageObject_create _) => unfold StorageObject_create
    | |- preserves _ (prm_gen_wwn _) => unfold prm_gen_wwn; cbv zeta
    | |- preserves _ (prm_buffered _) => unfold prm_buffered; cbv zeta
    end.

(** ** Invariants kept by a command *)

Section Keeps.
Variable I : World -> Prop.

Lemma keeps_bind {A C} (m : M A) (k : A -> M C) (R : A -> Prop) (R' : C -> Prop) :
  keeps I m R -> (forall a, R a -> keeps I (k a) R') -> keeps I (bind m k) R'.
Proof.
  intros Hm Hk w Hw. unfold bind. destruct (Hm w Hw) as [H1 H2].
  destruct (m w) as [[e | a] w1]; cbn [fst snd] in *.
  - split; [assumption | discriminate].
  - apply Hk; [apply H2; reflexivity | assumption].
Qed.

Lemma keeps_try_except {A} (m : M A) (h : exn -> M A) (R : A -> Prop) :
  keeps I m R -> (forall e, keeps I (h e) R) -> keeps I (try_except m h) R.
Proof.
  intros Hm Hh w Hw. unfold try_except. destruct (Hm w Hw) as [H1 H2].
  destruct (m w) as [[e | a] w1]; cbn [fst snd] in *.
  - now apply Hh.
  - split; [assumption |]. intros a' E. injection E as <-. now apply H2.
Qed.

Lemma keeps_raise {A} (e : exn) (R : A -> Prop) : keeps I (raise e) R.
Proof. intros w Hw. split; [assumption | discriminate]. Qed.

End Keeps.

Lemma orphaned_frame {A} (b : Backstore) (m : M A) :
  preserves rts_backstores m -> preserves rts_storage_objects m ->
  keeps (orphaned b) m (fun _ => True).
Proof.
  intros Hb Hs w [H1 H2]. split; [| trivial].
  unfold orphaned, hba_storage_objects in *. now rewrite Hb, Hs.
Qed.

(** ** dedup_so_name and refresh *)

Lemma count_occ_names (p : StorageObject -> bool) (n : string)
      (l : list StorageObject) :
  count_occ string_dec (map so_name (filter p l)) n =
  List.length (filter (fun so => p so && String.eqb (so_name so) n) l).
Proof.
  induction l as [| so l IH]; simpl; [reflexivity |].
  destruct (p so); simpl; [| assumption].
  destruct (string_dec (so_name so) n) as [E | E].
  - apply String.eqb_eq in E. rewrite E. simpl. now rewrite IH.
  - apply String.eqb_neq in E. rewrite E. assumption.
Qed.

(** The code computes the spec's [displayName] and reads the world only. *)
Lemma dedup_so_name_run (so : StorageObject) (w : World) :
  dedup_so_name so w = (inr (displayName so (rts_storage_objects w)), w).
Proof.
  unfold dedup_so_name, bind, get, displayName, carriers.
  cbv beta iota. rewrite count_occ_names.
  set (n := List.length _).
  destruct (Nat.ltb_spec 1 n) as [H | H];
    destruct (Nat.leb_spec n 1) as [H' | H']; try lia; reflexivity.
Qed.

(** *** Worlds that differ in the children of one node *)

Lemma set_children_twice (k : Plugin) (l l' : list UIStorageObject) (w : World) :
  set_children k l (set_children k l' w) = set_children k l w.
Proof.
  unfold set_children, with_children.
  cbn [rts_backstores rts_storage_objects children fs log driver].
  f_equal. apply functional_extensionality. intros k'.
  destruct (Plugin_eqb k' k); reflexivity.
Qed.

Lemma set_children_same (k : Plugin) (w : World) :
  set_children k (children w k) w = w.
Proof.
  destruct w as [bs sos cs f lg d]. unfold set_children, with_children.
  cbn [rts_backstores rts_storage_objects children fs log driver].
  f_equal. apply functional_extensionality. intros k'.
  destruct (Plugin_eqb k' k) eqn:E; [| reflexivity].
  apply Plugin_eqb_eq in E. now subst k'.
Qed.

Lemma children_set_children (k : Plugin) (l : list UIStorageObject) (w : World) :
  children (set_children k l w) k = l.
Proof.
  unfold set_children. cbn [children with_children]. now rewrite Plugin_eqb_refl.
Qed.

Lemma children_set_children_other (k k' : Plugin) (l : list UIStorageObject)
      (w : World) :
  k' <> k -> children (set_children k l w) k' = children w k'.
Proof.
  intros Hne. unfold set_children. cbn [children with_children].
  destruct (Plugin_eqb k' k) eqn:E; [| reflexivity].
  apply Plugin_eqb_eq in E. contradiction.
Qed.

(** *** The node constructor and the renaming *)

Lemma UIStorageObject_init_run (so : StorageObject) (k : Plugin) (w : World) :
  UIStorageObject_init so k w =
  if existsb (String.eqb (so_name so)) (map ui_name (children w k))
  then (inl (ValueError ("Name '" ++ so_name so
                         ++ "' already used by a sibling.")%string), w)
  else (inr (mkUIStorageObject (so_name so) so),
        set_children k (children w k ++ [mkUIStorageObject (so_name so) so]) w).
Proof.
  unfold UIStorageObject_init, bind, get. cbv beta iota zeta.
  destruct (existsb _ _); reflexivity.
Qed.

(** Where the name is free the constructor adds the node. *)
Lemma UIStorageObject_init_free (so : StorageObject) (k : Plugin) (w : World) :
  ~ In (so_name so) (map ui_name (children w k)) ->
  UIStorageObject_init so k w =
  (inr (mkUIStorageObject (so_name so) so),
   set_children k (children w k ++ [mkUIStorageObject (so_name so) so]) w).
Proof.
  intros H. rewrite UIStorageObject_init_run.
  destruct (existsb _ _) eqn:E; [| reflexivity].
  apply existsb_String_eqb_In in E. contradiction.
Qed.

Lemma UIStorageObject_eqb_refl (c : UIStorageObject) : UIStorageObject_eqb c c = true.
Proof.
  unfold UIStorageObject_eqb, StorageObject_eqb.
  now rewrite !String.eqb_refl, Backstore_eqb_refl.
Qed.

(** Renaming the node that was added last, whose name no sibling carries,
    touches no other child. *)
Lemma rename_last (cs : list UIStorageObject) (node : UIStorageObject)
      (name : string) :
  ~ In (ui_name node) (map ui_name cs) ->
  map (fun c => if UIStorageObject_eqb c node
                then mkUIStorageObject name (rtsnode c) else c)
      (cs ++ [node])
  = cs ++ [mkUIStorageObject name (rtsnode node)].
Proof.
  intros Hfree. rewrite map_app. cbn [map].
  rewrite UIStorageObject_eqb_refl. f_equal.
  induction cs as [| c cs IH]; [reflexivity |].
  cbn [map]. cbn [map] in Hfree.
  destruct (UIStorageObject_eqb c node) eqn:E.
  - exfalso. apply Hfree. left. unfold UIStorageObject_eqb in E.
    apply andb_true_iff in E. destruct E as [E _]. now apply String.eqb_eq in E.
  - f_equal. apply IH. intros Hin. apply Hfree. now right.
Qed.

(** One round of the loop of [refresh]. *)
Lemma refresh_loop_cons (k : Plugin) (so : StorageObject)
      (l : list StorageObject) (w : World) :
  refresh_loop k (so :: l) w =
  if Plugin_eqb (bs_plugin (so_backstore so)) k
  then if existsb (String.eqb (so_name so)) (map ui_name (children w k))
       then (inl (ValueError ("Name '" ++ so_name so
                              ++ "' already used by a sibling.")%string), w)
       else refresh_loop k l
              (set_children k
                 (children w k ++ [node_of (rts_storage_objects w) so]) w)
  else refresh_loop k l w.
Proof.
  cbn [refresh_loop]. unfold bind at 1.
  destruct (Plugin_eqb (bs_plugin (so_backstore so)) k); [| reflexivity].
  unfold bind at 1. rewrite UIStorageObject_init_run.
  destruct (existsb (String.eqb (so_name so)) (map ui_name (children w k)))
    eqn:Ex; [reflexivity |].
  unfold bind at 1. rewrite dedup_so_name_run.
  unfold set_name, modify.
  cbn [rts_storage_objects set_children with_children].
  rewrite children_set_children, rename_last, set_children_twice.
  - reflexivity.
  - cbn [ui_name]. intros Hin. apply existsb_String_eqb_In in Hin. congruence.
Qed.

Lemma labels_snoc (all : list StorageObject) (cs : list UIStorageObject)
      (so : StorageObject) (d : list StorageObject) :
  map ui_name (cs ++ [node_of all so]) ++ map (fun s => displayName s all) d
  = map ui_name cs ++ map (fun s => displayName s all) (so :: d).
Proof. rewrite map_app, <- app_assoc. reflexivity. Qed.

(** The loop of [refresh] over the objects [l]: the objects of the plugin
    are shown one after the other ([done]) until one of them ([rest], if
    any) has a stored name that a child shown so far carries; there the
    constructor raises and the loop ends. *)
Lemma refresh_loop_spec (k : Plugin) (l : list StorageObject) :
  forall w : World,
    let all := rts_storage_objects w in
    exists done rest,
      of_plugin k l = done ++ rest
      /\ snd (refresh_loop k l w)
         = set_children k (children w k ++ map (node_of all) done) w
      /\ (forall d1 so d2, done = d1 ++ so :: d2 ->
            ~ In (so_name so)
                 (map ui_name (children w k)
                  ++ map (fun s => displayName s all) d1))
      /\ match rest with
         | [] => fst (refresh_loop k l w) = inr tt
         | so :: _ =>
             fst (refresh_loop k l w)
             = inl (ValueError ("Name '" ++ so_name so
                                ++ "' already used by a sibling.")%string)
             /\ In (so_name so)
                   (map ui_name (children w k)
                    ++ map (fun s => displayName s all) done)
         end.
Proof.
  induction l as [| so l IH]; intros w all.
  - exists [], []. cbn [refresh_loop map app].
    rewrite app_nil_r, set_children_same.
    split; [reflexivity |]. split; [reflexivity |].
    split; [| reflexivity]. intros d1 so d2 E. destruct d1; discriminate E.
  - rewrite refresh_loop_cons. unfold of_plugin. cbn [filter].
    fold (of_plugin k l).
    destruct (Plugin_eqb (bs_plugin (so_backstore so)) k); [| exact (IH w)].
    destruct (existsb (String.eqb (so_name so)) (map ui_name (children w k)))
      eqn:Ex.
    + exists [], (so :: of_plugin k l). cbn [map fst snd app].
      rewrite app_nil_r, set_children_same.
      split; [reflexivity |]. split; [reflexivity |]. split.
      * intros d1 s d2 E. destruct d1; discriminate E.
      * split; [reflexivity |]. rewrite app_nil_r.
        now apply existsb_String_eqb_In.
    + fold all.
      set (w1 := set_children k (children w k ++ [node_of all so]) w).
      destruct (IH w1) as (done & rest & Hsplit & Hsnd & Hfree & Hrest).
      change (rts_storage_objects w1) with all in Hsnd, Hfree, Hrest.
      assert (Hc1 : children w1 k = children w k ++ [node_of all so])
        by apply children_set_children.
      rewrite Hc1 in Hsnd, Hfree, Hrest.
      exists (so :: done), rest.
      split; [cbn [app]; now rewrite Hsplit |].
      split.
      { rewrite Hsnd. unfold w1. rewrite set_children_twice, <- app_assoc.
        reflexivity. }
      split.
      { intros d1 s d2 E. destruct d1 as [| s1 d1]; cbn [app] in E;
          injection E as <- E.
        - cbn [map]. rewrite app_nil_r. intros Hin.
          apply existsb_String_eqb_In in Hin. congruence.
        - rewrite <- labels_snoc. exact (Hfree d1 s d2 E). }
      destruct rest as [| s rest']; [exact Hrest |].
      destruct Hrest as [H1 H2]. split; [exact H1 |].
      rewrite <- labels_snoc. exact H2.
Qed.

(** [refresh]: the children of the node are dropped, then the loop runs
    over what rtslib lists. *)
Lemma refresh_spec (k : Plugin) (w : World) :
  let all := rts_storage_objects w in
  exists done rest,
    of_plugin k all = done ++ rest
    /\ snd (refresh k w) = set_children k (map (node_of all) done) w
    /\ (forall d1 so d2, done = d1 ++ so :: d2 ->
          ~ In (so_name so) (map (fun s => displayName s all) d1))
    /\ match rest with
       | [] => fst (refresh k w) = inr tt
       | so :: _ =>
           fst (refresh k w)
           = inl (ValueError ("Name '" ++ so_name so
                              ++ "' already used by a sibling.")%string)
           /\ In (so_name so) (map (fun s => displayName s all) done)
       end.
Proof.
  intros all. unfold refresh, bind, modify, get. cbv beta iota.
  set (w0 := set_children k [] w).
  destruct (refresh_loop_spec k (rts_storage_objects w0) w0)
    as (done & rest & Hsplit & Hsnd & Hfree & Hrest).
  change (rts_storage_objects w0) with all in Hsplit, Hsnd, Hfree, Hrest |- *.
  assert (Hc0 : children w0 k = []) by apply children_set_children.
  rewrite Hc0 in Hsnd, Hfree, Hrest. cbn [app map] in Hsnd, Hfree, Hrest.
  exists done, rest. split; [exact Hsplit |]. split.
  - rewrite Hsnd. unfold w0. apply set_children_twice.
  - split; [exact Hfree | exact Hrest].
Qed.

Lemma refresh_outcome (k : Plugin) (w : World) :
  returns_or_ValueError (fst (refresh k w)).
Proof.
  destruct (refresh_spec k w) as (done & [| so rest] & _ & _ & _ & H).
  - now left.
  - right. eexists. exact (proj1 H).
Qed.

(** Every child a refresh leaves, whether it returns or raises, shows a
    storage object of the plugin under its display name. *)
Lemma refresh_children_in (k : Plugin) (w : World) (c : UIStorageObject) :
  In c (children (snd (refresh k w)) k) ->
  exists so, In so (of_plugin k (rts_storage_objects w))
             /\ c = node_of (rts_storage_objects w) so.
Proof.
  destruct (refresh_spec k w) as (done & rest & Hsplit & Hsnd & _).
  rewrite Hsnd, children_set_children. intros Hc.
  apply in_map_iff in Hc. destruct Hc as (so & <- & Hso).
  exists so. split; [| reflexivity].
  rewrite Hsplit. apply in_or_app. now left.
Qed.

Lemma refresh_children_other (k k' : Plugin) (w : World) :
  k' <> k -> children (snd (refresh k w)) k' = children w k'.
Proof.
  intros Hne. destruct (refresh_spec k w) as (done & rest & _ & Hsnd & _).
  rewrite Hsnd. now apply children_set_children_other.
Qed.

(** When the refresh returns, the node shows every object of the plugin. *)
Lemma refresh_children_all (k : Plugin) (w : World) :
  fst (refresh k w) = inr tt ->
  children (snd (refresh k w)) k = nodes_of k (rts_storage_objects w).
Proof.
  intros Hok.
  destruct (refresh_spec k w) as (done & [| so rest] & Hsplit & Hsnd & _ & H).
  - rewrite Hsnd, children_set_children. unfold nodes_of.
    rewrite Hsplit, app_nil_r. reflexivity.
  - destruct H as [H _]. rewrite H in Hok. discriminate Hok.
Qed.

(** The refresh returns exactly when no stored name is the display name of
    an object listed before. *)
Lemma refresh_returns_iff (k : Plugin) (w : World) :
  fst (refresh k w) = inr tt <-> ~ label_clash k (rts_storage_objects w).
Proof.
  destruct (refresh_spec k w) as (done & [| so rest] & Hsplit & _ & Hfree & H).
  - split; [| intros _; exact H]. intros _ (l1 & so1 & l2 & so2 & l3 & E & Hn).
    rewrite app_nil_r in Hsplit. rewrite Hsplit in E.
    assert (E' : done = (l1 ++ so1 :: l2) ++ so2 :: l3)
      by (rewrite E, <- app_assoc; reflexivity).
    apply (Hfree _ _ _ E'). rewrite Hn, map_app. apply in_or_app. right.
    left. reflexivity.
  - destruct H as [H Hin]. split.
    + intros Hok. rewrite H in Hok. discriminate Hok.
    + intros Hno. exfalso. apply Hno.
      apply in_map_iff in Hin. destruct Hin as (so1 & Hn & Hso1).
      apply in_split in Hso1. destruct Hso1 as (l1 & l2 & ->).
      exists l1, so1, l2, so, rest. split; [| now symmetry].
      rewrite Hsplit, <- app_assoc. reflexivity.
Qed.

Lemma map_rtsnode_nodes_of (k : Plugin) (sos : list StorageObject) :
  map rtsnode (nodes_of k sos) = of_plugin k sos.
Proof. unfold nodes_of. rewrite map_map. cbn [rtsnode node_of]. apply map_id. Qed.

(** C7. The name under which a storage object is displayed is its stored
    name when at most one storage object of its kind carries that name, and
    the stored name, an underscore and the index of the owning backstore
    when more than one does.  Computing it changes nothing, and [refresh]
    only labels the nodes: the storage objects keep their stored names, each
    child wraps one storage object of the plugin unchanged and is labelled
    with its display name, and when the refresh returns every storage
    object of the plugin has its child. *)
Theorem dedup_so_name_display_name (so : StorageObject) (w : World) :
  fst (dedup_so_name so w) =
    inr (if (carriers so (rts_storage_objects w) <=? 1)%nat
         then so_name so
         else (so_name so ++ "_" ++ fmt_d (bs_index (so_backstore so)))%string)
  /\ snd (dedup_so_name so w) = w
  /\ (forall k,
      rts_storage_objects (snd (refresh k w)) = rts_storage_objects w
      /\ (forall c, In c (children (snd (refresh k w)) k) ->
                    In (rtsnode c) (of_plugin k (rts_storage_objects w))
                    /\ ui_name c = displayName (rtsnode c) (rts_storage_objects w))
      /\ (fst (refresh k w) = inr tt ->
          Permutation (map rtsnode (children (snd (refresh k w)) k))
                      (of_plugin k (rts_storage_objects w)))).
Proof.
  rewrite dedup_so_name_run. split; [reflexivity |]. split; [reflexivity |].
  intros k. split; [| split].
  - destruct (refresh_spec k w) as (done & rest & _ & Hsnd & _).
    now rewrite Hsnd.
  - intros c Hc. apply refresh_children_in in Hc.
    destruct Hc as (s & Hs & ->). split; [exact Hs | reflexivity].
  - intros Hok. rewrite (refresh_children_all k w Hok), map_rtsnode_nodes_of.
    apply Permutation_refl.
Qed.

Lemma dedup_so_name_display_name_witness :
  In (mkUIStorageObject "disk_1" (named fileio "disk" 1))
     (children (snd (refresh fileio legacy_world)) fileio)
  /\ fst (dedup_so_name (named fileio "disk" 1) legacy_world) = inr "disk_1"
  /\ fst (dedup_so_name (named fileio "solo" 2) legacy_world) = inr "solo"
  /\ fst (dedup_so_name (named iblock "disk" 0) legacy_world) = inr "disk"
  /\ "disk_1" = displayName (named fileio "disk" 1) (rts_storage_objects legacy_world).
Proof.
  assert (Hin : In (mkUIStorageObject "disk_1" (named fileio "disk" 1))
                   (children (snd (refresh fileio legacy_world)) fileio)).
  { vm_compute. right. left. reflexivity. }
  split; [exact Hin |].
  split; [exact (proj1 (dedup_so_name_display_name (named fileio "disk" 1) legacy_world)) |].
  split; [exact (proj1 (dedup_so_name_display_name (named fileio "solo" 2) legacy_world)) |].
  split; [exact (proj1 (dedup_so_name_display_name (named iblock "disk" 0) legacy_world)) |].
  destruct (dedup_so_name_display_name (named fileio "disk" 1) legacy_world)
    as (_ & _ & Hrefresh).
  destruct (Hrefresh fileio) as (_ & Hlabel & _).
  exact (proj2 (Hlabel _ Hin)).
Defined.

(** ** assert_available_so_name *)

(** C8, amended. The availability check raises the "already exist"
    ExecutionError exactly when the proposed name is the label of a child of
    the same backstore node, and returns normally otherwise; children of
    the other backstore nodes play no part, and the check changes nothing.
    After a refresh that returns, the labels are the display names of the
    storage objects of the plugin: the check raises exactly when a storage
    object of the plugin is shown under the proposed name, which, when no
    stored name is shared within the plugin, is the same as one having it
    as its stored name. *)
Theorem assert_available_so_name_conflict (k : Plugin) (name : string) (w : World) :
  (fst (assert_available_so_name k name w) =
     inl (ExecutionError ("Storage object " ++ plugin_name k ++ "/" ++ name
                          ++ " already exist.")%string)
   <-> In name (map ui_name (children w k)))
  /\ (fst (assert_available_so_name k name w) = inr tt
      <-> ~ In name (map ui_name (children w k)))
  /\ snd (assert_available_so_name k name w) = w
  /\ (forall k', k' <> k ->
        In name (map ui_name (children w k')) ->
        ~ In name (map ui_name (children w k)) ->
        fst (assert_available_so_name k name w) = inr tt)
  /\ (fst (refresh k w) = inr tt ->
      let sos := rts_storage_objects w in
      let w' := snd (refresh k w) in
      (fst (assert_available_so_name k name w') =
         inl (ExecutionError ("Storage object " ++ plugin_name k ++ "/" ++ name
                              ++ " already exist.")%string)
       <-> shown_as k name sos)
      /\ (fst (assert_available_so_name k name w') = inr tt
          <-> ~ shown_as k name sos)
      /\ ((forall so, In so (of_plugin k sos) -> (carriers so sos <= 1)%nat) ->
          (shown_as k name sos <-> stored_as k name sos))).
Proof.
  assert (G : forall w0,
            (fst (assert_available_so_name k name w0) =
               inl (ExecutionError ("Storage object " ++ plugin_name k ++ "/"
                                    ++ name ++ " already exist.")%string)
             <-> In name (map ui_name (children w0 k)))
            /\ (fst (assert_available_so_name k name w0) = inr tt
                <-> ~ In name (map ui_name (children w0 k)))
            /\ snd (assert_available_so_name k name w0) = w0).
  { intros w0. unfold assert_available_so_name, bind, get. cbv beta iota.
    destruct (existsb (String.eqb name) (map ui_name (children w0 k))) eqn:E.
    - assert (Hin : In name (map ui_name (children w0 k)))
        by (now apply existsb_String_eqb_In).
      repeat split; auto; try discriminate; try contradiction.
    - assert (Hout : ~ In name (map ui_name (children w0 k))).
      { intros Hin. apply existsb_String_eqb_In in Hin. congruence. }
      repeat split; auto; try discriminate; try contradiction. }
  destruct (G w) as (G1 & G2 & G3).
  split; [exact G1 |]. split; [exact G2 |]. split; [exact G3 |].
  split; [intros k' _ _ Hout; now apply G2 |].
  intros Hok sos w'.
  assert (L : In name (map ui_name (children w' k)) <-> shown_as k name sos).
  { unfold w'. rewrite (refresh_children_all k w Hok). fold sos.
    unfold nodes_of, shown_as. rewrite map_map. cbn [ui_name node_of].
    rewrite in_map_iff.
    split; intros (so & H1 & H2); exists so; now split. }
  destruct (G w') as (G1' & G2' & _).
  split; [now rewrite G1', L |]. split; [now rewrite G2', L |].
  intros Huniq.
  split; intros (so & Hso & Hn); exists so; (split; [exact Hso |]);
    specialize (Huniq so Hso); apply Nat.leb_le in Huniq;
    unfold displayName in *; rewrite Huniq in *; exact Hn.
Qed.

Lemma assert_available_so_name_conflict_witness :
  let w' := snd (refresh fileio legacy_world) in
  fst (refresh fileio legacy_world) = inr tt
  /\ shown_as fileio "disk_1" (rts_storage_objects legacy_world)
  /\ fst (assert_available_so_name fileio "disk_1" w') =
       inl (ExecutionError "Storage object fileio/disk_1 already exist.")
  /\ iblock <> fileio
  /\ In "disk" (map ui_name (children legacy_world iblock))
  /\ ~ In "disk" (map ui_name (children legacy_world fileio))
  /\ fst (assert_available_so_name fileio "disk" legacy_world) = inr tt.
Proof.
  intros w'.
  assert (H0 : fst (refresh fileio legacy_world) = inr tt) by reflexivity.
  assert (Hs : shown_as fileio "disk_1" (rts_storage_objects legacy_world)).
  { exists (named fileio "disk" 1). split; [| reflexivity].
    cbn. right. left. reflexivity. }
  assert (H1 : iblock <> fileio) by discriminate.
  assert (H2 : In "disk" (map ui_name (children legacy_world iblock)))
    by (simpl; auto).
  assert (H3 : ~ In "disk" (map ui_name (children legacy_world fileio))).
  { simpl. intros [E | [E | [E | []]]]; discriminate E. }
  split; [exact H0 |]. split; [exact Hs |].
  split.
  { destruct (assert_available_so_name_conflict fileio "disk_1" legacy_world)
      as (_ & _ & _ & _ & Hshown).
    exact (proj2 (proj1 (Hshown H0)) Hs). }
  split; [exact H1 |]. split; [exact H2 |]. split; [exact H3 |].
  exact (proj1 (proj2 (proj2 (proj2
           (assert_available_so_name_conflict fileio "disk" legacy_world))))
           iblock H1 H2 H3).
Defined.

(** C8, as stated, fails where a stored name is shared: on the refreshed
    tree of the legacy configuration the check looks at the labels and not
    at the stored names.  [disk] is the stored name of two fileio storage
    objects and the check returns for it, while [disk_0] is the stored name
    of none and the check raises for it. *)
Lemma assert_available_so_name_checks_labels :
  let w' := snd (refresh fileio legacy_world) in
  fst (refresh fileio legacy_world) = inr tt
  /\ stored_as fileio "disk" (rts_storage_objects w')
  /\ fst (assert_available_so_name fileio "disk" w') = inr tt
  /\ ~ stored_as fileio "disk_0" (rts_storage_objects w')
  /\ fst (assert_available_so_name fileio "disk_0" w') =
       inl (ExecutionError "Storage object fileio/disk_0 already exist.").
Proof.
  intros w'.
  split; [reflexivity |]. split.
  { exists (named fileio "disk" 0). split; [| reflexivity]. cbn. left. reflexivity. }
  split; [reflexivity |]. split; [| reflexivity].
  intros (so & Hso & Hn). cbn in Hso.
  destruct Hso as [<- | [<- | [<- | []]]]; discriminate Hn.
Qed.

(** ** ui_command_delete *)

Lemma refresh_preserves {B} (proj : World -> B) (k : Plugin) :
  (forall f w, proj (with_children f w) = proj w) ->
  preserves proj (refresh k).
Proof.
  intros H w. destruct (refresh_spec k w) as (done & rest & _ & Hsnd & _).
  rewrite Hsnd. unfold set_children. apply H.
Qed.

Lemma root_refresh_preserves {B} (proj : World -> B) :
  (forall f w, proj (with_children f w) = proj w) ->
  preserves proj root_refresh.
Proof.
  intros H. unfold root_refresh, UIBackstores_refresh, UIBackstore_init.
  apply preserves_bind; [apply preserves_modify; intros w; apply H | intros _].
  repeat (apply preserves_bind; [now apply refresh_preserves | intros _]).
  now apply refresh_preserves.
Qed.

Lemma bind_succeeds {A C} (m : M A) (k : A -> M C) (w : World) (a : A) :
  fst (m w) = inr a -> bind m k w = k a (snd (m w)).
Proof.
  unfold bind. destruct (m w) as [[e | a'] w']; simpl; intros E;
    [discriminate | now injection E as ->].
Qed.

Lemma bind_fails {A C} (m : M A) (k : A -> M C) (w : World) (e : exn) :
  fst (m w) = inl e -> bind m k w = (inl e, snd (m w)).
Proof.
  unfold bind. destruct (m w) as [[e' | a] w']; simpl; intros E;
    [now injection E as -> | discriminate].
Qed.

Lemma bind_unfold {A C} (m : M A) (k : A -> M C) (w : World) :
  bind m k w =
  match m w with
  | (inl e, w') => (inl e, w')
  | (inr a, w') => k a w'
  end.
Proof. reflexivity. Qed.

Lemma bind_fails_fst {A C} (m : M A) (k : A -> M C) (w : World) (e : exn) :
  fst (m w) = inl e -> fst (bind m k w) = inl e.
Proof. intros E. now rewrite (bind_fails m k w e E). Qed.

Lemma bind_fails_snd {A C} (m : M A) (k : A -> M C) (w : World) (e : exn) :
  fst (m w) = inl e -> snd (bind m k w) = snd (m w).
Proof.
  unfold bind. destruct (m w) as [[e' | a] w']; simpl; intros E;
    [reflexivity | discriminate].
Qed.

Lemma try_except_succeeds {A} (m : M A) (h : exn -> M A) (w : World) (a : A) :
  fst (m w) = inr a -> try_except m h w = (inr a, snd (m w)).
Proof.
  unfold try_except. destruct (m w) as [[e | a'] w']; simpl; intros E;
    [discriminate | now injection E as ->].
Qed.

Lemma try_except_fails {A} (m : M A) (h : exn -> M A) (w : World) (e : exn) :
  fst (m w) = inl e -> try_except m h w = h e (snd (m w)).
Proof.
  unfold try_except. destruct (m w) as [[e' | a] w']; simpl; intros E;
    [now injection E as -> | discriminate].
Qed.

Lemma bind_run {A C} (m : M A) (k : A -> M C) (w w1 : World) (a : A) :
  m w = (inr a, w1) -> bind m k w = k a w1.
Proof. intros E. unfold bind. now rewrite E. Qed.

Lemma bind_raise {A C} (m : M A) (k : A -> M C) (w w1 : World) (e : exn) :
  m w = (inl e, w1) -> bind m k w = (inl e, w1).
Proof. intros E. unfold bind. now rewrite E. Qed.

Lemma returns_or_ValueError_bind {A} (m : M A) (k : A -> M unit) :
  (forall w, (exists a, fst (m w) = inr a)
             \/ exists msg, fst (m w) = inl (ValueError msg)) ->
  (forall a w, returns_or_ValueError (fst (k a w))) ->
  forall w, returns_or_ValueError (fst (bind m k w)).
Proof.
  intros Hm Hk w. unfold bind. specialize (Hm w).
  destruct (m w) as [[e | a] w']; cbn [fst] in *.
  - right. destruct Hm as [[a Ha] | [msg Hmsg]]; [discriminate Ha |].
    exists msg. now injection Hmsg as ->.
  - apply Hk.
Qed.

(** The refresh asked of the root returns, or raises the ValueError of a
    node constructor; nothing else. *)
Lemma root_refresh_outcome (w : World) :
  returns_or_ValueError (fst (root_refresh w)).
Proof.
  assert (R : forall k w0, (exists a, fst (refresh k w0) = inr a)
                           \/ exists msg, fst (refresh k w0) = inl (ValueError msg)).
  { intros k w0. destruct (refresh_outcome k w0) as [H | H];
      [left; now exists tt | now right]. }
  unfold root_refresh, UIBackstores_refresh, UIBackstore_init.
  apply returns_or_ValueError_bind; [intros w0; left; now exists tt | intros _].
  repeat (apply returns_or_ValueError_bind; [apply R | intros _]).
  apply refresh_outcome.
Qed.

Lemma find_name_None (name : string) (l : list UIStorageObject) :
  find (fun c => String.eqb (ui_name c) name) l = None <->
  ~ In name (map ui_name l).
Proof.
  induction l as [| c l IH]; simpl; [tauto |].
  destruct (String.eqb (ui_name c) name) eqn:E.
  - apply String.eqb_eq in E. split; [discriminate | tauto].
  - apply String.eqb_neq in E. rewrite IH. tauto.
Qed.

Lemma insert_at_perm {A} (n : nat) (x : A) (l : list A) :
  Permutation (insert_at n x l) (x :: l).
Proof.
  revert n. induction l as [| y l IH]; intros [| n]; cbn [insert_at];
    try apply Permutation_refl.
  eapply perm_trans; [apply perm_skip, IH | apply perm_swap].
Qed.

(** Whatever the key, a set yields each of its elements once. *)
Lemma set_iter_perm {A} (key : list nat) (l : list A) :
  Permutation (set_iter key l) l.
Proof.
  revert key. induction l as [| x l IH]; intros key; cbn [set_iter];
    [apply Permutation_refl |].
  destruct key as [| n key].
  - apply perm_skip, IH.
  - eapply perm_trans; [apply insert_at_perm | apply perm_skip, IH].
Qed.

Lemma insert_at_app {A} (x : A) (l1 l2 : list A) :
  insert_at (List.length l1) x (l1 ++ l2) = l1 ++ x :: l2.
Proof.
  induction l1 as [| y l1 IH]; cbn [List.length app insert_at];
    [destruct l2; reflexivity | now rewrite IH].
Qed.

(** And every order of the elements is the one some key gives. *)
Lemma set_iter_any_order {A} (l l' : list A) :
  Permutation l l' -> exists key, set_iter key l = l'.
Proof.
  revert l'. induction l as [| x l IH]; intros l' P.
  - apply Permutation_nil in P. subst l'. now exists [].
  - assert (Hin : In x l') by (apply (Permutation_in _ P); now left).
    apply in_split in Hin. destruct Hin as (l1 & l2 & ->).
    apply Permutation_cons_app_inv in P.
    destruct (IH _ P) as (key & E).
    exists (List.length l1 :: key). cbn [set_iter]. rewrite E.
    apply insert_at_app.
Qed.

Lemma iter_children_perm (w : World) (k : Plugin) :
  Permutation (iter_children w k) (children w k).
Proof. apply set_iter_perm. Qed.

Lemma iter_children_names (name : string) (w : World) (k : Plugin) :
  In name (map ui_name (iter_children w k)) <-> In name (map ui_name (children w k)).
Proof.
  pose proof (Permutation_map ui_name (iter_children_perm w k)) as P.
  split; apply Permutation_in; [exact P | apply Permutation_sym, P].
Qed.

(** A child that alone carries its name is the one found, in whatever
    order the children come. *)
Lemma find_name_unique (name : string) (l : list UIStorageObject)
      (node : UIStorageObject) :
  In node l -> ui_name node = name ->
  (forall c, In c l -> ui_name c = name -> c = node) ->
  find (fun c => String.eqb (ui_name c) name) l = Some node.
Proof.
  intros Hin Hn Hu. induction l as [| c l IH]; [destruct Hin |].
  cbn [find]. destruct (String.eqb_spec (ui_name c) name) as [E | E].
  - f_equal. apply Hu; [now left | exact E].
  - apply IH.
    + destruct Hin as [-> | Hin]; [contradiction | exact Hin].
    + intros c' Hc'. apply Hu. now right.
Qed.

Lemma get_child_run (k : Plugin) (name : string) (w : World) :
  get_child k name w =
  match find (fun c => String.eqb (ui_name c) name) (iter_children w k) with
  | Some c => (inr c, w)
  | None => (inl (ValueError ("No such path /backstores/" ++ plugin_name k
                              ++ "/" ++ name)%string), w)
  end.
Proof.
  unfold get_child, bind, get. cbv beta iota.
  destruct (find _ _); reflexivity.
Qed.

(** The command when no child has the name: the error is logged. *)
Lemma ui_command_delete_unknown (k : Plugin) (name : string) (w : World) :
  ~ In name (map ui_name (children w k)) ->
  ui_command_delete k name w =
  (inr tt,
   with_log (log w ++ [(Error, ("No storage object named " ++ name ++ ".")%string)]) w).
Proof.
  intros H. rewrite <- iter_children_names in H. apply find_name_None in H.
  unfold ui_command_delete, assert_root.
  unfold bind at 1, ret at 1. cbv beta iota.
  unfold try_except_ValueError_else. rewrite get_child_run, H. reflexivity.
Qed.

Lemma ui_command_delete_known (k : Plugin) (name : string)
      (child : UIStorageObject) (w : World) :
  find (fun c => String.eqb (ui_name c) name) (iter_children w k) = Some child ->
  ui_command_delete k name w = root_refresh (after_delete k name child w).
Proof.
  intros H.
  unfold ui_command_delete, assert_root.
  unfold bind at 1, ret at 1. cbv beta iota.
  unfold try_except_ValueError_else. rewrite get_child_run, H.
  unfold after_delete. cbv zeta.
  unfold bind, StorageObject_delete, remove_child, shell_log, modify, get, ret.
  cbn [snd fst].
  destruct (hba_storage_objects _ _); reflexivity.
Qed.

Lemma filter_negb_all {A} (p : A -> bool) (l : list A) :
  filter p l = [] -> filter (fun x => negb (p x)) l = l.
Proof.
  induction l as [| x l IH]; simpl; [reflexivity |].
  destruct (p x); simpl; [discriminate |].
  intros H. now rewrite IH.
Qed.

Lemma filter_nil_existsb {A} (p : A -> bool) (l : list A) :
  filter p l = [] <-> existsb p l = false.
Proof.
  induction l as [| x l IH]; simpl; [tauto |].
  destruct (p x); simpl; [split; discriminate | exact IH].
Qed.

(** Storage objects, backstores and log after a successful delete. *)
Lemma after_delete_rts (k : Plugin) (name : string) (child : UIStorageObject)
      (w : World) :
  let hba := so_backstore (rtsnode child) in
  let remaining :=
    filter (fun s => negb (StorageObject_eqb s (rtsnode child)))
           (rts_storage_objects w) in
  rts_storage_objects (after_delete k name child w) = remaining
  /\ rts_backstores (after_delete k name child w) =
     (if existsb (fun s => Backstore_eqb (so_backstore s) hba) remaining
      then rts_backstores w
      else filter (fun b => negb (Backstore_eqb b hba)) (rts_backstores w))
  /\ log (after_delete k name child w) =
     log w ++ [(Info, ("Deleted storage object " ++ name ++ ".")%string)].
Proof.
  intros hba remaining. unfold after_delete. cbv zeta. fold hba.
  set (w1 := snd (StorageObject_delete (rtsnode child) w)).
  assert (Hw1 : rts_storage_objects w1 = remaining) by reflexivity.
  unfold hba_storage_objects. rewrite Hw1.
  destruct (existsb (fun s => Backstore_eqb (so_backstore s) hba) remaining) eqn:E.
  - destruct (filter (fun so => Backstore_eqb (so_backstore so) hba) remaining)
      as [| s rest] eqn:F.
    + apply filter_nil_existsb in F. congruence.
    + repeat split.
  - apply filter_nil_existsb in E. rewrite E.
    split; [| split; reflexivity].
    change (filter (fun so => negb (Backstore_eqb (so_backstore so) hba))
                   (rts_storage_objects w1) = remaining).
    rewrite Hw1. apply filter_negb_all. exact E.
Qed.

(** C10. Deleting under a name that no child carries changes nothing: the
    storage objects, the backstores, the children of every node and the
    filesystem are what they were (only the shell log grows). *)
Theorem ui_command_delete_unknown_name_changes_nothing
        (k : Plugin) (name : string) (w : World) :
  ~ In name (map ui_name (children w k)) ->
  rts_storage_objects (snd (ui_command_delete k name w)) = rts_storage_objects w
  /\ rts_backstores (snd (ui_command_delete k name w)) = rts_backstores w
  /\ children (snd (ui_command_delete k name w)) = children w
  /\ fs (snd (ui_command_delete k name w)) = fs w.
Proof.
  intros H. rewrite (ui_command_delete_unknown k name w H).
  repeat split.
Qed.

Lemma ui_command_delete_unknown_name_changes_nothing_witness :
  ~ In "ghost" (map ui_name (children shared_world rd_dr))
  /\ rts_storage_objects (snd (ui_command_delete rd_dr "ghost" shared_world))
     = [ramdisk "a" 0; ramdisk "b" 0; ramdisk "c" 1]
  /\ rts_backstores (snd (ui_command_delete rd_dr "ghost" shared_world))
     = [mkBackstore rd_dr 0; mkBackstore rd_dr 1]
  /\ children (snd (ui_command_delete rd_dr "ghost" shared_world))
     = children shared_world.
Proof.
  assert (H : ~ In "ghost" (map ui_name (children shared_world rd_dr))).
  { simpl. intros [E | [E | [E | []]]]; discriminate E. }
  destruct (ui_command_delete_unknown_name_changes_nothing rd_dr "ghost"
              shared_world H) as (H1 & H2 & H3 & _).
  split; [exact H |]. split; [exact H1 |]. split; [exact H2 | exact H3].
Defined.




(** Deleting the only storage object of a backstore removes both, deleting
    one of two that share a backstore leaves the backstore. *)
Example ui_command_delete_last_and_shared :
  rts_backstores (snd (ui_command_delete rd_dr "c" shared_world))
    = [mkBackstore rd_dr 0]
  /\ rts_storage_objects (snd (ui_command_delete rd_dr "c" shared_world))
    = [ramdisk "a" 0; ramdisk "b" 0]
  /\ rts_backstores (snd (ui_command_delete rd_dr "a" shared_world))
    = [mkBackstore rd_dr 0; mkBackstore rd_dr 1]
  /\ rts_storage_objects (snd (ui_command_delete rd_dr "a" shared_world))
    = [ramdisk "b" 0; ramdisk "c" 1].
Proof. vm_compute. repeat split. Qed.

(** ** The create commands *)

(** *** Rollback in the pscsi, rd_dr, rd_mcp and iblock commands *)

Lemma filter_out_appended (b : Backstore) (l : list Backstore) :
  existsb (Backstore_eqb b) l = false ->
  filter (fun x => negb (Backstore_eqb x b)) (l ++ [b]) = l.
Proof.
  intros H. rewrite filter_app. cbn [filter].
  rewrite Backstore_eqb_refl. cbn [negb]. rewrite app_nil_r.
  induction l as [| x l IH]; [reflexivity |].
  cbn [existsb] in H. apply orb_false_iff in H. destruct H as [Hx Hl].
  cbn [filter].
  assert (Hxb : Backstore_eqb x b = false).
  { destruct (Backstore_eqb x b) eqn:E; [| reflexivity].
    apply Backstore_eqb_eq in E. subst x. now rewrite Backstore_eqb_refl in Hx. }
  rewrite Hxb. cbn [negb]. now rewrite IH.
Qed.

Lemma next_hba_index_preserves_backstores (k : Plugin) :
  preserves rts_backstores (next_hba_index k).
Proof. frame. Qed.

Lemma assert_available_so_name_snd (k : Plugin) (name : string) (w : World) :
  snd (assert_available_so_name k name w) = w.
Proof.
  unfold assert_available_so_name, bind, get. cbv beta iota.
  destruct (existsb _ _); reflexivity.
Qed.

(** The four commands share one shape: name check, index, backstore, an
    optional note ([pre]), the guarded construction of the storage object
    ([body]) and the wrapping of the result in a node.  Whenever a command
    of this shape raises, the backstores are what they were before the
    call: the node constructor cannot refuse the name, which the name check
    has found free. *)
Section Rollback.
Variables (k : Plugin) (name : string).
Variable pre : M unit.
Variable body : Backstore -> M StorageObject.
Variable msg : string.
Hypothesis pre_frame : preserves rts_backstores pre.
Hypothesis pre_children : preserves children pre.
Hypothesis pre_total : forall w, fst (pre w) = inr tt.
Hypothesis body_frame : forall b, preserves rts_backstores (body b).
Hypothesis body_children : forall b, preserves children (body b).
Hypothesis body_name :
  forall b w so, fst (body b w) = inr so -> so_name so = name.

Lemma create_protocol_rolls_back (w w' : World) (e : exn) :
  (assert_root ;;
   assert_available_so_name k name ;;
   i <- next_hba_index k ;;
   backstore <- Backstore_create k i ;;
   pre ;;
   so <- try_except (body backstore)
           (fun exception => Backstore_delete backstore ;; raise exception) ;;
   ui_so <- UIStorageObject_init so k ;;
   shell_log Info msg ;;
   new_node ui_so) w = (inl e, w') ->
  rts_backstores w' = rts_backstores w.
Proof.
  unfold assert_root. unfold bind at 1, ret at 1. cbv beta iota.
  unfold bind at 1.
  pose proof (assert_available_so_name_snd k name w) as H1.
  assert (Hfree : fst (assert_available_so_name k name w) = inr tt ->
                  ~ In name (map ui_name (children w k))).
  { unfold assert_available_so_name, bind, get. cbv beta iota.
    destruct (existsb _ _) eqn:Ex; [discriminate |].
    intros _ Hin. apply existsb_String_eqb_In in Hin. congruence. }
  destruct (assert_available_so_name k name w) as [[e1 | []] w1];
    cbn [fst snd] in H1, Hfree; subst w1;
    [intros H; injection H as _ <-; reflexivity |].
  specialize (Hfree eq_refl).
  unfold bind at 1.
  pose proof (next_hba_index_preserves_backstores k w) as H2.
  assert (C2 : children (snd (next_hba_index k w)) = children w).
  { assert (P : preserves children (next_hba_index k)) by frame. apply P. }
  destruct (next_hba_index k w) as [[e2 | i] w2]; cbn [snd] in H2, C2;
    [intros H; injection H as _ <-; exact H2 |].
  unfold bind at 1, Backstore_create at 1, bind at 1, get at 1.
  cbv beta iota zeta.
  destruct (existsb (Backstore_eqb (mkBackstore k i)) (rts_backstores w2))
    eqn:Efresh.
  - unfold raise at 1. intros H; injection H as _ <-; exact H2.
  - unfold bind at 1, modify at 1, ret at 1. cbv beta iota.
    set (b := mkBackstore k i) in *.
    set (w3 := with_backstores (rts_backstores w2 ++ [b]) w2).
    unfold bind at 1.
    pose proof (pre_frame w3) as H4. pose proof (pre_total w3) as T4.
    pose proof (pre_children w3) as C4.
    destruct (pre w3) as [[e4 | []] w4]; cbn [fst snd] in H4, T4, C4;
      [discriminate T4 |].
    unfold bind at 1, try_except at 1.
    pose proof (body_frame b w4) as H5.
    pose proof (body_children b w4) as C5.
    pose proof (body_name b w4) as N5.
    destruct (body b w4) as [[ex | so] w5]; cbn [fst snd] in H5, C5, N5.
    + (* the storage object was refused: the backstore goes again *)
      unfold bind at 1, Backstore_delete at 1, modify at 1, raise at 1.
      cbv beta iota. intros H; injection H as _ <-.
      cbn [rts_backstores with_backstores with_storage_objects].
      rewrite H5, H4. subst w3. cbn [rts_backstores with_backstores].
      rewrite filter_out_appended by exact Efresh. exact H2.
    + (* the storage object exists: nothing can raise any more *)
      unfold bind at 1. rewrite UIStorageObject_init_free.
      * unfold bind, shell_log, modify, new_node, ret. cbv beta iota.
        intros H. discriminate H.
      * rewrite (N5 so eq_refl), C5, C4. subst w3.
        cbn [children with_backstores]. now rewrite C2.
Qed.
End Rollback.

Ltac body_name :=
  intros ? ? ?;
  unfold prm_gen_wwn, StorageObject_create, shell_log, bind, get, modify,
    ret, raise;
  cbv beta iota zeta;
  repeat match goal with
    | |- context [if ?c then _ else _] => destruct c; cbv beta iota
    | |- context [match so_rejected ?d ?so with _ => _ end] =>
        destruct (so_rejected d so); cbv beta iota
    end;
  cbn [fst]; intros E; first [discriminate E | now injection E as <-].

Lemma pscsi_create_rolls_back (name dev : string) (w w' : World) (e : exn) :
  UIPSCSIBackstore.ui_command_create name dev w = (inl e, w') ->
  rts_backstores w' = rts_backstores w.
Proof.
  apply (create_protocol_rolls_back pscsi name
           (w0 <- get ;;
            if negb (is_None (get_block_type dev w0)) || is_disk_partition dev w0
            then shell_log Info "Note: block backstore recommended for SCSI block devices"
            else ret tt)
           (fun backstore =>
              StorageObject_create
                (mkStorageObject name backstore (Some dev) None None None))
           ("Created pscsi storage object " ++ name ++ " using " ++ dev)%string).
  - frame.
  - frame.
  - intros w0. unfold bind, get. cbv beta iota. destruct (_ || _); reflexivity.
  - intros b. frame.
  - intros b. frame.
  - body_name.
Qed.

Lemma rd_dr_create_rolls_back (name size : string) (generate_wwn : option bool)
      (w w' : World) (e : exn) :
  UIRDDRBackstore.ui_command_create name size generate_wwn w = (inl e, w') ->
  rts_backstores w' = rts_backstores w.
Proof.
  apply (create_protocol_rolls_back rd_dr name (ret tt)
           (fun backstore =>
              gen_wwn <- prm_gen_wwn generate_wwn ;;
              StorageObject_create
                (mkStorageObject name backstore None (Some size)
                                 (Some gen_wwn) None))
           ("Created rd_dr ramdisk " ++ name ++ " with size "
            ++ size ++ ".")%string).
  - frame.
  - frame.
  - reflexivity.
  - intros b. frame.
  - intros b. frame.
  - body_name.
Qed.

Lemma rd_mcp_create_rolls_back (name size : string) (generate_wwn : option bool)
      (w w' : World) (e : exn) :
  UIRDMCPBackstore.ui_command_create name size generate_wwn w = (inl e, w') ->
  rts_backstores w' = rts_backstores w.
Proof.
  apply (create_protocol_rolls_back rd_mcp name (ret tt)
           (fun backstore =>
              gen_wwn <- prm_gen_wwn generate_wwn ;;
              StorageObject_create
                (mkStorageObject name backstore None (Some size)
                                 (Some gen_wwn) None))
           ("Created rd_mcp ramdisk " ++ name ++ " with size "
            ++ size ++ ".")%string).
  - frame.
  - frame.
  - reflexivity.
  - intros b. frame.
  - intros b. frame.
  - body_name.
Qed.

Lemma iblock_create_rolls_back (name dev : string) (generate_wwn : option bool)
      (w w' : World) (e : exn) :
  UIIBlockBackstore.ui_command_create name dev generate_wwn w = (inl e, w') ->
  rts_backstores w' = rts_backstores w.
Proof.
  apply (create_protocol_rolls_back iblock name (ret tt)
           (fun backstore =>
              gen_wwn <- prm_gen_wwn generate_wwn ;;
              StorageObject_create
                (mkStorageObject name backstore (Some dev) None
                                 (Some gen_wwn) None))
           ("Created iblock storage object " ++ name
            ++ " using " ++ dev ++ ".")%string).
  - frame.
  - frame.
  - reflexivity.
  - intros b. frame.
  - intros b. frame.
  - body_name.
Qed.

(** *** The file helper of the fileio node *)

Import UIFileIOBackstore.

Lemma write_loop_unfold (filename : string) (size : Z) :
  write_loop filename size =
  if Z_lt_dec 0 size
  then (f_write filename (repeat Byte.x00 (Z.to_nat (Z.min size 1024))) ;;
        write_loop filename (size - Z.min size 1024))
  else ret tt.
Proof.
  rewrite write_loop_equation_1.
  destruct (Z_lt_dec 0 size); reflexivity.
Qed.

Lemma fs_set_file_same (filename : string) (node : option FNode) (w : World) :
  fs (set_file filename node w) filename = node.
Proof.
  unfold set_file. cbn [fs with_fs]. now rewrite String.eqb_refl.
Qed.

Lemma open_w_run (filename : string) (w : World) :
  new_or_regular filename w ->
  io_error (driver w) (Open filename) = None ->
  open_w filename w = (inr tt, set_file filename (Some (RegularFile [])) w).
Proof.
  intros Hnode Hopen. unfold open_w, bind, get. cbv beta iota.
  rewrite Hopen.
  destruct Hnode as [-> | [d ->]]; reflexivity.
Qed.

Lemma f_write_run (filename : string) (old data : list Byte.byte) (w : World) :
  fs w filename = Some (RegularFile old) ->
  io_error (driver w) (Write filename (Z.of_nat (List.length old))) = None ->
  f_write filename data w =
  (inr tt, set_file filename (Some (RegularFile (old ++ data))) w).
Proof.
  intros Hfs Hok. unfold f_write, file_length, bind, get. cbv beta iota.
  rewrite Hfs, Hok. reflexivity.
Qed.

Lemma f_write_fails (filename : string) (old data : list Byte.byte)
      (msg : string) (w : World) :
  fs w filename = Some (RegularFile old) ->
  io_error (driver w) (Write filename (Z.of_nat (List.length old))) = Some msg ->
  f_write filename data w = (inl (IOError msg), w).
Proof.
  intros Hfs Hno. unfold f_write, file_length, bind, get. cbv beta iota.
  rewrite Hfs, Hno. reflexivity.
Qed.

Lemma f_close_run (filename : string) (data : list Byte.byte) (w : World) :
  fs w filename = Some (RegularFile data) ->
  f_close filename w =
  match io_error (driver w) (Close filename (Z.of_nat (List.length data))) with
  | Some msg => (inl (IOError msg), w)
  | None => (inr tt, w)
  end.
Proof.
  intros Hfs. unfold f_close, file_length, bind, get. cbv beta iota.
  rewrite Hfs. destruct (io_error _ _); reflexivity.
Qed.

(** The loop appends exactly [size] zero bytes when no write fails. *)
Lemma write_loop_appends (filename : string) (n : nat) :
  forall (size : Z) (w : World) (old : list Byte.byte),
    (Z.to_nat size <= n)%nat ->
    fs w filename = Some (RegularFile old) ->
    (forall len, io_error (driver w) (Write filename len) = None) ->
    fst (write_loop filename size w) = inr tt
    /\ fs (snd (write_loop filename size w)) filename =
       Some (RegularFile (old ++ repeat Byte.x00 (Z.to_nat size)))
    /\ driver (snd (write_loop filename size w)) = driver w.
Proof.
  induction n as [| n IH]; intros size w old Hn Hfs Hok;
    rewrite write_loop_unfold; destruct (Z_lt_dec 0 size) as [Hpos | Hneg].
  - lia.
  - replace (Z.to_nat size) with 0%nat by lia.
    simpl. now rewrite app_nil_r.
  - remember (Z.min size 1024) as write_size eqn:Ews.
    assert (Hws : 0 < write_size <= size) by lia.
    clear Ews.
    rewrite (bind_run _ _ _ _ _ (f_write_run filename old _ w Hfs (Hok _))).
    set (w1 := set_file filename _ w).
    destruct (IH (size - write_size) w1
                 (old ++ repeat Byte.x00 (Z.to_nat write_size)))
      as (H1 & H2 & H3).
    + lia.
    + apply fs_set_file_same.
    + exact Hok.
    + split; [exact H1 |]. split; [| exact H3].
      rewrite H2, <- app_assoc, <- repeat_app.
      replace (Z.to_nat write_size + Z.to_nat (size - write_size))%nat
        with (Z.to_nat size) by lia.
      reflexivity.
  - replace (Z.to_nat size) with 0%nat by lia.
    simpl. now rewrite app_nil_r.
Qed.

Lemma os_ftruncate_run (filename : string) (size : Z) (d : list Byte.byte)
      (w : World) :
  0 <= size < 2 ^ 63 ->
  fs w filename = Some (RegularFile d) ->
  io_error (driver w) (Ftruncate filename size) = None ->
  os_ftruncate filename size w =
  (inr tt,
   set_file filename
     (Some (RegularFile (firstn (Z.to_nat size) d
                         ++ repeat Byte.x00 (Z.to_nat size - List.length d)))) w).
Proof.
  intros Hsize Hfs Hok. unfold os_ftruncate.
  destruct (Z.ltb_spec size (- 2 ^ 63)) as [H | _]; [lia |].
  destruct (Z.leb_spec (2 ^ 63) size) as [H | _]; [lia |].
  destruct (Z.ltb_spec size 0) as [H | _]; [lia |].
  cbn [orb]. unfold bind, get. cbv beta iota. rewrite Hok, Hfs. reflexivity.
Qed.

(** [_create_file] as a unit, when the operating system carries out every
    call: a file of exactly [size] zero bytes, whether truncated (sparse)
    or written out in chunks of at most 1024 bytes. *)
Lemma create_file_exact_size (filename : string) (size : Z) (sparse : bool)
      (w : World) :
  new_or_regular filename w ->
  0 <= size ->
  (sparse = true -> size < 2 ^ 63) ->
  quiet w ->
  exists w',
    _create_file filename size sparse w = (inr tt, w')
    /\ fs w' filename = Some (RegularFile (repeat Byte.x00 (Z.to_nat size))).
Proof.
  intros Hnode Hsize Hfit Hq. unfold _create_file.
  rewrite (bind_run _ _ _ _ _ (open_w_run filename w Hnode (Hq _))).
  set (w0 := set_file filename (Some (RegularFile [])) w).
  assert (Hfs0 : fs w0 filename = Some (RegularFile []))
    by apply fs_set_file_same.
  assert (Hq0 : quiet w0) by exact Hq.
  destruct sparse.
  - assert (Hrun : try_except_IOError (os_ftruncate filename size)
                     (f_close filename ;; os_remove filename ;;
                      raise (ExecutionError "Could not expand file to size")) w0
                   = (inr tt,
                      set_file filename
                        (Some (RegularFile (repeat Byte.x00 (Z.to_nat size)))) w0)).
    { unfold try_except_IOError.
      rewrite (os_ftruncate_run filename size [] w0) by (auto; lia).
      rewrite firstn_nil, Nat.sub_0_r. reflexivity. }
    rewrite (bind_run _ _ _ _ _ Hrun).
    set (w1 := set_file filename _ w0).
    rewrite (f_close_run filename _ w1 (fs_set_file_same _ _ _)).
    change (driver w1) with (driver w). rewrite Hq.
    exists w1. split; [reflexivity | apply fs_set_file_same].
  - set (w1 := with_log (log w0 ++ [(Info, ("Writing " ++ fmt_d size
                                             ++ " bytes")%string)]) w0).
    destruct (write_loop_appends filename (Z.to_nat size) size w1 [])
      as (H1 & H2 & H3).
    + lia.
    + apply fs_set_file_same.
    + intros len. apply Hq.
    + cbn [app] in H2.
      assert (Hrun : try_except_IOError
                       (shell_log Info ("Writing " ++ fmt_d size ++ " bytes")%string ;;
                        write_loop filename size)
                       (f_close filename ;; os_remove filename ;;
                        raise (ExecutionError "Could not expand file to size")) w0
                     = (inr tt, snd (write_loop filename size w1))).
      { unfold try_except_IOError.
        rewrite (bind_run (shell_log _ _) _ w0 w1 tt eq_refl).
        destruct (write_loop filename size w1) as [[e | []] w2];
          cbn [fst snd] in *; [discriminate H1 | reflexivity]. }
      rewrite (bind_run _ _ _ _ _ Hrun).
      rewrite (f_close_run filename _ _ H2), H3.
      change (driver w1) with (driver w). rewrite Hq.
      eexists. split; [reflexivity | exact H2].
Qed.


(** *** What the fileio command leaves behind *)

(** The fileio command never writes to the filesystem: the only call of
    [_create_file] sits in a branch that is entered with a size only for a
    block device or partition, and is then cut short because the path
    exists. *)
Lemma fileio_create_preserves_fs (name file_or_dev : string) (size : option string)
      (generate_wwn buffered sparse : option bool) :
  preserves fs
    (ui_command_create name file_or_dev size generate_wwn buffered sparse).
Proof.
  unfold ui_command_create. cbv zeta.
  do 5 (apply preserves_bind; [frame | intro]).
  apply preserves_bind; [frame | intros w0].
  unfold get_block_type, is_disk_partition, os_path_isfile, os_path_exists,
    os_path_getsize, truthy.
  destruct (fs w0 file_or_dev) as [[d | | |] |]; destruct size as [s |];
    cbn [is_None negb andb orb]; frame.
Qed.

Lemma filter_filter_nil {A} (p q : A -> bool) (l : list A) :
  filter p l = [] -> filter p (filter q l) = [].
Proof.
  induction l as [| x l IH]; cbn [filter]; [reflexivity |].
  destruct (p x) eqn:Ep; [discriminate |]. intros H.
  destruct (q x); cbn [filter]; [rewrite Ep |]; now apply IH.
Qed.

Lemma in_backstore_indexes (b : Backstore) (w : World) :
  In b (rts_backstores w) -> In (bs_index b) (backstore_indexes (bs_plugin b) w).
Proof.
  intros H. unfold backstore_indexes. apply in_map. apply filter_In.
  split; [assumption | apply Plugin_eqb_refl].
Qed.

Lemma Backstore_create_fresh (k : Plugin) (i : Z) (w : World) :
  ~ In i (backstore_indexes k w) ->
  Backstore_create k i w =
  (inr (mkBackstore k i),
   with_backstores (rts_backstores w ++ [mkBackstore k i]) w).
Proof.
  intros Hfree. unfold Backstore_create, bind, get, modify, ret.
  cbv beta iota zeta.
  destruct (existsb (Backstore_eqb (mkBackstore k i)) (rts_backstores w)) eqn:E;
    [| reflexivity].
  exfalso. apply Hfree. apply existsb_exists in E. destruct E as [b [Hb Eb]].
  apply Backstore_eqb_eq in Eb. subst b.
  exact (in_backstore_indexes (mkBackstore k i) w Hb).
Qed.

Lemma next_hba_index_avoids (b : Backstore) :
  keeps (orphaned b) (next_hba_index (bs_plugin b)) (fun j => j <> bs_index b).
Proof.
  intros w Hw. split.
  - apply (orphaned_frame b (next_hba_index (bs_plugin b))); [frame | frame | exact Hw].
  - intros j Hj. rewrite next_hba_index_result in Hj.
    destruct (for_index_in_range _ _ _ _) as [| | j'] eqn:E; try discriminate Hj.
    injection Hj as ->. apply for_index_in_range_PyVal in E.
    destruct E as (_ & Hfree & _). intros ->. apply Hfree.
    apply in_backstore_indexes. apply Hw.
Qed.

Lemma Backstore_create_keeps (b : Backstore) (k : Plugin) (j : Z) :
  keeps (orphaned b) (Backstore_create k j) (fun b' => b' = mkBackstore k j).
Proof.
  intros w [Hin Hno]. unfold Backstore_create, bind, get, modify, ret, raise.
  cbv beta iota zeta. destruct (existsb _ _); cbn [fst snd].
  - split; [split; assumption | discriminate].
  - split; [| intros a E; now injection E as <-].
    split; [cbn [rts_backstores with_backstores]; apply in_or_app; now left
           | exact Hno].
Qed.

Lemma StorageObject_create_keeps (b : Backstore) (so : StorageObject) :
  so_backstore so <> b ->
  keeps (orphaned b) (StorageObject_create so) (fun _ => True).
Proof.
  intros Hne w [Hin Hno]. unfold StorageObject_create, bind, get, modify, ret, raise.
  cbv beta iota. destruct (so_rejected (driver w) so); cbn [fst snd].
  - split; [split; assumption | trivial].
  - split; [| trivial]. split; [exact Hin |].
    unfold hba_storage_objects in *.
    cbn [rts_storage_objects with_storage_objects].
    rewrite filter_app, Hno. cbn [filter app].
    destruct (Backstore_eqb (so_backstore so) b) eqn:E; [| reflexivity].
    apply Backstore_eqb_eq in E. contradiction.
Qed.

Lemma Backstore_delete_keeps (b b' : Backstore) :
  b' <> b -> keeps (orphaned b) (Backstore_delete b') (fun _ => True).
Proof.
  intros Hne w [Hin Hno]. unfold Backstore_delete, modify. cbn [fst snd].
  split; [| trivial]. split.
  - cbn [rts_backstores with_backstores]. apply filter_In. split; [exact Hin |].
    apply negb_true_iff. destruct (Backstore_eqb b b') eqn:E; [| reflexivity].
    apply Backstore_eqb_eq in E. congruence.
  - unfold hba_storage_objects in *.
    cbn [rts_storage_objects with_backstores with_storage_objects].
    now apply filter_filter_nil.
Qed.

Ltac framed := apply orphaned_frame; frame.

(** [keep] walks through a command of the fileio node and shows that it
    keeps [orphaned b]: a later allocation avoids the index of [b], so the
    backstore and the storage object made afterwards are not [b]'s. *)
Ltac keep :=
  repeat match goal with
    | |- keeps (orphaned ?b) (bind (next_hba_index _) _) _ =>
        eapply keeps_bind;
        [exact (next_hba_index_avoids b)
        | let j := fresh "j" in
          let Hj := fresh "Hj" in
          intros j Hj; cbv beta in Hj; cbn [bs_index] in Hj]
    | |- keeps _ (bind (Backstore_create _ _) _) _ =>
        eapply keeps_bind; [apply Backstore_create_keeps | intros ? ->]
    | |- keeps _ (bind _ _) _ =>
        eapply keeps_bind with (R := fun _ => True); [| intros ? _]
    | |- keeps _ (try_except _ _) _ => apply keeps_try_except; [| intro]
    | |- keeps _ (StorageObject_create _) _ =>
        apply StorageObject_create_keeps; cbn [so_backstore];
        let E := fresh in intros E; injection E; congruence
    | |- keeps _ (Backstore_delete _) _ =>
        apply Backstore_delete_keeps;
        let E := fresh in intros E; injection E; congruence
    | |- keeps _ (raise _) _ => apply keeps_raise
    | |- keeps _ (if ?c then _ else _) _ => destruct c
    | |- keeps _ _ (fun _ => True) => framed
    end.

(** Whenever the fileio command gets past the name check and the first
    index allocation, the backstore it creates first is still there when
    the command returns, normally or not, and carries no storage object. *)
Lemma fileio_create_orphans_first_backstore
      (name file_or_dev : string) (size : option string)
      (generate_wwn buffered sparse : option bool) (w : World) (i : Z) :
  fst (assert_available_so_name fileio name w) = inr tt ->
  fst (next_hba_index fileio w) = inr i ->
  hba_storage_objects (mkBackstore fileio i) w = [] ->
  orphaned (mkBackstore fileio i)
    (snd (ui_command_create name file_or_dev size generate_wwn buffered sparse w)).
Proof.
  intros Ha Hi Hno. unfold ui_command_create. cbv zeta.
  rewrite (bind_succeeds assert_root _ w tt eq_refl).
  change (snd (assert_root w)) with w.
  rewrite (bind_succeeds _ _ w tt Ha), assert_available_so_name_snd.
  rewrite (bind_succeeds (shell_log _ _) _ w tt eq_refl).
  set (w2 := snd (shell_log _ _ w)).
  assert (Hi2 : fst (next_hba_index fileio w2) = inr i).
  { rewrite next_hba_index_result in *. exact Hi. }
  rewrite (bind_succeeds _ _ w2 i Hi2).
  set (w3 := snd (next_hba_index fileio w2)).
  assert (Hb3 : rts_backstores w3 = rts_backstores w).
  { unfold w3. now rewrite (next_hba_index_preserves_backstores fileio w2). }
  assert (Hs3 : rts_storage_objects w3 = rts_storage_objects w).
  { unfold w3. assert (P : preserves rts_storage_objects (next_hba_index fileio))
      by frame. now rewrite P. }
  assert (Hfree : ~ In i (backstore_indexes fileio w3)).
  { unfold backstore_indexes. rewrite Hb3. fold (backstore_indexes fileio w).
    rewrite next_hba_index_result in Hi.
    destruct (for_index_in_range _ _ _ _) as [| | j] eqn:E; try discriminate Hi.
    injection Hi as ->. apply for_index_in_range_PyVal in E.
    destruct E as (_ & Hfree & _). exact Hfree. }
  unfold bind at 1. rewrite (Backstore_create_fresh fileio i w3 Hfree).
  cbv beta iota.
  set (w4 := with_backstores _ w3).
  assert (H4 : orphaned (mkBackstore fileio i) w4).
  { split.
    - unfold w4. cbn [rts_backstores with_backstores].
      apply in_or_app. right. left. reflexivity.
    - unfold hba_storage_objects in *.
      change (rts_storage_objects w4) with (rts_storage_objects w3).
      now rewrite Hs3. }
  match goal with
  | |- orphaned _ (snd (?m w4)) =>
      enough (K : keeps (orphaned (mkBackstore fileio i)) m (fun _ => True))
        by exact (proj1 (K w4 H4))
  end.
  eapply keeps_bind with (R := fun _ => True); [framed | intros w0 _].
  unfold get_block_type, is_disk_partition, os_path_isfile, os_path_exists,
    os_path_getsize, truthy.
  destruct (fs w0 file_or_dev) as [[d | | |] |]; destruct size as [s |];
    cbn [is_None negb andb orb]; keep.
Qed.

(** C1. In the fileio command the backstore made before the branches is
    never used and never deleted.  When rtslib then refuses the storage
    object, the second backstore (index 1) is rolled back and the error
    propagates, but the first one (index 0) stays behind without any storage
    object.  The pscsi, rd_dr, rd_mcp and iblock commands, given the same
    refusal, leave no backstore (and never do, see the rollback lemmas
    above). *)
Theorem fileio_create_failure_leaves_orphan_backstore :
  (let r := ui_command_create "disk0" "/tmp/disk0.img" (Some "1M")
              None None None (empty_world refusing) in
   fst r = inl (RTSLibError "Device already in use")
   /\ rts_backstores (snd r) = [mkBackstore fileio 0]
   /\ rts_storage_objects (snd r) = []
   /\ orphaned (mkBackstore fileio 0) (snd r))
  /\ rts_backstores
       (snd (UIPSCSIBackstore.ui_command_create "disk0" "/dev/sg1"
               (empty_world refusing))) = []
  /\ rts_backstores
       (snd (UIRDDRBackstore.ui_command_create "disk0" "1M" None
               (empty_world refusing))) = []
  /\ rts_backstores
       (snd (UIRDMCPBackstore.ui_command_create "disk0" "1M" None
               (empty_world refusing))) = []
  /\ rts_backstores
       (snd (UIIBlockBackstore.ui_command_create "disk0" "/dev/sdb" None
               (empty_world refusing))) = [].
Proof.
  split; [cbv zeta | vm_compute; repeat split].
  split; [vm_compute; reflexivity |].
  split; [vm_compute; reflexivity |].
  split; [vm_compute; reflexivity |].
  split; [vm_compute; left; reflexivity | vm_compute; reflexivity].
Qed.

(** C2. After the fileio command returns, a live fileio backstore without
    any storage object is observable.  A successful creation adds two
    backstores, of which only the second carries the new storage object; a
    creation that fails for want of a size has consumed index 0 for a
    backstore that carries nothing. *)
Theorem fileio_create_leaves_empty_backstore :
  (let r := ui_command_create "disk0" "/tmp/disk0.img" (Some "1M")
              None None None (empty_world accepting) in
   (exists node, fst r = inr (Some node))
   /\ rts_backstores (snd r) = [mkBackstore fileio 0; mkBackstore fileio 1]
   /\ map so_backstore (rts_storage_objects (snd r)) = [mkBackstore fileio 1]
   /\ orphaned (mkBackstore fileio 0) (snd r))
  /\ (let r := ui_command_create "disk0" "/tmp/disk0.img" None
                 None None None (empty_world accepting) in
      fst r = inl (ExecutionError
                     "Attempting to create file for new fileio backstore, need a size")
      /\ rts_backstores (snd r) = [mkBackstore fileio 0]
      /\ rts_storage_objects (snd r) = []
      /\ orphaned (mkBackstore fileio 0) (snd r)).
Proof.
  split; cbv zeta.
  - split; [eexists; vm_compute; reflexivity |].
    split; [vm_compute; reflexivity |].
    split; [vm_compute; reflexivity |].
    split; [vm_compute; left; reflexivity | vm_compute; reflexivity].
  - split; [vm_compute; reflexivity |].
    split; [vm_compute; reflexivity |].
    split; [vm_compute; reflexivity |].
    split; [vm_compute; left; reflexivity | vm_compute; reflexivity].
Qed.

(** The ramdisk scenario: rd0 gets index 0, rd1 index 1; deleting rd0 frees
    index 0, which rd2 then reuses. *)
Example ramdisk_scenario_reuses_index :
  let w := snd ((UIRDDRBackstore.ui_command_create "rd0" "100M" None ;;
                 UIRDDRBackstore.ui_command_create "rd1" "1G" None ;;
                 ui_command_delete rd_dr "rd0" ;;
                 UIRDDRBackstore.ui_command_create "rd2" "1G" None)
                  (empty_world accepting)) in
  map (fun so => (so_name so, bs_index (so_backstore so))) (rts_storage_objects w)
  = [("rd1", 1); ("rd2", 0)]
  /\ rts_backstores w = [mkBackstore rd_dr 1; mkBackstore rd_dr 0].
Proof. vm_compute. split; reflexivity. Qed.

(** C3. On a path that does not exist, the fileio command without a size
    raises the size-required error.  With a size it never reaches
    [_create_file]: the raw size goes to rtslib with the path, [sparse] is
    read and dropped, and the command itself produces no file, neither
    truncated nor zero-filled; indeed no call of the command ever changes
    the filesystem. *)
Theorem fileio_create_new_file_skips_create_file :
  fst (ui_command_create "disk0" "/tmp/new.img" None None None None
         (empty_world accepting))
    = inl (ExecutionError
             "Attempting to create file for new fileio backstore, need a size")
  /\ (forall sparse : option bool,
        let r := ui_command_create "disk0" "/tmp/new.img" (Some "2048")
                   None None sparse (empty_world accepting) in
        fst r = inr (Some (mkUIStorageObject "disk0"
                             (mkStorageObject "disk0" (mkBackstore fileio 1)
                                (Some "/tmp/new.img") (Some "2048")
                                (Some true) (Some true))))
        /\ fs (snd r) "/tmp/new.img" = None)
  /\ (forall name file_or_dev size generate_wwn buffered sparse w,
        fs (snd (ui_command_create name file_or_dev size generate_wwn
                   buffered sparse w)) = fs w).
Proof.
  split; [vm_compute; reflexivity |]. split.
  - intros [[|] |]; vm_compute; split; reflexivity.
  - intros. apply fileio_create_preserves_fs.
Qed.

(** C9. On a path that is an existing regular file (here 4096 bytes long),
    the fileio command without a size reads the size of the file and then
    ends: it returns [None], no storage object and no child exist
    afterwards, and the backstore made at the start is left over.  With a
    size, the given size goes to rtslib in place of the size of the file, and
    the note that the file's size is used instead is not logged. *)
Theorem fileio_create_existing_file_makes_nothing :
  (let r := ui_command_create "disk0" "/tmp/disk.img" None None None None
              (file_world accepting) in
   os_path_isfile "/tmp/disk.img" (file_world accepting) = true
   /\ fst r = inr None
   /\ rts_storage_objects (snd r) = []
   /\ children (snd r) fileio = []
   /\ rts_backstores (snd r) = [mkBackstore fileio 0])
  /\ (let r := ui_command_create "disk0" "/tmp/disk.img" (Some "1M") None None
                 None (file_world accepting) in
      os_path_getsize "/tmp/disk.img" (file_world accepting) = 4096
      /\ map so_size (rts_storage_objects (snd r)) = [Some "1M"]
      /\ ~ In (Info, "/tmp/disk.img exists, using its size (4096 bytes) instead")
              (log (snd r))).
Proof.
  split.
  - vm_compute. repeat split.
  - cbv zeta. split; [reflexivity |]. split; [vm_compute; reflexivity |].
    vm_compute. intros H.
    repeat (destruct H as [H | H]; [discriminate H |]). exact H.
Qed.

(** * Further properties *)

(** ** Running a command step by step *)

Lemma same_but_log_refl (w : World) : same_but_log w w.
Proof. repeat split. Qed.

Lemma same_but_log_trans (w1 w2 w3 : World) :
  same_but_log w1 w2 -> same_but_log w2 w3 -> same_but_log w1 w3.
Proof.
  intros (A1 & A2 & A3 & A4 & A5) (B1 & B2 & B3 & B4 & B5).
  repeat split; congruence.
Qed.

Lemma log_only_intro {A} (m : M A) :
  preserves rts_backstores m -> preserves rts_storage_objects m ->
  preserves children m -> preserves fs m -> preserves driver m ->
  log_only m.
Proof. intros H1 H2 H3 H4 H5 w. repeat split; auto. Qed.

Ltac log_only := apply log_only_intro; frame.

Lemma next_hba_index_log_only (k : Plugin) : log_only (next_hba_index k).
Proof. log_only. Qed.

Lemma prm_gen_wwn_log_only (g : option bool) : log_only (prm_gen_wwn g).
Proof. log_only. Qed.

Lemma prm_gen_wwn_value (g : option bool) (w : World) :
  fst (prm_gen_wwn g w) = inr (ui_eval_param_bool g true).
Proof.
  unfold prm_gen_wwn, bind. cbv zeta.
  destruct (ui_eval_param_bool g true); reflexivity.
Qed.

Lemma StorageObject_create_run (so : StorageObject) (w : World) :
  StorageObject_create so w =
  match so_rejected (driver w) so with
  | Some e => (inl e, w)
  | None => (inr so, with_storage_objects (rts_storage_objects w ++ [so]) w)
  end.
Proof.
  unfold StorageObject_create, bind, get. cbv beta iota.
  destruct (so_rejected (driver w) so); reflexivity.
Qed.

(** The index [next_hba_index] answers does not depend on the log. *)
Lemma next_hba_index_fst_same (k : Plugin) (w1 w2 : World) :
  rts_backstores w1 = rts_backstores w2 ->
  fst (next_hba_index k w1) = fst (next_hba_index k w2).
Proof.
  intros H. rewrite !next_hba_index_result. unfold backstore_indexes.
  now rewrite H.
Qed.

Lemma next_hba_index_free (k : Plugin) (w : World) (i : Z) :
  fst (next_hba_index k w) = inr i -> ~ In i (backstore_indexes k w).
Proof.
  intros Hi. rewrite next_hba_index_result in Hi.
  destruct (for_index_in_range _ _ _ _) as [| | j] eqn:E; try discriminate Hi.
  injection Hi as ->. apply for_index_in_range_PyVal in E.
  destruct E as (_ & Hfree & _). exact Hfree.
Qed.

Lemma assert_available_so_name_ok (k : Plugin) (name : string) (w : World) :
  ~ In name (map ui_name (children w k)) ->
  fst (assert_available_so_name k name w) = inr tt.
Proof.
  intros H. unfold assert_available_so_name, bind, get. cbv beta iota.
  destruct (existsb (String.eqb name) (map ui_name (children w k))) eqn:E;
    [| reflexivity].
  apply existsb_String_eqb_In in E. contradiction.
Qed.

Lemma assert_available_so_name_taken (k : Plugin) (name : string) (w : World) :
  In name (map ui_name (children w k)) ->
  fst (assert_available_so_name k name w) =
  inl (ExecutionError ("Storage object " ++ plugin_name k ++ "/" ++ name
                       ++ " already exist.")%string).
Proof.
  intros H. unfold assert_available_so_name, bind, get. cbv beta iota.
  apply existsb_String_eqb_In in H. rewrite H. reflexivity.
Qed.

(** The allocator answers [i] exactly when [i] is the first free index. *)
Lemma next_hba_index_first_free (k : Plugin) (w : World) (i : Z) :
  first_free k w i <-> fst (next_hba_index k w) = inr i.
Proof.
  rewrite next_hba_index_result. unfold first_free. split.
  - intros (Hr & Hfree & Hbelow).
    destruct (for_index_in_range (Z.to_nat range_stop) 0
                                 (backstore_indexes k w) Unbound)
      as [| | j] eqn:E.
    + exfalso. apply Hfree.
      apply (proj1 (for_index_in_range_Unbound _ _ _) E).
      rewrite Z2Nat.id by (unfold range_stop; lia). lia.
    + exfalso. exact (for_index_in_range_never_None _ _ _ E).
    + apply for_index_in_range_PyVal in E. destruct E as (Hj & Hjfree & Hjbelow).
      f_equal. destruct (Z.lt_trichotomy i j) as [Hlt | [Heq | Hgt]].
      * exfalso. apply Hfree. apply Hjbelow. lia.
      * now symmetry.
      * exfalso. apply Hjfree. apply Hbelow. lia.
  - intros H.
    destruct (for_index_in_range (Z.to_nat range_stop) 0
                                 (backstore_indexes k w) Unbound)
      as [| | j] eqn:E; try discriminate H.
    injection H as ->. apply for_index_in_range_PyVal in E.
    destruct E as (Hj & Hjfree & Hjbelow).
    rewrite Z2Nat.id in Hj by (unfold range_stop; lia).
    split; [lia |]. split; assumption.
Qed.

Lemma filter_off_backstore (b : Backstore) (w : World) :
  attached w -> ~ In b (rts_backstores w) ->
  filter (fun so => negb (Backstore_eqb (so_backstore so) b))
         (rts_storage_objects w) = rts_storage_objects w.
Proof.
  intros Hatt Hb. unfold attached in Hatt.
  induction (rts_storage_objects w) as [| so l IH]; [reflexivity |].
  cbn [filter].
  destruct (Backstore_eqb (so_backstore so) b) eqn:E.
  - exfalso. apply Backstore_eqb_eq in E. subst b. apply Hb. apply Hatt.
    now left.
  - cbn [negb]. rewrite IH; [reflexivity |].
    intros so' Hso'. apply Hatt. now right.
Qed.

Lemma fresh_backstore_not_live (k : Plugin) (w : World) (i : Z) :
  fst (next_hba_index k w) = inr i -> ~ In (mkBackstore k i) (rts_backstores w).
Proof.
  intros Hi Hin. apply (next_hba_index_free k w i Hi).
  exact (in_backstore_indexes (mkBackstore k i) w Hin).
Qed.

Lemma hba_storage_objects_filter_other (b b' : Backstore) (l : list StorageObject) :
  b <> b' ->
  filter (fun so => Backstore_eqb (so_backstore so) b)
         (filter (fun so => negb (Backstore_eqb (so_backstore so) b')) l) =
  filter (fun so => Backstore_eqb (so_backstore so) b) l.
Proof.
  intros Hne. induction l as [| so l IH]; [reflexivity |].
  cbn [filter].
  destruct (Backstore_eqb (so_backstore so) b') eqn:E'; cbn [negb].
  - destruct (Backstore_eqb (so_backstore so) b) eqn:E; [| exact IH].
    apply Backstore_eqb_eq in E. apply Backstore_eqb_eq in E'. congruence.
  - cbn [filter]. destruct (Backstore_eqb (so_backstore so) b); now rewrite IH.
Qed.

(** ** The refresh of the backstores container *)

Lemma bind_ret_tt (m : M unit) (w : World) : bind m (fun _ => ret tt) w = m w.
Proof. unfold bind, ret. destruct (m w) as [[e | []] w']; reflexivity. Qed.

Lemma bind_ext {A C} (m : M A) (k1 k2 : A -> M C) (w : World) :
  (forall a w', k1 a w' = k2 a w') -> bind m k1 w = bind m k2 w.
Proof. intros H. unfold bind. destruct (m w) as [[e | a] w']; auto. Qed.

Lemma UIBackstores_refresh_each (w : World) :
  UIBackstores_refresh w
  = UIBackstore_init_each [pscsi; rd_dr; rd_mcp; fileio; iblock]
      (with_children (fun _ => []) w).
Proof.
  unfold UIBackstores_refresh.
  rewrite (bind_run (modify _) _ w _ tt eq_refl).
  cbn [UIBackstore_init_each].
  do 4 (apply bind_ext; intros _ ?).
  symmetry. apply bind_ret_tt.
Qed.

Lemma in_nodes_of (k : Plugin) (sos : list StorageObject) (c : UIStorageObject) :
  In c (nodes_of k sos) <->
  exists so, In so (of_plugin k sos) /\ c = node_of sos so.
Proof.
  unfold nodes_of. rewrite in_map_iff.
  split; intros (so & H1 & H2); exists so; [now split | now split].
Qed.

Lemma UIBackstore_init_each_preserves {B} (proj : World -> B) (ks : list Plugin) :
  (forall f w, proj (with_children f w) = proj w) ->
  preserves proj (UIBackstore_init_each ks).
Proof.
  intros H. induction ks as [| k ks IH]; cbn [UIBackstore_init_each].
  - apply preserves_ret.
  - apply preserves_bind; [now apply refresh_preserves | intros _; exact IH].
Qed.

(** Whatever the outcome, every child shown afterwards is the node of a
    storage object of its plugin, if that was so before. *)
Lemma UIBackstore_init_each_shown (ks : list Plugin) :
  forall w : World,
    (forall k c, In c (children w k) ->
                 In c (nodes_of k (rts_storage_objects w))) ->
    forall k c, In c (children (snd (UIBackstore_init_each ks w)) k) ->
                In c (nodes_of k (rts_storage_objects w)).
Proof.
  induction ks as [| k0 ks IH]; intros w Hw k c; cbn [UIBackstore_init_each].
  - apply Hw.
  - unfold UIBackstore_init at 1.
    assert (H1 : forall k c, In c (children (snd (refresh k0 w)) k) ->
                             In c (nodes_of k (rts_storage_objects w))).
    { intros k1 c1 Hc. destruct (Plugin_eqb k1 k0) eqn:E.
      - apply Plugin_eqb_eq in E. subst k1. apply in_nodes_of.
        now apply refresh_children_in.
      - rewrite refresh_children_other in Hc; [now apply Hw |].
        intros ->. now rewrite Plugin_eqb_refl in E. }
    pose proof (refresh_preserves rts_storage_objects k0 (fun _ _ => eq_refl) w)
      as Hs.
    unfold bind. destruct (refresh k0 w) as [[e | []] w1]; cbn [snd] in *.
    + apply H1.
    + intros Hc. rewrite <- Hs. apply IH; [| exact Hc].
      rewrite Hs. exact H1.
Qed.

Lemma UIBackstore_init_each_other (ks : list Plugin) (k : Plugin) :
  ~ In k ks ->
  forall w, children (snd (UIBackstore_init_each ks w)) k = children w k.
Proof.
  induction ks as [| k0 ks IH]; intros Hk w; cbn [UIBackstore_init_each];
    [reflexivity |].
  unfold UIBackstore_init at 1.
  assert (Hne : k <> k0) by (intros ->; apply Hk; now left).
  pose proof (refresh_children_other k0 k w Hne) as H1.
  unfold bind. destruct (refresh k0 w) as [[e | []] w1]; cbn [snd] in *;
    [exact H1 |].
  rewrite IH; [exact H1 |]. intros Hin. apply Hk. now right.
Qed.

Lemma UIBackstore_init_each_returns_iff (ks : list Plugin) :
  forall w : World,
    fst (UIBackstore_init_each ks w) = inr tt <->
    forall k, In k ks -> ~ label_clash k (rts_storage_objects w).
Proof.
  induction ks as [| k0 ks IH]; intros w; cbn [UIBackstore_init_each].
  - split; [intros _ k [] | reflexivity].
  - unfold UIBackstore_init at 1.
    pose proof (refresh_returns_iff k0 w) as H0.
    pose proof (refresh_preserves rts_storage_objects k0 (fun _ _ => eq_refl) w)
      as Hs.
    unfold bind. destruct (refresh k0 w) as [[e | []] w1]; cbn [fst snd] in *.
    + split; [discriminate |]. intros H. apply (proj2 H0).
      apply H. now left.
    + rewrite IH, Hs. split.
      * intros H k [<- | Hk]; [now apply (proj1 H0) | now apply H].
      * intros H k Hk. apply H. now right.
Qed.

Lemma Plugin_eq_dec (a b : Plugin) : {a = b} + {a <> b}.
Proof. decide equality. Qed.

Lemma UIBackstore_init_each_children (ks : list Plugin) :
  forall w : World,
    fst (UIBackstore_init_each ks w) = inr tt ->
    forall k, In k ks ->
      children (snd (UIBackstore_init_each ks w)) k
      = nodes_of k (rts_storage_objects w).
Proof.
  induction ks as [| k0 ks IH]; intros w Hok k Hk; [destruct Hk |].
  cbn [UIBackstore_init_each] in *. unfold UIBackstore_init at 1 in Hok.
  unfold UIBackstore_init at 1.
  pose proof (refresh_children_all k0 w) as H0.
  pose proof (refresh_preserves rts_storage_objects k0 (fun _ _ => eq_refl) w)
    as Hs.
  unfold bind in *. destruct (refresh k0 w) as [[e | []] w1];
    cbn [fst snd] in *; [discriminate Hok |].
  rewrite <- Hs.
  destruct (in_dec Plugin_eq_dec k ks) as [Hin | Hout].
  - now apply IH.
  - destruct Hk as [<- | Hk]; [| contradiction].
    rewrite (UIBackstore_init_each_other ks k0 Hout), Hs. now apply H0.
Qed.

(** Every child the container shows after its refresh, whether that
    returned or raised, is the node of a storage object of its plugin. *)
Lemma UIBackstores_refresh_shown (w : World) (k : Plugin) (c : UIStorageObject) :
  In c (children (snd (UIBackstores_refresh w)) k) ->
  In c (nodes_of k (rts_storage_objects w)).
Proof.
  rewrite UIBackstores_refresh_each.
  apply (UIBackstore_init_each_shown _ (with_children (fun _ => []) w)).
  intros k1 c1 [].
Qed.

(** When the refresh of the container returns, every node shows all the
    storage objects of its plugin. *)
Lemma UIBackstores_refresh_children (w : World) (k : Plugin) :
  fst (UIBackstores_refresh w) = inr tt ->
  children (snd (UIBackstores_refresh w)) k = nodes_of k (rts_storage_objects w).
Proof.
  rewrite UIBackstores_refresh_each. intros Hok.
  apply (UIBackstore_init_each_children _ (with_children (fun _ => []) w) Hok).
  destruct k; cbn; auto 6.
Qed.

Lemma UIBackstores_refresh_returns_iff (w : World) :
  fst (UIBackstores_refresh w) = inr tt <->
  forall k, ~ label_clash k (rts_storage_objects w).
Proof.
  rewrite UIBackstores_refresh_each, UIBackstore_init_each_returns_iff.
  cbn [rts_storage_objects with_children]. split.
  - intros H k. apply H. destruct k; cbn; auto 6.
  - intros H k _. apply H.
Qed.

Lemma existsb_off_backstore (b : Backstore) (w : World) :
  attached w -> ~ In b (rts_backstores w) ->
  existsb (fun s => Backstore_eqb (so_backstore s) b) (rts_storage_objects w)
  = false.
Proof.
  intros Hatt Hb. unfold attached in Hatt.
  induction (rts_storage_objects w) as [| s l IH]; [reflexivity |].
  cbn [existsb].
  destruct (Backstore_eqb (so_backstore s) b) eqn:E.
  - exfalso. apply Backstore_eqb_eq in E. apply Hb. rewrite <- E.
    apply Hatt. now left.
  - apply IH. intros s' Hs'. apply Hatt. now right.
Qed.

Lemma filter_absent_backstore (b : Backstore) (l : list Backstore) :
  ~ In b l -> filter (fun b0 => negb (Backstore_eqb b0 b)) l = l.
Proof.
  intros Hb. induction l as [| b0 l IH]; [reflexivity |].
  cbn [filter]. destruct (Backstore_eqb b0 b) eqn:E.
  - exfalso. apply Backstore_eqb_eq in E. apply Hb. now left.
  - cbn [negb]. f_equal. apply IH. intros Hin. apply Hb. now right.
Qed.

Lemma filter_absent_storage_object (so : StorageObject) (w : World) :
  attached w -> ~ In (so_backstore so) (rts_backstores w) ->
  filter (fun s => negb (StorageObject_eqb s so)) (rts_storage_objects w)
  = rts_storage_objects w.
Proof.
  intros Hatt Hb. unfold attached in Hatt.
  induction (rts_storage_objects w) as [| s l IH]; [reflexivity |].
  cbn [filter]. unfold StorageObject_eqb at 1.
  destruct (Backstore_eqb (so_backstore s) (so_backstore so)) eqn:E.
  - exfalso. apply Backstore_eqb_eq in E. apply Hb. rewrite <- E.
    apply Hatt. now left.
  - cbn [andb negb]. f_equal. apply IH. intros s' Hs'. apply Hatt. now right.
Qed.

(** ** The outcomes of the pscsi, rd_dr, rd_mcp and iblock commands *)

(** The four commands share one shape: name check, index, backstore, a
    step that only logs ([pre]), the guarded construction of the storage
    object from a logged parameter ([prm], whose value is [x0]) and the
    wrapping of the result. *)
Section CreateProtocol.
Variables (k : Plugin) (name : string) (X : Type).
Variable pre : M unit.
Variable prm : M X.
Variable x0 : X.
Variable mkso : Backstore -> X -> StorageObject.
Variable msg : string.
Hypothesis pre_log : log_only pre.
Hypothesis pre_total : forall w, fst (pre w) = inr tt.
Hypothesis prm_log : log_only prm.
Hypothesis prm_value : forall w, fst (prm w) = inr x0.
Hypothesis mkso_backstore : forall b x, so_backstore (mkso b x) = b.
Hypothesis mkso_name : forall b x, so_name (mkso b x) = name.

Local Abbreviation construct backstore :=
  (so <- try_except
           (x <- prm ;; StorageObject_create (mkso backstore x))
           (fun exception => Backstore_delete backstore ;; raise exception) ;;
   ui_so <- UIStorageObject_init so k ;;
   shell_log Info msg ;;
   new_node ui_so).

Local Abbreviation protocol :=
  (assert_root ;;
   assert_available_so_name k name ;;
   i <- next_hba_index k ;;
   backstore <- Backstore_create k i ;;
   pre ;;
   construct backstore).

Lemma protocol_conflict (w : World) (e : exn) :
  fst (assert_available_so_name k name w) = inl e ->
  protocol w = (inl e, w).
Proof.
  intros Ha.
  rewrite (bind_succeeds assert_root _ w tt eq_refl).
  change (snd (assert_root w)) with w.
  rewrite (bind_fails _ _ w e Ha), assert_available_so_name_snd. reflexivity.
Qed.

Lemma protocol_exhausted (w : World) (e : exn) :
  fst (assert_available_so_name k name w) = inr tt ->
  fst (next_hba_index k w) = inl e ->
  fst (protocol w) = inl e /\ same_but_log (snd (protocol w)) w.
Proof.
  intros Ha Hi.
  rewrite (bind_succeeds assert_root _ w tt eq_refl).
  change (snd (assert_root w)) with w.
  rewrite (bind_succeeds _ _ w tt Ha), assert_available_so_name_snd.
  rewrite (bind_fails_fst _ _ w e Hi), (bind_fails_snd _ _ w e Hi).
  split; [reflexivity | apply next_hba_index_log_only].
Qed.

(** Up to the construction of the storage object: the backstore with the
    allocated index has been added, nothing else but the log has changed. *)
Lemma protocol_prefix (w : World) (i : Z) :
  fst (assert_available_so_name k name w) = inr tt ->
  fst (next_hba_index k w) = inr i ->
  exists w5,
    rts_backstores w5 = rts_backstores w ++ [mkBackstore k i]
    /\ rts_storage_objects w5 = rts_storage_objects w
    /\ children w5 = children w
    /\ fs w5 = fs w
    /\ driver w5 = driver w
    /\ protocol w = construct (mkBackstore k i) w5.
Proof.
  intros Ha Hi.
  pose proof (next_hba_index_log_only k w) as (B3 & S3 & C3 & F3 & D3).
  pose proof (next_hba_index_free k w i Hi) as Hfree.
  rewrite (bind_succeeds assert_root _ w tt eq_refl).
  change (snd (assert_root w)) with w.
  rewrite (bind_succeeds _ _ w tt Ha), assert_available_so_name_snd.
  rewrite (bind_unfold (next_hba_index k)).
  remember (next_hba_index k w) as r eqn:E3.
  destruct r as [[e3 | i3] w3]; cbn [fst snd] in *; [discriminate Hi |].
  injection Hi as ->. clear E3.
  assert (Hfree3 : ~ In i (backstore_indexes k w3)).
  { unfold backstore_indexes. rewrite B3. exact Hfree. }
  rewrite (bind_unfold (Backstore_create k i)).
  rewrite (Backstore_create_fresh k i w3 Hfree3).
  set (w4 := with_backstores (rts_backstores w3 ++ [mkBackstore k i]) w3).
  rewrite (bind_succeeds pre _ w4 tt (pre_total w4)).
  destruct (pre_log w4) as (B5 & S5 & C5 & F5 & D5).
  exists (snd (pre w4)).
  split; [rewrite B5; unfold w4; cbn [rts_backstores with_backstores];
          rewrite B3; reflexivity |].
  split; [rewrite S5; exact S3 |].
  split; [rewrite C5; exact C3 |].
  split; [rewrite F5; exact F3 |].
  split; [rewrite D5; exact D3 | reflexivity].
Qed.

(** The parameter step and the constructor, taken together. *)
Lemma protocol_constructor (b : Backstore) (w5 : World) :
  exists w6,
    same_but_log w6 w5
    /\ (x <- prm ;; StorageObject_create (mkso b x)) w5 =
       match so_rejected (driver w5) (mkso b x0) with
       | Some e => (inl e, w6)
       | None =>
           (inr (mkso b x0),
            with_storage_objects (rts_storage_objects w6 ++ [mkso b x0]) w6)
       end.
Proof.
  exists (snd (prm w5)). split; [apply prm_log |].
  rewrite (bind_succeeds prm _ w5 x0 (prm_value w5)).
  rewrite StorageObject_create_run.
  destruct (prm_log w5) as (_ & _ & _ & _ & D6). rewrite D6. reflexivity.
Qed.

Lemma protocol_refused (w : World) (i : Z) (e : exn) :
  fst (assert_available_so_name k name w) = inr tt ->
  fst (next_hba_index k w) = inr i ->
  so_rejected (driver w) (mkso (mkBackstore k i) x0) = Some e ->
  fst (protocol w) = inl e
  /\ rts_backstores (snd (protocol w)) = rts_backstores w
  /\ rts_storage_objects (snd (protocol w)) =
     filter (fun so => negb (Backstore_eqb (so_backstore so) (mkBackstore k i)))
            (rts_storage_objects w)
  /\ children (snd (protocol w)) = children w
  /\ fs (snd (protocol w)) = fs w.
Proof.
  intros Ha Hi Hrej.
  assert (Hfresh : existsb (Backstore_eqb (mkBackstore k i)) (rts_backstores w)
                   = false).
  { destruct (existsb (Backstore_eqb (mkBackstore k i)) (rts_backstores w))
      eqn:E; [| reflexivity].
    exfalso. apply (next_hba_index_free k w i Hi).
    apply existsb_exists in E. destruct E as [b' [Hb' Eb]].
    apply Backstore_eqb_eq in Eb. subst b'.
    exact (in_backstore_indexes (mkBackstore k i) w Hb'). }
  destruct (protocol_prefix w i Ha Hi) as (w5 & B5 & S5 & C5 & F5 & D5 & ->).
  clear Ha Hi.
  destruct (protocol_constructor (mkBackstore k i) w5)
    as (w6 & (B6 & S6 & C6 & F6 & D6) & Hm).
  rewrite D5, Hrej in Hm.
  assert (Hrun : construct (mkBackstore k i) w5 =
                 (inl e, snd (Backstore_delete (mkBackstore k i) w6))).
  { rewrite (bind_unfold (try_except _ _)).
    unfold try_except. rewrite Hm. reflexivity. }
  rewrite Hrun. unfold Backstore_delete, modify.
  cbn [fst snd rts_backstores rts_storage_objects children fs
       with_backstores with_storage_objects].
  rewrite B6, B5, S6, S5, C6, C5, F6, F5.
  rewrite (filter_out_appended _ _ Hfresh). repeat split.
Qed.

Lemma protocol_accepted (w : World) (i : Z) :
  fst (assert_available_so_name k name w) = inr tt ->
  fst (next_hba_index k w) = inr i ->
  so_rejected (driver w) (mkso (mkBackstore k i) x0) = None ->
  let so := mkso (mkBackstore k i) x0 in
  let node := mkUIStorageObject (so_name so) so in
  fst (protocol w) = inr (Some node)
  /\ rts_backstores (snd (protocol w)) = rts_backstores w ++ [mkBackstore k i]
  /\ rts_storage_objects (snd (protocol w)) = rts_storage_objects w ++ [so]
  /\ children (snd (protocol w)) k = children w k ++ [node]
  /\ (forall k', k' <> k -> children (snd (protocol w)) k' = children w k')
  /\ fs (snd (protocol w)) = fs w.
Proof.
  intros Ha Hi Hacc so node.
  assert (Hname : ~ In name (map ui_name (children w k))).
  { intros Hin. rewrite (assert_available_so_name_taken k name w Hin) in Ha.
    discriminate Ha. }
  destruct (protocol_prefix w i Ha Hi) as (w5 & B5 & S5 & C5 & F5 & D5 & ->).
  clear Ha Hi.
  destruct (protocol_constructor (mkBackstore k i) w5)
    as (w6 & (B6 & S6 & C6 & F6 & D6) & Hm).
  rewrite D5, Hacc in Hm. fold so in Hm.
  set (w7 := with_storage_objects (rts_storage_objects w6 ++ [so]) w6) in *.
  assert (C7 : children w7 = children w) by (rewrite <- C5, <- C6; reflexivity).
  assert (Hinit : UIStorageObject_init so k w7 =
                  (inr node, set_children k (children w7 k ++ [node]) w7)).
  { apply UIStorageObject_init_free. unfold so at 1.
    rewrite mkso_name, C7. exact Hname. }
  assert (Hrun : construct (mkBackstore k i) w5 =
                 (inr (Some node),
                  snd (shell_log Info msg
                         (set_children k (children w7 k ++ [node]) w7)))).
  { rewrite (bind_unfold (try_except _ _)).
    unfold try_except. rewrite Hm.
    rewrite (bind_run _ _ _ _ _ Hinit). reflexivity. }
  rewrite Hrun.
  unfold shell_log, modify.
  cbn [fst snd rts_backstores rts_storage_objects children fs
       with_backstores with_storage_objects with_children with_log set_children].
  rewrite C7. unfold w7.
  cbn [rts_backstores rts_storage_objects fs with_storage_objects].
  rewrite B6, B5, S6, S5, F6, F5, Plugin_eqb_refl.
  repeat split.
  intros k' Hk'. destruct (Plugin_eqb k' k) eqn:E; [| reflexivity].
  apply Plugin_eqb_eq in E. contradiction.
Qed.

(** Whenever a command of this shape raises, it has changed nothing but
    the log (and, in a world where storage objects hang on backstores that
    are not live, those that sat on the index it tried). *)
Lemma protocol_failure (w w' : World) (e : exn) :
  protocol w = (inl e, w') ->
  rts_backstores w' = rts_backstores w
  /\ children w' = children w
  /\ fs w' = fs w
  /\ (attached w -> rts_storage_objects w' = rts_storage_objects w).
Proof.
  intros H.
  destruct (fst (assert_available_so_name k name w)) as [e1 | []] eqn:Ha.
  - rewrite (protocol_conflict w e1 Ha) in H. injection H as _ <-. auto.
  - destruct (fst (next_hba_index k w)) as [e2 | i] eqn:Hi.
    + destruct (protocol_exhausted w e2 Ha Hi) as (_ & B & S & C & F & _).
      rewrite H in B, S, C, F. cbn [snd] in B, S, C, F. auto.
    + destruct (so_rejected (driver w) (mkso (mkBackstore k i) x0))
        as [e3 |] eqn:Hd.
      * destruct (protocol_refused w i e3 Ha Hi Hd) as (_ & B & S & C & F).
        rewrite H in B, S, C, F. cbn [snd] in B, S, C, F.
        repeat split; try assumption.
        intros Hatt. rewrite S. apply filter_off_backstore; [assumption |].
        now apply fresh_backstore_not_live.
      * destruct (protocol_accepted w i Ha Hi Hd) as (R & _).
        rewrite H in R. discriminate R.
Qed.

(** Whatever the outcome, a command of this shape leaves no backstore
    without a storage object if there was none before. *)
Lemma protocol_no_orphans (w : World) :
  no_orphans w -> no_orphans (snd (protocol w)).
Proof.
  intros Hno.
  destruct (fst (assert_available_so_name k name w)) as [e1 | []] eqn:Ha.
  - now rewrite (protocol_conflict w e1 Ha).
  - destruct (fst (next_hba_index k w)) as [e2 | i] eqn:Hi.
    + destruct (protocol_exhausted w e2 Ha Hi) as (_ & B & S & _).
      intros b Hb. unfold hba_storage_objects. rewrite S. rewrite B in Hb.
      now apply Hno.
    + pose proof (fresh_backstore_not_live k w i Hi) as Hfresh.
      destruct (so_rejected (driver w) (mkso (mkBackstore k i) x0))
        as [e3 |] eqn:Hd.
      * destruct (protocol_refused w i e3 Ha Hi Hd) as (_ & B & S & _).
        intros b Hb. unfold hba_storage_objects. rewrite S. rewrite B in Hb.
        rewrite hba_storage_objects_filter_other by congruence.
        now apply Hno.
      * destruct (protocol_accepted w i Ha Hi Hd) as (_ & B & S & _).
        intros b Hb. unfold hba_storage_objects. rewrite S, filter_app.
        rewrite B in Hb. apply in_app_or in Hb. destruct Hb as [Hb | [<- | []]].
        -- intros E. apply app_eq_nil in E. destruct E as [E _].
           exact (Hno b Hb E).
        -- cbn [filter]. rewrite mkso_backstore, Backstore_eqb_refl.
           intros E. apply app_eq_nil in E. destruct E as [_ E]. discriminate E.
Qed.

(** Deleting the name that a command of this shape has just created gives
    back the backstores and the storage objects there were before. *)
Lemma protocol_then_delete (w w1 : World) (v : option UIStorageObject) :
  attached w ->
  protocol w = (inr v, w1) ->
  let r := ui_command_delete k name w1 in
  returns_or_ValueError (fst r)
  /\ rts_backstores (snd r) = rts_backstores w
  /\ rts_storage_objects (snd r) = rts_storage_objects w
  /\ fs (snd r) = fs w.
Proof.
  intros Hatt H r.
  destruct (fst (assert_available_so_name k name w)) as [e1 | []] eqn:Ha;
    [rewrite (protocol_conflict w e1 Ha) in H; discriminate H |].
  destruct (fst (next_hba_index k w)) as [e2 | i] eqn:Hi.
  { destruct (protocol_exhausted w e2 Ha Hi) as (R & _).
    rewrite H in R. discriminate R. }
  destruct (so_rejected (driver w) (mkso (mkBackstore k i) x0))
    as [e3 |] eqn:Hd.
  { destruct (protocol_refused w i e3 Ha Hi Hd) as (R & _).
    rewrite H in R. discriminate R. }
  destruct (protocol_accepted w i Ha Hi Hd) as (_ & B & S & C & _ & F).
  rewrite H in B, S, C, F. cbn [snd] in B, S, C, F. clear H Hd.
  set (b := mkBackstore k i) in *.
  set (so := mkso b x0) in *.
  set (node := mkUIStorageObject (so_name so) so) in *.
  assert (Hname : ~ In name (map ui_name (children w k))).
  { intros Hin. rewrite (assert_available_so_name_taken k name w Hin) in Ha.
    discriminate Ha. }
  assert (Hb : ~ In b (rts_backstores w))
    by (apply fresh_backstore_not_live; exact Hi).
  assert (Hso : so_backstore so = b) by (unfold so; apply mkso_backstore).
  assert (Hnode : ui_name node = name)
    by (unfold node, so; cbn [ui_name]; apply mkso_name).
  assert (Hfind : find (fun c => String.eqb (ui_name c) name) (iter_children w1 k)
                  = Some node).
  { apply find_name_unique; [| exact Hnode |].
    - apply (Permutation_in _ (Permutation_sym (iter_children_perm w1 k))).
      rewrite C. apply in_or_app. right. left. reflexivity.
    - intros c Hc Hn.
      apply (Permutation_in _ (iter_children_perm w1 k)) in Hc.
      rewrite C in Hc. apply in_app_or in Hc.
      destruct Hc as [Hc | [<- | []]]; [| reflexivity].
      exfalso. apply Hname. rewrite <- Hn. now apply in_map. }
  assert (Hrem : filter (fun s => negb (StorageObject_eqb s so))
                        (rts_storage_objects w1) = rts_storage_objects w).
  { rewrite S, filter_app. cbn [filter].
    unfold StorageObject_eqb at 2.
    rewrite Backstore_eqb_refl, String.eqb_refl. cbn [andb negb].
    rewrite app_nil_r. apply filter_absent_storage_object; [exact Hatt |].
    now rewrite Hso. }
  unfold r. rewrite (ui_command_delete_known k name node w1 Hfind).
  destruct (after_delete_rts k name node w1) as (S' & B' & _).
  cbn [rtsnode node] in S', B'.
  rewrite Hrem in S', B'. rewrite Hso in B'.
  rewrite (existsb_off_backstore b w Hatt Hb), B, filter_app in B'.
  cbn [filter] in B'.
  rewrite Backstore_eqb_refl in B'. cbn [negb] in B'.
  rewrite app_nil_r, (filter_absent_backstore b _ Hb) in B'.
  assert (F' : fs (after_delete k name node w1) = fs w1).
  { unfold after_delete. cbv zeta.
    destruct (hba_storage_objects _ _); reflexivity. }
  split; [apply root_refresh_outcome |].
  split; [rewrite (root_refresh_preserves rts_backstores (fun _ _ => eq_refl));
          exact B' |].
  split; [rewrite (root_refresh_preserves rts_storage_objects
                     (fun _ _ => eq_refl)); exact S' |].
  rewrite (root_refresh_preserves fs (fun _ _ => eq_refl)).
  rewrite F'. exact F.
Qed.

End CreateProtocol.

(** *** The four commands as instances of the shape *)

Lemma pscsi_note_log_only (dev : string) :
  log_only (w0 <- get ;;
            if negb (is_None (get_block_type dev w0)) || is_disk_partition dev w0
            then shell_log Info
                   "Note: block backstore recommended for SCSI block devices"
            else ret tt).
Proof. log_only. Qed.

Lemma pscsi_note_total (dev : string) (w : World) :
  fst ((w0 <- get ;;
        if negb (is_None (get_block_type dev w0)) || is_disk_partition dev w0
        then shell_log Info
               "Note: block backstore recommended for SCSI block devices"
        else ret tt) w) = inr tt.
Proof. unfold bind, get. cbv beta iota. destruct (_ || _); reflexivity. Qed.

Lemma ret_log_only {A} (a : A) : log_only (ret a).
Proof. intros w. apply same_but_log_refl. Qed.

Lemma pscsi_create_conflict (name dev : string) (w : World) (e : exn) :
  fst (assert_available_so_name pscsi name w) = inl e ->
  UIPSCSIBackstore.ui_command_create name dev w = (inl e, w).
Proof.
  exact (protocol_conflict pscsi name unit _ (ret tt)
           (fun b _ => mkStorageObject name b (Some dev) None None None)
           ("Created pscsi storage object " ++ name ++ " using " ++ dev)%string w e).
Qed.

Lemma pscsi_create_failure (name dev : string) (w w' : World) (e : exn) :
  UIPSCSIBackstore.ui_command_create name dev w = (inl e, w') ->
  rts_backstores w' = rts_backstores w
  /\ children w' = children w
  /\ fs w' = fs w
  /\ (attached w -> rts_storage_objects w' = rts_storage_objects w).
Proof.
  exact (protocol_failure pscsi name unit _ (ret tt) tt
           (fun b _ => mkStorageObject name b (Some dev) None None None)
           ("Created pscsi storage object " ++ name ++ " using " ++ dev)%string
           (pscsi_note_log_only dev) (pscsi_note_total dev)
           (ret_log_only tt) (fun _ => eq_refl)
           (fun _ _ => eq_refl) w w' e).
Qed.

Lemma pscsi_create_no_orphans (name dev : string) (w : World) :
  no_orphans w -> no_orphans (snd (UIPSCSIBackstore.ui_command_create name dev w)).
Proof.
  exact (protocol_no_orphans pscsi name unit _ (ret tt) tt
           (fun b _ => mkStorageObject name b (Some dev) None None None)
           ("Created pscsi storage object " ++ name ++ " using " ++ dev)%string
           (pscsi_note_log_only dev) (pscsi_note_total dev)
           (ret_log_only tt) (fun _ => eq_refl)
           (fun _ _ => eq_refl) (fun _ _ => eq_refl) w).
Qed.

Lemma pscsi_create_accepted (name dev : string) (w : World) (i : Z) :
  fst (assert_available_so_name pscsi name w) = inr tt ->
  fst (next_hba_index pscsi w) = inr i ->
  so_rejected (driver w)
    (mkStorageObject name (mkBackstore pscsi i) (Some dev) None None None) = None ->
  let so :=
    mkStorageObject name (mkBackstore pscsi i) (Some dev) None None None in
  let node := mkUIStorageObject name so in
  let r := UIPSCSIBackstore.ui_command_create name dev w in
  fst r = inr (Some node)
  /\ rts_backstores (snd r) = rts_backstores w ++ [mkBackstore pscsi i]
  /\ rts_storage_objects (snd r) = rts_storage_objects w ++ [so]
  /\ children (snd r) pscsi = children w pscsi ++ [node]
  /\ (forall k', k' <> pscsi -> children (snd r) k' = children w k')
  /\ fs (snd r) = fs w.
Proof.
  exact (protocol_accepted pscsi name unit _ (ret tt) tt
           (fun b _ => mkStorageObject name b (Some dev) None None None)
           ("Created pscsi storage object " ++ name ++ " using " ++ dev)%string
           (pscsi_note_log_only dev) (pscsi_note_total dev)
           (ret_log_only tt) (fun _ => eq_refl)
           (fun _ _ => eq_refl) w i).
Qed.

Lemma rd_dr_create_conflict (name size : string) (generate_wwn : option bool) (w : World) (e : exn) :
  fst (assert_available_so_name rd_dr name w) = inl e ->
  UIRDDRBackstore.ui_command_create name size generate_wwn w = (inl e, w).
Proof.
  exact (protocol_conflict rd_dr name bool (ret tt) (prm_gen_wwn generate_wwn)
           (fun b x => mkStorageObject name b None (Some size) (Some x) None)
           ("Created rd_dr ramdisk " ++ name ++ " with size " ++ size ++ ".")%string w e).
Qed.

Lemma rd_dr_create_failure (name size : string) (generate_wwn : option bool) (w w' : World) (e : exn) :
  UIRDDRBackstore.ui_command_create name size generate_wwn w = (inl e, w') ->
  rts_backstores w' = rts_backstores w
  /\ children w' = children w
  /\ fs w' = fs w
  /\ (attached w -> rts_storage_objects w' = rts_storage_objects w).
Proof.
  exact (protocol_failure rd_dr name bool (ret tt) (prm_gen_wwn generate_wwn) (ui_eval_param_bool generate_wwn true)
           (fun b x => mkStorageObject name b None (Some size) (Some x) None)
           ("Created rd_dr ramdisk " ++ name ++ " with size " ++ size ++ ".")%string
           (ret_log_only tt) (fun _ => eq_refl)
           (prm_gen_wwn_log_only generate_wwn) (prm_gen_wwn_value generate_wwn)
           (fun _ _ => eq_refl) w w' e).
Qed.

Lemma rd_dr_create_no_orphans (name size : string) (generate_wwn : option bool) (w : World) :
  no_orphans w -> no_orphans (snd (UIRDDRBackstore.ui_command_create name size generate_wwn w)).
Proof.
  exact (protocol_no_orphans rd_dr name bool (ret tt) (prm_gen_wwn generate_wwn) (ui_eval_param_bool generate_wwn true)
           (fun b x => mkStorageObject name b None (Some size) (Some x) None)
           ("Created rd_dr ramdisk " ++ name ++ " with size " ++ size ++ ".")%string
           (ret_log_only tt) (fun _ => eq_refl)
           (prm_gen_wwn_log_only generate_wwn) (prm_gen_wwn_value generate_wwn)
           (fun _ _ => eq_refl) (fun _ _ => eq_refl) w).
Qed.

Lemma rd_dr_create_accepted (name size : string) (generate_wwn : option bool) (w : World) (i : Z) :
  fst (assert_available_so_name rd_dr name w) = inr tt ->
  fst (next_hba_index rd_dr w) = inr i ->
  so_rejected (driver w)
    (mkStorageObject name (mkBackstore rd_dr i) None (Some size)
      (Some (ui_eval_param_bool generate_wwn true)) None) = None ->
  let so :=
    mkStorageObject name (mkBackstore rd_dr i) None (Some size)
      (Some (ui_eval_param_bool generate_wwn true)) None in
  let node := mkUIStorageObject name so in
  let r := UIRDDRBackstore.ui_command_create name size generate_wwn w in
  fst r = inr (Some node)
  /\ rts_backstores (snd r) = rts_backstores w ++ [mkBackstore rd_dr i]
  /\ rts_storage_objects (snd r) = rts_storage_objects w ++ [so]
  /\ children (snd r) rd_dr = children w rd_dr ++ [node]
  /\ (forall k', k' <> rd_dr -> children (snd r) k' = children w k')
  /\ fs (snd r) = fs w.
Proof.
  exact (protocol_accepted rd_dr name bool (ret tt) (prm_gen_wwn generate_wwn) (ui_eval_param_bool generate_wwn true)
           (fun b x => mkStorageObject name b None (Some size) (Some x) None)
           ("Created rd_dr ramdisk " ++ name ++ " with size " ++ size ++ ".")%string
           (ret_log_only tt) (fun _ => eq_refl)
           (prm_gen_wwn_log_only generate_wwn) (prm_gen_wwn_value generate_wwn)
           (fun _ _ => eq_refl) w i).
Qed.

Lemma rd_mcp_create_conflict (name size : string) (generate_wwn : option bool) (w : World) (e : exn) :
  fst (assert_available_so_name rd_mcp name w) = inl e ->
  UIRDMCPBackstore.ui_command_create name size generate_wwn w = (inl e, w).
Proof.
  exact (protocol_conflict rd_mcp name bool (ret tt) (prm_gen_wwn generate_wwn)
           (fun b x => mkStorageObject name b None (Some size) (Some x) None)
           ("Created rd_mcp ramdisk " ++ name ++ " with size " ++ size ++ ".")%string w e).
Qed.

Lemma rd_mcp_create_failure (name size : string) (generate_wwn : option bool) (w w' : World) (e : exn) :
  UIRDMCPBackstore.ui_command_create name size generate_wwn w = (inl e, w') ->
  rts_backstores w' = rts_backstores w
  /\ children w' = children w
  /\ fs w' = fs w
  /\ (attached w -> rts_storage_objects w' = rts_storage_objects w).
Proof.
  exact (protocol_failure rd_mcp name bool (ret tt) (prm_gen_wwn generate_wwn) (ui_eval_param_bool generate_wwn true)
           (fun b x => mkStorageObject name b None (Some size) (Some x) None)
           ("Created rd_mcp ramdisk " ++ name ++ " with size " ++ size ++ ".")%string
           (ret_log_only tt) (fun _ => eq_refl)
           (prm_gen_wwn_log_only generate_wwn) (prm_gen_wwn_value generate_wwn)
           (fun _ _ => eq_refl) w w' e).
Qed.

Lemma rd_mcp_create_no_orphans (name size : string) (generate_wwn : option bool) (w : World) :
  no_orphans w -> no_orphans (snd (UIRDMCPBackstore.ui_command_create name size generate_wwn w)).
Proof.
  exact (protocol_no_orphans rd_mcp name bool (ret tt) (prm_gen_wwn generate_wwn) (ui_eval_param_bool generate_wwn true)
           (fun b x => mkStorageObject name b None (Some size) (Some x) None)
           ("Created rd_mcp ramdisk " ++ name ++ " with size " ++ size ++ ".")%string
           (ret_log_only tt) (fun _ => eq_refl)
           (prm_gen_wwn_log_only generate_wwn) (prm_gen_wwn_value generate_wwn)
           (fun _ _ => eq_refl) (fun _ _ => eq_refl) w).
Qed.

Lemma rd_mcp_create_accepted (name size : string) (generate_wwn : option bool) (w : World) (i : Z) :
  fst (assert_available_so_name rd_mcp name w) = inr tt ->
  fst (next_hba_index rd_mcp w) = inr i ->
  so_rejected (driver w)
    (mkStorageObject name (mkBackstore rd_mcp i) None (Some size)
      (Some (ui_eval_param_bool generate_wwn true)) None) = None ->
  let so :=
    mkStorageObject name (mkBackstore rd_mcp i) None (Some size)
      (Some (ui_eval_param_bool generate_wwn true)) None in
  let node := mkUIStorageObject name so in
  let r := UIRDMCPBackstore.ui_command_create name size generate_wwn w in
  fst r = inr (Some node)
  /\ rts_backstores (snd r) = rts_backstores w ++ [mkBackstore rd_mcp i]
  /\ rts_storage_objects (snd r) = rts_storage_objects w ++ [so]
  /\ children (snd r) rd_mcp = children w rd_mcp ++ [node]
  /\ (forall k', k' <> rd_mcp -> children (snd r) k' = children w k')
  /\ fs (snd r) = fs w.
Proof.
  exact (protocol_accepted rd_mcp name bool (ret tt) (prm_gen_wwn generate_wwn) (ui_eval_param_bool generate_wwn true)
           (fun b x => mkStorageObject name b None (Some size) (Some x) None)
           ("Created rd_mcp ramdisk " ++ name ++ " with size " ++ size ++ ".")%string
           (ret_log_only tt) (fun _ => eq_refl)
           (prm_gen_wwn_log_only generate_wwn) (prm_gen_wwn_value generate_wwn)
           (fun _ _ => eq_refl) w i).
Qed.

Lemma iblock_create_conflict (name dev : string) (generate_wwn : option bool) (w : World) (e : exn) :
  fst (assert_available_so_name iblock name w) = inl e ->
  UIIBlockBackstore.ui_command_create name dev generate_wwn w = (inl e, w).
Proof.
  exact (protocol_conflict iblock name bool (ret tt) (prm_gen_wwn generate_wwn)
           (fun b x => mkStorageObject name b (Some dev) None (Some x) None)
           ("Created iblock storage object " ++ name ++ " using " ++ dev ++ ".")%string w e).
Qed.

Lemma iblock_create_failure (name dev : string) (generate_wwn : option bool) (w w' : World) (e : exn) :
  UIIBlockBackstore.ui_command_create name dev generate_wwn w = (inl e, w') ->
  rts_backstores w' = rts_backstores w
  /\ children w' = children w
  /\ fs w' = fs w
  /\ (attached w -> rts_storage_objects w' = rts_storage_objects w).
Proof.
  exact (protocol_failure iblock name bool (ret tt) (prm_gen_wwn generate_wwn) (ui_eval_param_bool generate_wwn true)
           (fun b x => mkStorageObject name b (Some dev) None (Some x) None)
           ("Created iblock storage object " ++ name ++ " using " ++ dev ++ ".")%string
           (ret_log_only tt) (fun _ => eq_refl)
           (prm_gen_wwn_log_only generate_wwn) (prm_gen_wwn_value generate_wwn)
           (fun _ _ => eq_refl) w w' e).
Qed.

Lemma iblock_create_no_orphans (name dev : string) (generate_wwn : option bool) (w : World) :
  no_orphans w -> no_orphans (snd (UIIBlockBackstore.ui_command_create name dev generate_wwn w)).
Proof.
  exact (protocol_no_orphans iblock name bool (ret tt) (prm_gen_wwn generate_wwn) (ui_eval_param_bool generate_wwn true)
           (fun b x => mkStorageObject name b (Some dev) None (Some x) None)
           ("Created iblock storage object " ++ name ++ " using " ++ dev ++ ".")%string
           (ret_log_only tt) (fun _ => eq_refl)
           (prm_gen_wwn_log_only generate_wwn) (prm_gen_wwn_value generate_wwn)
           (fun _ _ => eq_refl) (fun _ _ => eq_refl) w).
Qed.

Lemma iblock_create_accepted (name dev : string) (generate_wwn : option bool) (w : World) (i : Z) :
  fst (assert_available_so_name iblock name w) = inr tt ->
  fst (next_hba_index iblock w) = inr i ->
  so_rejected (driver w)
    (mkStorageObject name (mkBackstore iblock i) (Some dev) None
      (Some (ui_eval_param_bool generate_wwn true)) None) = None ->
  let so :=
    mkStorageObject name (mkBackstore iblock i) (Some dev) None
      (Some (ui_eval_param_bool generate_wwn true)) None in
  let node := mkUIStorageObject name so in
  let r := UIIBlockBackstore.ui_command_create name dev generate_wwn w in
  fst r = inr (Some node)
  /\ rts_backstores (snd r) = rts_backstores w ++ [mkBackstore iblock i]
  /\ rts_storage_objects (snd r) = rts_storage_objects w ++ [so]
  /\ children (snd r) iblock = children w iblock ++ [node]
  /\ (forall k', k' <> iblock -> children (snd r) k' = children w k')
  /\ fs (snd r) = fs w.
Proof.
  exact (protocol_accepted iblock name bool (ret tt) (prm_gen_wwn generate_wwn) (ui_eval_param_bool generate_wwn true)
           (fun b x => mkStorageObject name b (Some dev) None (Some x) None)
           ("Created iblock storage object " ++ name ++ " using " ++ dev ++ ".")%string
           (ret_log_only tt) (fun _ => eq_refl)
           (prm_gen_wwn_log_only generate_wwn) (prm_gen_wwn_value generate_wwn)
           (fun _ _ => eq_refl) w i).
Qed.

Lemma fileio_create_conflict (name file_or_dev : string) (size : option string)
      (generate_wwn buffered sparse : option bool) (w : World) (e : exn) :
  fst (assert_available_so_name fileio name w) = inl e ->
  ui_command_create name file_or_dev size generate_wwn buffered sparse w
  = (inl e, w).
Proof.
  intros Ha. unfold ui_command_create.
  rewrite (bind_succeeds assert_root _ w tt eq_refl).
  change (snd (assert_root w)) with w.
  rewrite (bind_fails _ _ w e Ha), assert_available_so_name_snd. reflexivity.
Qed.

Lemma alone_on_new_backstore (b : Backstore) (so : StorageObject) (w : World) :
  attached w -> ~ In b (rts_backstores w) -> so_backstore so = b ->
  filter (fun s => Backstore_eqb (so_backstore s) b)
         (rts_storage_objects w ++ [so]) = [so].
Proof.
  intros Hatt Hb Hso. rewrite filter_app. cbn [filter].
  rewrite Hso, Backstore_eqb_refl.
  assert (E : filter (fun s => Backstore_eqb (so_backstore s) b)
                     (rts_storage_objects w) = []).
  { unfold attached in Hatt.
    induction (rts_storage_objects w) as [| s l IH]; [reflexivity |].
    cbn [filter]. destruct (Backstore_eqb (so_backstore s) b) eqn:E.
    - exfalso. apply Backstore_eqb_eq in E. rewrite <- E in Hb.
      apply Hb, Hatt. now left.
    - apply IH. intros s' Hs'. apply Hatt. now right. }
  now rewrite E.
Qed.

(** ** What a user of the create commands can rely on *)

(** X1. A create command called with a name that a child of its node
    already carries raises the "already exist" error before doing anything:
    the world, log included, is exactly what it was.  This holds for all
    five commands. *)
Theorem create_refuses_taken_name (k : Plugin) (name : string) (w : World) :
  In name (map ui_name (children w k)) ->
  let refusal : (exn + option UIStorageObject) * World :=
    (inl (ExecutionError ("Storage object " ++ plugin_name k ++ "/" ++ name
                          ++ " already exist.")%string), w) in
  match k with
  | pscsi => forall dev, UIPSCSIBackstore.ui_command_create name dev w = refusal
  | rd_dr => forall size generate_wwn,
      UIRDDRBackstore.ui_command_create name size generate_wwn w = refusal
  | rd_mcp => forall size generate_wwn,
      UIRDMCPBackstore.ui_command_create name size generate_wwn w = refusal
  | fileio => forall file_or_dev size generate_wwn buffered sparse,
      ui_command_create name file_or_dev size generate_wwn buffered sparse w
      = refusal
  | iblock => forall dev generate_wwn,
      UIIBlockBackstore.ui_command_create name dev generate_wwn w = refusal
  end.
Proof.
  intros Hin refusal. subst refusal.
  pose proof (assert_available_so_name_taken k name w Hin) as Ha.
  clear Hin. destruct k; intros.
  - now apply pscsi_create_conflict.
  - now apply rd_dr_create_conflict.
  - now apply rd_mcp_create_conflict.
  - now apply fileio_create_conflict.
  - now apply iblock_create_conflict.
Qed.

Lemma create_refuses_taken_name_witness :
  In "a" (map ui_name (children shared_world rd_dr))
  /\ forall size generate_wwn,
       UIRDDRBackstore.ui_command_create "a" size generate_wwn shared_world
       = (inl (ExecutionError "Storage object rd_dr/a already exist."),
          shared_world).
Proof.
  assert (H : In "a" (map ui_name (children shared_world rd_dr)))
    by (left; reflexivity).
  split; [exact H |].
  exact (create_refuses_taken_name rd_dr "a" shared_world H).
Defined.

(** X2. When the pscsi, rd_dr, rd_mcp or iblock command raises, for
    whatever reason, the backstores, the children of every node and the
    filesystem are what they were before the call, and so are the storage
    objects when each of them sat on a live backstore; the next index of
    every kind is the same as before, so no index has leaked. *)
Theorem create_failure_changes_nothing (w w' : World) (e : exn) :
  (exists name dev, UIPSCSIBackstore.ui_command_create name dev w = (inl e, w'))
  \/ (exists name size generate_wwn,
        UIRDDRBackstore.ui_command_create name size generate_wwn w = (inl e, w'))
  \/ (exists name size generate_wwn,
        UIRDMCPBackstore.ui_command_create name size generate_wwn w = (inl e, w'))
  \/ (exists name dev generate_wwn,
        UIIBlockBackstore.ui_command_create name dev generate_wwn w = (inl e, w')) ->
  rts_backstores w' = rts_backstores w
  /\ children w' = children w
  /\ fs w' = fs w
  /\ (attached w -> rts_storage_objects w' = rts_storage_objects w)
  /\ (forall k, fst (next_hba_index k w') = fst (next_hba_index k w)).
Proof.
  intros H.
  assert (F : rts_backstores w' = rts_backstores w
              /\ children w' = children w
              /\ fs w' = fs w
              /\ (attached w -> rts_storage_objects w' = rts_storage_objects w)).
  { destruct H as [(name & dev & H) | [(name & size & g & H)
                  | [(name & size & g & H) | (name & dev & g & H)]]].
    - exact (pscsi_create_failure name dev w w' e H).
    - exact (rd_dr_create_failure name size g w w' e H).
    - exact (rd_mcp_create_failure name size g w w' e H).
    - exact (iblock_create_failure name dev g w w' e H). }
  destruct F as (B & C & F & S). repeat split; try assumption.
  intros k. now apply next_hba_index_fst_same.
Qed.

Lemma create_failure_changes_nothing_witness :
  let w' := snd (UIRDDRBackstore.ui_command_create "rd0" "1M" None
                   (empty_world refusing)) in
  (exists name size generate_wwn,
      UIRDDRBackstore.ui_command_create name size generate_wwn
        (empty_world refusing)
      = (inl (RTSLibError "Device already in use"), w'))
  /\ attached (empty_world refusing)
  /\ rts_backstores w' = []
  /\ rts_storage_objects w' = []
  /\ children w' = children (empty_world refusing).
Proof.
  intros w'.
  assert (H : UIRDDRBackstore.ui_command_create "rd0" "1M" None
                (empty_world refusing)
              = (inl (RTSLibError "Device already in use"), w')).
  { unfold w'.
    rewrite (surjective_pairing
               (UIRDDRBackstore.ui_command_create "rd0" "1M" None
                  (empty_world refusing))) at 1.
    f_equal; vm_compute; reflexivity. }
  assert (Hatt : attached (empty_world refusing)) by (intros so []).
  destruct (create_failure_changes_nothing (empty_world refusing) w'
              (RTSLibError "Device already in use")
              (or_intror (or_introl
                 (ex_intro _ "rd0" (ex_intro _ "1M" (ex_intro _ None H))))))
    as (B & C & _ & S & _).
  split; [exists "rd0", "1M", None; exact H |].
  split; [exact Hatt |].
  split; [exact B |]. split; [exact (S Hatt) | exact C].
Defined.

(** X3. When the name is free among the children of the pscsi node, [i]
    is the first free pscsi index and rtslib accepts the object, the pscsi
    command returns the node of the new storage object and adds exactly one
    backstore, at index [i], exactly one storage object on it
    (a pscsi storage object for the given device) and exactly one child
    to the pscsi node; the other nodes and the filesystem are untouched. *)
Theorem pscsi_create_adds_one_pair (name dev : string) (w : World) (i : Z) :
  ~ In name (map ui_name (children w pscsi)) ->
  first_free pscsi w i ->
  so_rejected (driver w)
    (mkStorageObject name (mkBackstore pscsi i) (Some dev) None None None) = None ->
  let so :=
    mkStorageObject name (mkBackstore pscsi i) (Some dev) None None None in
  let node := mkUIStorageObject name so in
  let r := UIPSCSIBackstore.ui_command_create name dev w in
  fst r = inr (Some node)
  /\ rts_backstores (snd r) = rts_backstores w ++ [mkBackstore pscsi i]
  /\ rts_storage_objects (snd r) = rts_storage_objects w ++ [so]
  /\ children (snd r) pscsi = children w pscsi ++ [node]
  /\ (forall k', k' <> pscsi -> children (snd r) k' = children w k')
  /\ fs (snd r) = fs w
  /\ (attached w -> hba_storage_objects (mkBackstore pscsi i) (snd r) = [so]).
Proof.
  intros Hname Hfree Hacc so node r.
  apply assert_available_so_name_ok in Hname.
  apply next_hba_index_first_free in Hfree.
  destruct (pscsi_create_accepted name dev w i Hname Hfree Hacc)
    as (R & B & S & C & C' & F).
  fold so node r in R, B, S, C, C', F.
  repeat split; try assumption.
  intros Hatt. unfold hba_storage_objects. rewrite S.
  apply alone_on_new_backstore; try assumption; [| reflexivity].
  now apply fresh_backstore_not_live.
Qed.

Lemma pscsi_create_adds_one_pair_witness :
  let so := mkStorageObject "disk0" (mkBackstore pscsi 0) (Some "/dev/sg1") None None None in
  let r := UIPSCSIBackstore.ui_command_create "disk0" "/dev/sg1" (empty_world accepting) in
  ~ In "disk0" (map ui_name (children (empty_world accepting) pscsi))
  /\ first_free pscsi (empty_world accepting) 0
  /\ fst r = inr (Some (mkUIStorageObject "disk0" so))
  /\ rts_backstores (snd r) = [mkBackstore pscsi 0]
  /\ rts_storage_objects (snd r) = [so].
Proof.
  intros so r.
  assert (Hname : ~ In "disk0"
                      (map ui_name (children (empty_world accepting) pscsi)))
    by (intros []).
  assert (Hfree : first_free pscsi (empty_world accepting) 0).
  { split; [unfold range_stop; lia |]. split; [intros [] | intros m Hm; lia]. }
  destruct (pscsi_create_adds_one_pair "disk0" "/dev/sg1" (empty_world accepting) 0
              Hname Hfree eq_refl) as (R & B & S & _).
  split; [exact Hname |]. split; [exact Hfree |].
  split; [exact R |]. split; [exact B | exact S].
Defined.

(** X4. When the name is free among the children of the rd_dr node, [i]
    is the first free rd_dr index and rtslib accepts the object, the rd_dr
    command returns the node of the new storage object and adds exactly one
    backstore, at index [i], exactly one storage object on it
    (an rd_dr ramdisk of the given size; the wwn flag defaults to true) and exactly one child
    to the rd_dr node; the other nodes and the filesystem are untouched. *)
Theorem rd_dr_create_adds_one_pair (name size : string) (generate_wwn : option bool) (w : World) (i : Z) :
  ~ In name (map ui_name (children w rd_dr)) ->
  first_free rd_dr w i ->
  so_rejected (driver w)
    (mkStorageObject name (mkBackstore rd_dr i) None (Some size)
      (Some (ui_eval_param_bool generate_wwn true)) None) = None ->
  let so :=
    mkStorageObject name (mkBackstore rd_dr i) None (Some size)
      (Some (ui_eval_param_bool generate_wwn true)) None in
  let node := mkUIStorageObject name so in
  let r := UIRDDRBackstore.ui_command_create name size generate_wwn w in
  fst r = inr (Some node)
  /\ rts_backstores (snd r) = rts_backstores w ++ [mkBackstore rd_dr i]
  /\ rts_storage_objects (snd r) = rts_storage_objects w ++ [so]
  /\ children (snd r) rd_dr = children w rd_dr ++ [node]
  /\ (forall k', k' <> rd_dr -> children (snd r) k' = children w k')
  /\ fs (snd r) = fs w
  /\ (attached w -> hba_storage_objects (mkBackstore rd_dr i) (snd r) = [so]).
Proof.
  intros Hname Hfree Hacc so node r.
  apply assert_available_so_name_ok in Hname.
  apply next_hba_index_first_free in Hfree.
  destruct (rd_dr_create_accepted name size generate_wwn w i Hname Hfree Hacc)
    as (R & B & S & C & C' & F).
  fold so node r in R, B, S, C, C', F.
  repeat split; try assumption.
  intros Hatt. unfold hba_storage_objects. rewrite S.
  apply alone_on_new_backstore; try assumption; [| reflexivity].
  now apply fresh_backstore_not_live.
Qed.

Lemma rd_dr_create_adds_one_pair_witness :
  let so := mkStorageObject "rd0" (mkBackstore rd_dr 0) None (Some "100M") (Some true) None in
  let r := UIRDDRBackstore.ui_command_create "rd0" "100M" None (empty_world accepting) in
  ~ In "rd0" (map ui_name (children (empty_world accepting) rd_dr))
  /\ first_free rd_dr (empty_world accepting) 0
  /\ fst r = inr (Some (mkUIStorageObject "rd0" so))
  /\ rts_backstores (snd r) = [mkBackstore rd_dr 0]
  /\ rts_storage_objects (snd r) = [so].
Proof.
  intros so r.
  assert (Hname : ~ In "rd0"
                      (map ui_name (children (empty_world accepting) rd_dr)))
    by (intros []).
  assert (Hfree : first_free rd_dr (empty_world accepting) 0).
  { split; [unfold range_stop; lia |]. split; [intros [] | intros m Hm; lia]. }
  destruct (rd_dr_create_adds_one_pair "rd0" "100M" None (empty_world accepting) 0
              Hname Hfree eq_refl) as (R & B & S & _).
  split; [exact Hname |]. split; [exact Hfree |].
  split; [exact R |]. split; [exact B | exact S].
Defined.

(** X5. When the name is free among the children of the rd_mcp node, [i]
    is the first free rd_mcp index and rtslib accepts the object, the rd_mcp
    command returns the node of the new storage object and adds exactly one
    backstore, at index [i], exactly one storage object on it
    (an rd_mcp ramdisk of the given size; the wwn flag defaults to true) and exactly one child
    to the rd_mcp node; the other nodes and the filesystem are untouched. *)
Theorem rd_mcp_create_adds_one_pair (name size : string) (generate_wwn : option bool) (w : World) (i : Z) :
  ~ In name (map ui_name (children w rd_mcp)) ->
  first_free rd_mcp w i ->
  so_rejected (driver w)
    (mkStorageObject name (mkBackstore rd_mcp i) None (Some size)
      (Some (ui_eval_param_bool generate_wwn true)) None) = None ->
  let so :=
    mkStorageObject name (mkBackstore rd_mcp i) None (Some size)
      (Some (ui_eval_param_bool generate_wwn true)) None in
  let node := mkUIStorageObject name so in
  let r := UIRDMCPBackstore.ui_command_create name size generate_wwn w in
  fst r = inr (Some node)
  /\ rts_backstores (snd r) = rts_backstores w ++ [mkBackstore rd_mcp i]
  /\ rts_storage_objects (snd r) = rts_storage_objects w ++ [so]
  /\ children (snd r) rd_mcp = children w rd_mcp ++ [node]
  /\ (forall k', k' <> rd_mcp -> children (snd r) k' = children w k')
  /\ fs (snd r) = fs w
  /\ (attached w -> hba_storage_objects (mkBackstore rd_mcp i) (snd r) = [so]).
Proof.
  intros Hname Hfree Hacc so node r.
  apply assert_available_so_name_ok in Hname.
  apply next_hba_index_first_free in Hfree.
  destruct (rd_mcp_create_accepted name size generate_wwn w i Hname Hfree Hacc)
    as (R & B & S & C & C' & F).
  fold so node r in R, B, S, C, C', F.
  repeat split; try assumption.
  intros Hatt. unfold hba_storage_objects. rewrite S.
  apply alone_on_new_backstore; try assumption; [| reflexivity].
  now apply fresh_backstore_not_live.
Qed.

Lemma rd_mcp_create_adds_one_pair_witness :
  let so := mkStorageObject "rd0" (mkBackstore rd_mcp 0) None (Some "100M") (Some false) None in
  let r := UIRDMCPBackstore.ui_command_create "rd0" "100M" (Some false) (empty_world accepting) in
  ~ In "rd0" (map ui_name (children (empty_world accepting) rd_mcp))
  /\ first_free rd_mcp (empty_world accepting) 0
  /\ fst r = inr (Some (mkUIStorageObject "rd0" so))
  /\ rts_backstores (snd r) = [mkBackstore rd_mcp 0]
  /\ rts_storage_objects (snd r) = [so].
Proof.
  intros so r.
  assert (Hname : ~ In "rd0"
                      (map ui_name (children (empty_world accepting) rd_mcp)))
    by (intros []).
  assert (Hfree : first_free rd_mcp (empty_world accepting) 0).
  { split; [unfold range_stop; lia |]. split; [intros [] | intros m Hm; lia]. }
  destruct (rd_mcp_create_adds_one_pair "rd0" "100M" (Some false) (empty_world accepting) 0
              Hname Hfree eq_refl) as (R & B & S & _).
  split; [exact Hname |]. split; [exact Hfree |].
  split; [exact R |]. split; [exact B | exact S].
Defined.

(** X6. When the name is free among the children of the iblock node, [i]
    is the first free iblock index and rtslib accepts the object, the iblock
    command returns the node of the new storage object and adds exactly one
    backstore, at index [i], exactly one storage object on it
    (an iblock storage object for the given device; the wwn flag defaults to true) and exactly one child
    to the iblock node; the other nodes and the filesystem are untouched. *)
Theorem iblock_create_adds_one_pair (name dev : string) (generate_wwn : option bool) (w : World) (i : Z) :
  ~ In name (map ui_name (children w iblock)) ->
  first_free iblock w i ->
  so_rejected (driver w)
    (mkStorageObject name (mkBackstore iblock i) (Some dev) None
      (Some (ui_eval_param_bool generate_wwn true)) None) = None ->
  let so :=
    mkStorageObject name (mkBackstore iblock i) (Some dev) None
      (Some (ui_eval_param_bool generate_wwn true)) None in
  let node := mkUIStorageObject name so in
  let r := UIIBlockBackstore.ui_command_create name dev generate_wwn w in
  fst r = inr (Some node)
  /\ rts_backstores (snd r) = rts_backstores w ++ [mkBackstore iblock i]
  /\ rts_storage_objects (snd r) = rts_storage_objects w ++ [so]
  /\ children (snd r) iblock = children w iblock ++ [node]
  /\ (forall k', k' <> iblock -> children (snd r) k' = children w k')
  /\ fs (snd r) = fs w
  /\ (attached w -> hba_storage_objects (mkBackstore iblock i) (snd r) = [so]).
Proof.
  intros Hname Hfree Hacc so node r.
  apply assert_available_so_name_ok in Hname.
  apply next_hba_index_first_free in Hfree.
  destruct (iblock_create_accepted name dev generate_wwn w i Hname Hfree Hacc)
    as (R & B & S & C & C' & F).
  fold so node r in R, B, S, C, C', F.
  repeat split; try assumption.
  intros Hatt. unfold hba_storage_objects. rewrite S.
  apply alone_on_new_backstore; try assumption; [| reflexivity].
  now apply fresh_backstore_not_live.
Qed.

Lemma iblock_create_adds_one_pair_witness :
  let so := mkStorageObject "disk0" (mkBackstore iblock 0) (Some "/dev/sdb") None (Some true) None in
  let r := UIIBlockBackstore.ui_command_create "disk0" "/dev/sdb" None (empty_world accepting) in
  ~ In "disk0" (map ui_name (children (empty_world accepting) iblock))
  /\ first_free iblock (empty_world accepting) 0
  /\ fst r = inr (Some (mkUIStorageObject "disk0" so))
  /\ rts_backstores (snd r) = [mkBackstore iblock 0]
  /\ rts_storage_objects (snd r) = [so].
Proof.
  intros so r.
  assert (Hname : ~ In "disk0"
                      (map ui_name (children (empty_world accepting) iblock)))
    by (intros []).
  assert (Hfree : first_free iblock (empty_world accepting) 0).
  { split; [unfold range_stop; lia |]. split; [intros [] | intros m Hm; lia]. }
  destruct (iblock_create_adds_one_pair "disk0" "/dev/sdb" None (empty_world accepting) 0
              Hname Hfree eq_refl) as (R & B & S & _).
  split; [exact Hname |]. split; [exact Hfree |].
  split; [exact R |]. split; [exact B | exact S].
Defined.

(** X7. The pscsi, rd_dr, rd_mcp and iblock commands keep the rule that no
    live backstore is without a storage object: if it holds before the
    call, it holds after it, whether the call returns or raises. *)
Theorem create_keeps_no_orphans (w : World) :
  no_orphans w ->
  (forall name dev,
      no_orphans (snd (UIPSCSIBackstore.ui_command_create name dev w)))
  /\ (forall name size generate_wwn,
        no_orphans (snd (UIRDDRBackstore.ui_command_create name size
                           generate_wwn w)))
  /\ (forall name size generate_wwn,
        no_orphans (snd (UIRDMCPBackstore.ui_command_create name size
                           generate_wwn w)))
  /\ (forall name dev generate_wwn,
        no_orphans (snd (UIIBlockBackstore.ui_command_create name dev
                           generate_wwn w))).
Proof.
  intros H. repeat split; intros.
  - now apply pscsi_create_no_orphans.
  - now apply rd_dr_create_no_orphans.
  - now apply rd_mcp_create_no_orphans.
  - now apply iblock_create_no_orphans.
Qed.

Lemma shared_world_no_orphans : no_orphans shared_world.
Proof.
  intros b [<- | [<- | []]]; vm_compute; discriminate.
Qed.

Lemma create_keeps_no_orphans_witness :
  no_orphans shared_world
  /\ no_orphans (snd (UIRDDRBackstore.ui_command_create "d" "1M" None
                        shared_world))
  /\ no_orphans (snd (UIIBlockBackstore.ui_command_create "a" "/dev/sdb" None
                        shared_world)).
Proof.
  pose proof shared_world_no_orphans as H.
  destruct (create_keeps_no_orphans shared_world H) as (_ & Hrd & _ & Hib).
  split; [exact H |]. split; [apply Hrd | apply Hib].
Defined.

(** ** Invariants of the delete command *)




(** ** Rebuilding the tree *)

(** X9. [UIBackstores.refresh] rebuilds the backstore nodes from the RTS
    tree alone.  It leaves the RTS tree, the filesystem and the log
    untouched, and it returns or raises the ValueError of a node
    constructor; it returns exactly when for no plugin a storage object has
    as its stored name the display name of one that rtslib lists before it.
    Whatever the children were and whatever the outcome, every child shown
    afterwards is the node of a storage object of its plugin under its
    display name.  When it returns, every node shows exactly the storage
    objects of its plugin, and a second refresh returns too and shows the
    same. *)
Theorem UIBackstores_refresh_rebuilds (w : World) :
  let r := UIBackstores_refresh w in
  let all := rts_storage_objects w in
  rts_storage_objects (snd r) = all
  /\ rts_backstores (snd r) = rts_backstores w
  /\ fs (snd r) = fs w
  /\ log (snd r) = log w
  /\ returns_or_ValueError (fst r)
  /\ (fst r = inr tt <-> forall k, ~ label_clash k all)
  /\ (forall k c, In c (children (snd r) k) -> In c (nodes_of k all))
  /\ (fst r = inr tt ->
      (forall k, Permutation (children (snd r) k) (nodes_of k all))
      /\ fst (UIBackstores_refresh (snd r)) = inr tt
      /\ (forall k, Permutation
                      (children (snd (UIBackstores_refresh (snd r))) k)
                      (children (snd r) k))).
Proof.
  intros r all.
  pose proof (root_refresh_preserves rts_storage_objects
                (fun _ _ => eq_refl) w) as Hs.
  unfold root_refresh in Hs. fold r all in Hs.
  split; [exact Hs |].
  split; [exact (root_refresh_preserves rts_backstores (fun _ _ => eq_refl) w) |].
  split; [exact (root_refresh_preserves fs (fun _ _ => eq_refl) w) |].
  split; [exact (root_refresh_preserves log (fun _ _ => eq_refl) w) |].
  split; [exact (root_refresh_outcome w) |].
  split; [exact (UIBackstores_refresh_returns_iff w) |].
  split; [exact (UIBackstores_refresh_shown w) |].
  intros Hok.
  assert (Hok2 : fst (UIBackstores_refresh (snd r)) = inr tt).
  { apply UIBackstores_refresh_returns_iff. rewrite Hs.
    now apply UIBackstores_refresh_returns_iff. }
  split; [| split; [exact Hok2 |]]; intros k.
  - unfold r. rewrite (UIBackstores_refresh_children w k Hok).
    apply Permutation_refl.
  - rewrite (UIBackstores_refresh_children (snd r) k Hok2), Hs.
    unfold r. rewrite (UIBackstores_refresh_children w k Hok).
    apply Permutation_refl.
Qed.

Lemma clash_world_clashes : label_clash fileio (rts_storage_objects clash_world).
Proof.
  exists [], (named fileio "disk" 0), [], (named fileio "disk_0" 1),
         [named fileio "disk" 2].
  split; reflexivity.
Qed.

Lemma UIBackstores_refresh_rebuilds_witness :
  fst (UIBackstores_refresh legacy_world) = inr tt
  /\ Permutation (children (snd (UIBackstores_refresh legacy_world)) fileio)
                 [mkUIStorageObject "disk_0" (named fileio "disk" 0);
                  mkUIStorageObject "disk_1" (named fileio "disk" 1);
                  mkUIStorageObject "solo" (named fileio "solo" 2)]
  /\ label_clash fileio (rts_storage_objects clash_world)
  /\ (exists msg, fst (UIBackstores_refresh clash_world) = inl (ValueError msg))
  /\ rts_storage_objects (snd (UIBackstores_refresh clash_world))
     = rts_storage_objects clash_world.
Proof.
  destruct (UIBackstores_refresh_rebuilds legacy_world)
    as (_ & _ & _ & _ & _ & _ & _ & Hret).
  destruct (UIBackstores_refresh_rebuilds clash_world)
    as (Hs & _ & _ & _ & Hout & Hiff & _).
  assert (Hok : fst (UIBackstores_refresh legacy_world) = inr tt)
    by (vm_compute; reflexivity).
  split; [exact Hok |].
  split; [exact (proj1 (Hret Hok) fileio) |].
  split; [exact clash_world_clashes |].
  split; [| exact Hs].
  destruct Hout as [Hok' | Hraise]; [| exact Hraise].
  exfalso. exact (proj1 Hiff Hok' fileio clash_world_clashes).
Defined.

(** X10. After a delete that found its child, every child shown is the
    node of a storage object that is left, under its display name, so that
    the deleted object is shown nowhere; when the command returns, the
    whole tree has been rebuilt from what is left: every backstore node
    shows exactly the remaining storage objects of its plugin, and a name
    that is no longer shared has lost its suffix. *)
Theorem delete_rebuilds_tree (k : Plugin) (name : string) (w : World)
        (child : UIStorageObject) :
  find (fun c => String.eqb (ui_name c) name) (iter_children w k) = Some child ->
  let r := ui_command_delete k name w in
  let remaining :=
    filter (fun s => negb (StorageObject_eqb s (rtsnode child)))
           (rts_storage_objects w) in
  (forall k' c, In c (children (snd r) k') ->
                In c (nodes_of k' remaining)
                /\ StorageObject_eqb (rtsnode c) (rtsnode child) = false)
  /\ (fst r = inr tt ->
      forall k', Permutation (children (snd r) k') (nodes_of k' remaining)).
Proof.
  intros Hfind r remaining. unfold r.
  rewrite (ui_command_delete_known k name child w Hfind).
  destruct (after_delete_rts k name child w) as (Hs & _).
  fold remaining in Hs. unfold root_refresh. split.
  - intros k' c Hc. apply UIBackstores_refresh_shown in Hc.
    rewrite Hs in Hc. split; [exact Hc |].
    apply in_nodes_of in Hc. destruct Hc as (so & Hso & ->).
    unfold of_plugin in Hso. apply filter_In in Hso. destruct Hso as [Hso _].
    unfold remaining in Hso. apply filter_In in Hso. destruct Hso as [_ Hso].
    cbn [rtsnode node_of]. now apply negb_true_iff.
  - intros Hok k'. rewrite (UIBackstores_refresh_children _ k' Hok), Hs.
    apply Permutation_refl.
Qed.

Lemma delete_rebuilds_tree_witness :
  find (fun c => String.eqb (ui_name c) "disk_1") (iter_children legacy_world fileio)
    = Some (mkUIStorageObject "disk_1" (named fileio "disk" 1))
  /\ fst (ui_command_delete fileio "disk_1" legacy_world) = inr tt
  /\ Permutation
       (children (snd (ui_command_delete fileio "disk_1" legacy_world)) fileio)
       [mkUIStorageObject "disk" (named fileio "disk" 0);
        mkUIStorageObject "solo" (named fileio "solo" 2)]
  /\ Permutation
       (children (snd (ui_command_delete fileio "disk_1" legacy_world)) iblock)
       [mkUIStorageObject "disk" (named iblock "disk" 0)].
Proof.
  assert (Hfind : find (fun c => String.eqb (ui_name c) "disk_1")
                       (iter_children legacy_world fileio)
                  = Some (mkUIStorageObject "disk_1" (named fileio "disk" 1)))
    by reflexivity.
  assert (Hok : fst (ui_command_delete fileio "disk_1" legacy_world) = inr tt)
    by (vm_compute; reflexivity).
  destruct (delete_rebuilds_tree fileio "disk_1" legacy_world _ Hfind)
    as (_ & Hall).
  split; [exact Hfind |]. split; [exact Hok |].
  split; [exact (Hall Hok fileio) | exact (Hall Hok iblock)].
Defined.

(** ** The suffix tells shared names apart *)

Lemma fmt_d_inj (a b : Z) : fmt_d a = fmt_d b -> a = b.
Proof.
  unfold fmt_d. intros E.
  assert (P : forall z, NilZero.int_of_string (NilZero.string_of_int (Z.to_int z))
                        = Some (Z.to_int z)).
  { intros z. apply NilZero.isi.
    - destruct z; cbn; try discriminate; intros H; injection H as H;
        exact (DecimalPos.Unsigned.to_uint_nonnil _ H).
    - destruct z; cbn; try discriminate; intros H; injection H as H;
        exact (DecimalPos.Unsigned.to_uint_nonnil _ H). }
  apply DecimalZ.to_int_inj.
  pose proof (P a) as Pa. rewrite E, P in Pa. now injection Pa.
Qed.

Lemma append_cancel_l (a x y : string) :
  (a ++ x = a ++ y)%string -> x = y.
Proof.
  induction a as [| c a IH]; cbn; [trivial |].
  intros E. injection E as E. now apply IH.
Qed.

Lemma append_empty_r (a : string) : (a ++ "")%string = a.
Proof. induction a as [| c a IH]; cbn; [reflexivity | now rewrite IH]. Qed.

Lemma two_in_filter {A} (p : A -> bool) (l : list A) (x y : A) :
  In x l -> In y l -> x <> y -> p x = true -> p y = true ->
  (2 <= List.length (filter p l))%nat.
Proof.
  intros Hx Hy Hne Px Py.
  assert (Hnd : NoDup [x; y]).
  { constructor; [intros [E | []]; now apply Hne | constructor; [intros [] | constructor]]. }
  assert (Hincl : incl [x; y] (filter p l)).
  { intros z [<- | [<- | []]]; apply filter_In; auto. }
  exact (NoDup_incl_length Hnd Hincl).
Qed.

(** X11. Two storage objects of the same kind that carry the same stored
    name but sit on backstores with different indexes are displayed under
    different names, and neither is displayed under the bare stored name. *)
Theorem dedup_so_name_separates (so1 so2 : StorageObject) (w : World) :
  In so1 (rts_storage_objects w) ->
  In so2 (rts_storage_objects w) ->
  bs_plugin (so_backstore so1) = bs_plugin (so_backstore so2) ->
  so_name so1 = so_name so2 ->
  bs_index (so_backstore so1) <> bs_index (so_backstore so2) ->
  fst (dedup_so_name so1 w) <> fst (dedup_so_name so2 w)
  /\ fst (dedup_so_name so1 w) <> inr (so_name so1)
  /\ fst (dedup_so_name so2 w) <> inr (so_name so2).
Proof.
  intros H1 H2 Hk Hn Hi.
  assert (Hne : so1 <> so2) by (intros ->; now apply Hi).
  assert (C1 : (2 <= carriers so1 (rts_storage_objects w))%nat).
  { unfold carriers. apply (two_in_filter _ _ so1 so2); try assumption.
    - now rewrite Plugin_eqb_refl, String.eqb_refl.
    - rewrite <- Hk, Plugin_eqb_refl, <- Hn, String.eqb_refl. reflexivity. }
  assert (C2 : (2 <= carriers so2 (rts_storage_objects w))%nat).
  { unfold carriers. apply (two_in_filter _ _ so1 so2); try assumption.
    - rewrite Hk, Plugin_eqb_refl, Hn, String.eqb_refl. reflexivity.
    - now rewrite Plugin_eqb_refl, String.eqb_refl. }
  rewrite !dedup_so_name_run. cbn [fst]. unfold displayName.
  destruct (Nat.leb_spec (carriers so1 (rts_storage_objects w)) 1) as [L1 | _];
    [lia |].
  destruct (Nat.leb_spec (carriers so2 (rts_storage_objects w)) 1) as [L2 | _];
    [lia |].
  split; [| split].
  - intros E. injection E as E. rewrite <- Hn in E.
    apply append_cancel_l in E. injection E as E.
    apply fmt_d_inj in E. contradiction.
  - intros E. injection E as E.
    rewrite <- (append_empty_r (so_name so1)) in E at 2.
    apply append_cancel_l in E. discriminate E.
  - intros E. injection E as E.
    rewrite <- (append_empty_r (so_name so2)) in E at 2.
    apply append_cancel_l in E. discriminate E.
Qed.

Lemma dedup_so_name_separates_witness :
  In (named fileio "disk" 0) (rts_storage_objects legacy_world)
  /\ In (named fileio "disk" 1) (rts_storage_objects legacy_world)
  /\ fst (dedup_so_name (named fileio "disk" 0) legacy_world)
     <> fst (dedup_so_name (named fileio "disk" 1) legacy_world).
Proof.
  assert (H1 : In (named fileio "disk" 0) (rts_storage_objects legacy_world))
    by (left; reflexivity).
  assert (H2 : In (named fileio "disk" 1) (rts_storage_objects legacy_world))
    by (right; left; reflexivity).
  split; [exact H1 |]. split; [exact H2 |].
  apply (dedup_so_name_separates _ _ legacy_world H1 H2 eq_refl eq_refl).
  cbn. lia.
Defined.

(** ** Completion, and the summaries *)

Lemma filter_perm {A} (p : A -> bool) (l l' : list A) :
  Permutation l l' -> Permutation (filter p l) (filter p l').
Proof.
  induction 1 as [| x l l' _ IH | x y l | l l' l'' _ IH1 _ IH2]; cbn [filter].
  - apply Permutation_refl.
  - destruct (p x); [apply perm_skip |]; exact IH.
  - destruct (p x), (p y); try apply Permutation_refl. apply perm_swap.
  - eapply perm_trans; eassumption.
Qed.

(** X12. Completion of the [name] parameter of delete proposes the names
    of the children of the node that start with the typed text, all of them
    and nothing else, in the order in which the set of children yields
    them; when exactly one name starts with the text, it is proposed
    followed by a space.  For any other parameter nothing is proposed, and
    the world is never changed. *)
Theorem ui_complete_delete_candidates (self : Plugin)
        (parameters : list (string * string)) (text current_param : string)
        (w : World) :
  let names := map ui_name (children w self) in
  let candidates := filter (fun name => String.prefix text name) names in
  exists r,
    ui_complete_delete self parameters text current_param w = (inr r, w)
    /\ (current_param <> "name" -> r = [])
    /\ (current_param = "name" ->
        match candidates with
        | [n] => r = [(n ++ " ")%string]
        | _ => Permutation r candidates
        end).
Proof.
  intros names candidates.
  unfold ui_complete_delete, bind, get. cbv beta iota zeta.
  destruct (String.eqb_spec current_param "name") as [-> | Hne].
  - set (shown := filter (fun name => String.prefix text name)
                    (map ui_name (iter_children w self))).
    assert (P : Permutation shown candidates).
    { apply filter_perm, Permutation_map, iter_children_perm. }
    destruct candidates as [| n [| n' rest]] eqn:E.
    + apply Permutation_sym, Permutation_nil in P. rewrite P.
      eexists. split; [reflexivity |]. split; [congruence |].
      intros _. apply Permutation_refl.
    + apply Permutation_sym, Permutation_length_1_inv in P. rewrite P.
      eexists. split; [reflexivity |]. split; [congruence | reflexivity].
    + pose proof (Permutation_length P) as L. cbn [List.length] in L.
      destruct shown as [| s [| s' rest']] eqn:Es; try discriminate L.
      eexists. split; [reflexivity |]. split; [congruence |].
      intros _. exact P.
  - eexists. split; [reflexivity |]. split; [reflexivity | congruence].
Qed.

Lemma ui_complete_delete_candidates_witness :
  ui_complete_delete fileio [] "so" "name" legacy_world
    = (inr ["solo "], legacy_world)
  /\ (exists r, ui_complete_delete fileio [] "disk" "name" legacy_world
                = (inr r, legacy_world)
                /\ Permutation r ["disk_0"; "disk_1"])
  /\ ui_complete_delete fileio [] "disk" "size" legacy_world
    = (inr [], legacy_world).
Proof.
  destruct (ui_complete_delete_candidates fileio [] "so" "name" legacy_world)
    as (r1 & E1 & _ & H1).
  destruct (ui_complete_delete_candidates fileio [] "disk" "name" legacy_world)
    as (r2 & E2 & _ & H2).
  destruct (ui_complete_delete_candidates fileio [] "disk" "size" legacy_world)
    as (r3 & E3 & H3 & _).
  split; [| split].
  - rewrite E1. f_equal. f_equal. exact (H1 eq_refl).
  - exists r2. split; [exact E2 | exact (H2 eq_refl)].
  - rewrite E3. f_equal. f_equal. apply H3. discriminate.
Defined.

(** X13. When the refresh of the backstore nodes returns, the summary of
    each node then shows the number of storage objects of its kind that
    rtslib reports, with the singular wording for none and for one, and
    carries no health mark. *)
Theorem UIBackstore_summary_counts (k : Plugin) (w : World) :
  fst (UIBackstores_refresh w) = inr tt ->
  let n := Z.of_nat (List.length (of_plugin k (rts_storage_objects w))) in
  fst ((UIBackstores_refresh ;; UIBackstore_summary k) w)
  = inr ((fmt_d n ++ (if Z_le_dec n 1 then " Storage Object"
                      else " Storage Objects"))%string, None).
Proof.
  intros Hok n.
  rewrite (bind_succeeds _ _ _ tt Hok).
  unfold UIBackstore_summary, bind, get, ret. cbv beta iota zeta. cbn [fst].
  rewrite (UIBackstores_refresh_children w k Hok). unfold nodes_of.
  rewrite length_map. fold n.
  destruct (Z.ltb_spec 1 n), (Z_le_dec n 1); try lia; reflexivity.
Qed.

Lemma UIBackstore_summary_counts_witness :
  fst (UIBackstores_refresh legacy_world) = inr tt
  /\ fst ((UIBackstores_refresh ;; UIBackstore_summary fileio) legacy_world)
     = inr ("3 Storage Objects", None)
  /\ fst ((UIBackstores_refresh ;; UIBackstore_summary iblock) legacy_world)
     = inr ("1 Storage Object", None)
  /\ fst ((UIBackstores_refresh ;; UIBackstore_summary pscsi) legacy_world)
     = inr ("0 Storage Object", None).
Proof.
  assert (Hok : fst (UIBackstores_refresh legacy_world) = inr tt)
    by (vm_compute; reflexivity).
  split; [exact Hok |].
  split; [exact (UIBackstore_summary_counts fileio legacy_world Hok) |].
  split; [exact (UIBackstore_summary_counts iblock legacy_world Hok) |].
  exact (UIBackstore_summary_counts pscsi legacy_world Hok).
Defined.

Lemma UIStorageObject_summary_health_core (attrs : Attributes) (self : UIStorageObject) (w : World) :
  let so := rtsnode self in
  let path := if String.prefix "rd" (plugin_name (bs_plugin (so_backstore so)))
              then Some "ramdisk" else udev_path attrs so in
  exists msg healthy,
    UIStorageObject_summary attrs self w = (inr (msg, healthy), w)
    /\ (healthy = true <->
        truthy path = true /\ so_name so = ui_name self
        /\ (List.length (hba_storage_objects (so_backstore so) w) <= 1)%nat)
    /\ (healthy = true ->
        msg = (fmt_s path ++ " " ++ human_size attrs so ++ status attrs so)%string).
Proof.
  intros so path.
  unfold UIStorageObject_summary, bind, get, ret. cbv beta iota zeta.
  fold so. fold path.
  destruct (truthy path) eqn:Ep;
    destruct (String.eqb_spec (so_name so) (ui_name self)) as [En | En];
    destruct (Nat.ltb_spec 1 (List.length
                (hba_storage_objects (so_backstore so) w))) as [El | El];
    cbn [app]; eexists; eexists; (split; [reflexivity |]);
    (split; [split; [intros H | intros (H1 & H2 & H3)] | intros H]);
    first [ discriminate | contradiction | reflexivity | (exfalso; lia)
          | (repeat split; (assumption || reflexivity)) ].
Qed.

(** X14. The summary of a storage object node reports it healthy exactly
    when it has a backing path (ramdisks always do), its displayed name is
    its stored name, and it does not share its backstore with another
    storage object; the text of a healthy node is the path, the size and the
    status.  Taking the summary changes nothing. *)
Theorem UIStorageObject_summary_health (attrs : Attributes)
        (self : UIStorageObject) (w : World) :
  let so := rtsnode self in
  let path := match bs_plugin (so_backstore so) with
              | rd_dr | rd_mcp => Some "ramdisk"
              | _ => udev_path attrs so
              end in
  exists msg healthy,
    UIStorageObject_summary attrs self w = (inr (msg, healthy), w)
    /\ (healthy = true <->
        truthy path = true /\ so_name so = ui_name self
        /\ (List.length (hba_storage_objects (so_backstore so) w) <= 1)%nat)
    /\ (healthy = true ->
        msg = (fmt_s path ++ " " ++ human_size attrs so ++ status attrs so)%string).
Proof.
  intros so path.
  destruct (UIStorageObject_summary_health_core attrs self w) as (msg & healthy & H).
  exists msg, healthy.
  replace path with
    (if String.prefix "rd" (plugin_name (bs_plugin (so_backstore so)))
     then Some "ramdisk" else udev_path attrs so)
    by (unfold path; destruct (bs_plugin (so_backstore so)); reflexivity).
  exact H.
Qed.

Lemma displayName_bare (so : StorageObject) (sos : list StorageObject) :
  so_name so = displayName so sos <-> (carriers so sos <= 1)%nat.
Proof.
  unfold displayName.
  destruct (Nat.leb_spec (carriers so sos) 1) as [L | L].
  - split; [intros _; exact L | reflexivity].
  - split; [| lia]. intros E. exfalso.
    rewrite <- (append_empty_r (so_name so)) in E at 1.
    apply append_cancel_l in E. discriminate E.
Qed.

(** X15. For a node built by a refresh, the summary reports it healthy
    exactly when it has a backing path (ramdisks always do), no other
    storage object of its kind carries the same stored name, and no other
    storage object sits on its backstore. *)
Theorem refreshed_node_health (attrs : Attributes) (k : Plugin)
        (self : UIStorageObject) (w : World) :
  In self (children (snd (UIBackstores_refresh w)) k) ->
  let w' := snd (UIBackstores_refresh w) in
  let so := rtsnode self in
  let path := match k with
              | rd_dr | rd_mcp => Some "ramdisk"
              | _ => udev_path attrs so
              end in
  exists msg healthy,
    UIStorageObject_summary attrs self w' = (inr (msg, healthy), w')
    /\ (healthy = true <->
        truthy path = true
        /\ (carriers so (rts_storage_objects w) <= 1)%nat
        /\ (List.length (hba_storage_objects (so_backstore so) w) <= 1)%nat).
Proof.
  intros Hin w' so path.
  apply UIBackstores_refresh_shown in Hin. unfold nodes_of in Hin.
  apply in_map_iff in Hin. destruct Hin as (so0 & <- & Hso).
  unfold of_plugin in Hso. apply filter_In in Hso. destruct Hso as [_ Hk].
  apply Plugin_eqb_eq in Hk. rename Hk into Ek.
  cbn [rtsnode] in so. subst so.
  destruct (UIStorageObject_summary_health_core attrs
              (mkUIStorageObject (displayName so0 (rts_storage_objects w)) so0) w')
    as (msg & healthy & E & Hiff & _).
  cbn [rtsnode ui_name] in E, Hiff. rewrite Ek in Hiff.
  exists msg, healthy. split; [exact E |].
  assert (Hs : hba_storage_objects (so_backstore so0) w'
               = hba_storage_objects (so_backstore so0) w).
  { pose proof (root_refresh_preserves rts_storage_objects
                  (fun _ _ => eq_refl) w) as P.
    unfold root_refresh in P. unfold hba_storage_objects, w'. now rewrite P. }
  rewrite Hs, displayName_bare in Hiff.
  replace path with
    (if String.prefix "rd" (plugin_name k)
     then Some "ramdisk" else udev_path attrs so0)
    by (unfold path; destruct k; reflexivity).
  exact Hiff.
Qed.

Lemma refreshed_node_health_witness :
  let solo := mkUIStorageObject "solo" (named fileio "solo" 2) in
  let w' := snd (UIBackstores_refresh legacy_world) in
  In solo (children w' fileio)
  /\ exists msg, UIStorageObject_summary plain_attributes solo w' = (inr (msg, true), w').
Proof.
  intros solo w'.
  assert (Hin : In solo (children w' fileio)).
  { vm_compute. do 2 right. left. reflexivity. }
  split; [exact Hin |].
  destruct (refreshed_node_health plain_attributes fileio solo legacy_world Hin)
    as (msg & healthy & E & Hiff).
  exists msg. fold w' in E. rewrite E. f_equal. f_equal. f_equal.
  apply Hiff. vm_compute. repeat split; auto.
Defined.

(** ** The backing file of a fileio storage object *)

Lemma only_file_refl (filename : string) (w : World) : only_file filename w w.
Proof. repeat split. Qed.

Lemma only_file_trans (filename : string) (w1 w2 w3 : World) :
  only_file filename w1 w2 -> only_file filename w2 w3 ->
  only_file filename w1 w3.
Proof.
  intros (A1 & A2 & A3 & A4 & A5) (B1 & B2 & B3 & B4 & B5).
  repeat split; try congruence.
  intros p Hp. rewrite B5, A5 by exact Hp. reflexivity.
Qed.

Lemma only_file_set_file (filename : string) (node : option FNode) (w : World) :
  only_file filename w (set_file filename node w).
Proof.
  repeat split. intros p Hp. unfold set_file. cbn [fs with_fs].
  destruct (String.eqb_spec p filename); [contradiction | reflexivity].
Qed.

Lemma only_file_log (filename : string) (l : list (Level * string)) (w : World) :
  only_file filename w (with_log l w).
Proof. repeat split. Qed.

Lemma f_write_only_file (filename : string) (data : list Byte.byte) (w : World) :
  only_file filename w (snd (f_write filename data w)).
Proof.
  unfold f_write, bind, get, raise, modify, ret. cbv beta iota zeta.
  destruct (io_error _ _); cbn [snd]; [apply only_file_refl |].
  destruct (fs w filename) as [[d | | |] |]; cbn [snd];
    first [apply only_file_set_file | apply only_file_refl].
Qed.

Lemma f_close_snd (filename : string) (w : World) : snd (f_close filename w) = w.
Proof.
  unfold f_close, bind, get. cbv beta iota. destruct (io_error _ _); reflexivity.
Qed.

Lemma open_w_only_file (filename : string) (w : World) :
  only_file filename w (snd (open_w filename w)).
Proof.
  unfold open_w, bind, get, raise, modify, ret. cbv beta iota.
  destruct (fs w filename) as [[d | | |] |]; cbn [snd];
    try apply only_file_refl;
    destruct (io_error _ _); cbn [snd];
    first [apply only_file_set_file | apply only_file_refl].
Qed.

Lemma os_ftruncate_only_file (filename : string) (size : Z) (w : World) :
  only_file filename w (snd (os_ftruncate filename size w)).
Proof.
  unfold os_ftruncate, bind, get, raise, modify. cbv beta iota zeta.
  destruct (_ || _); [apply only_file_refl |].
  destruct (size <? 0)%Z; [apply only_file_refl |]. cbv beta iota.
  destruct (io_error _ _); cbn [snd]; [apply only_file_refl |].
  destruct (fs w filename) as [[d | | |] |]; cbn [snd];
    first [apply only_file_set_file | apply only_file_refl].
Qed.

Lemma write_loop_only_file (filename : string) (n : nat) :
  forall (size : Z) (w : World),
    (Z.to_nat size <= n)%nat ->
    only_file filename w (snd (write_loop filename size w)).
Proof.
  induction n as [| n IH]; intros size w Hn;
    rewrite write_loop_unfold; destruct (Z_lt_dec 0 size) as [Hpos | Hneg];
    try apply only_file_refl; [lia |].
  remember (Z.min size 1024) as write_size eqn:Ews.
  assert (Hws : 0 < write_size <= size) by lia. clear Ews.
  pose proof (f_write_only_file filename
                (repeat Byte.x00 (Z.to_nat write_size)) w) as H1.
  rewrite bind_unfold.
  destruct (f_write filename (repeat Byte.x00 (Z.to_nat write_size)) w)
    as [[e | []] w1]; cbn [snd] in *; [exact H1 |].
  apply (only_file_trans filename w w1); [exact H1 |].
  apply IH. lia.
Qed.

(** Whatever happens, [_create_file] touches nothing but the file it is
    given and the log. *)
Lemma create_file_only_file (filename : string) (size : Z) (sparse : bool)
      (w : World) :
  only_file filename w (snd (_create_file filename size sparse w)).
Proof.
  unfold _create_file. rewrite bind_unfold.
  pose proof (open_w_only_file filename w) as H0.
  destruct (open_w filename w) as [[e | []] w0]; cbn [snd] in H0; [exact H0 |].
  apply (only_file_trans filename w w0); [exact H0 |]. clear H0.
  set (body := (if sparse
                then os_ftruncate filename size
                else shell_log Info ("Writing " ++ fmt_d size ++ " bytes")%string ;;
                     write_loop filename size) : M unit).
  set (handler := (f_close filename ;; os_remove filename ;;
                   raise (ExecutionError "Could not expand file to size")) : M unit).
  assert (H1 : only_file filename w0 (snd (body w0))).
  { unfold body. destruct sparse; [apply os_ftruncate_only_file |].
    rewrite (bind_run (shell_log _ _) _ w0 _ tt eq_refl).
    eapply only_file_trans; [apply only_file_log |].
    apply (write_loop_only_file filename (Z.to_nat size)). lia. }
  assert (H2 : forall w1, only_file filename w0 w1 ->
                          only_file filename w0 (snd (handler w1))).
  { intros w1 Hw1. unfold handler. rewrite bind_unfold.
    pose proof (f_close_snd filename w1) as Hc.
    destruct (f_close filename w1) as [[e' | []] w2]; cbn [snd] in *;
      subst w2; [exact Hw1 |].
    unfold os_remove, bind, get, modify, raise. cbv beta iota.
    destruct (io_error _ _); cbn [snd]; [exact Hw1 |].
    eapply only_file_trans; [exact Hw1 | apply only_file_set_file]. }
  rewrite bind_unfold. unfold try_except_IOError.
  destruct (body w0) as [[e | []] w1]; cbn [snd] in H1.
  - destruct e; try exact H1.
    specialize (H2 w1 H1).
    destruct (handler w1) as [[e' | []] w2]; cbn [snd] in H2; [exact H2 |].
    now rewrite f_close_snd.
  - now rewrite f_close_snd.
Qed.

(** The loop when the write that finds [1024 * n] more bytes in the file
    is the first to fail. *)
Lemma write_loop_fails (filename msg : string) (n : nat) :
  forall (size : Z) (w : World) (old : list Byte.byte),
    fs w filename = Some (RegularFile old) ->
    1024 * Z.of_nat n < size ->
    (forall j, (j < n)%nat ->
       io_error (driver w)
         (Write filename (Z.of_nat (List.length old) + 1024 * Z.of_nat j)) = None) ->
    io_error (driver w)
      (Write filename (Z.of_nat (List.length old) + 1024 * Z.of_nat n)) = Some msg ->
    fst (write_loop filename size w) = inl (IOError msg)
    /\ fs (snd (write_loop filename size w)) filename
       = Some (RegularFile (old ++ repeat Byte.x00 (1024 * n)))
    /\ driver (snd (write_loop filename size w)) = driver w.
Proof.
  induction n as [| n IH]; intros size w old Hfs Hsize Hok Hno;
    rewrite write_loop_unfold; (destruct (Z_lt_dec 0 size) as [_ | Hneg]; [| lia]).
  - replace (Z.of_nat (List.length old) + 1024 * Z.of_nat 0)
      with (Z.of_nat (List.length old)) in Hno by lia.
    rewrite (bind_raise _ _ _ _ _ (f_write_fails filename old _ msg w Hfs Hno)).
    cbn [fst snd repeat Nat.mul]. rewrite app_nil_r. auto.
  - replace (Z.min size 1024) with 1024 by lia.
    assert (H0 : io_error (driver w)
                   (Write filename (Z.of_nat (List.length old))) = None).
    { specialize (Hok 0%nat (Nat.lt_0_succ n)).
      now replace (Z.of_nat (List.length old) + 1024 * Z.of_nat 0)
        with (Z.of_nat (List.length old)) in Hok by lia. }
    rewrite (bind_run _ _ _ _ _ (f_write_run filename old _ w Hfs H0)).
    set (old' := old ++ repeat Byte.x00 (Z.to_nat 1024)).
    set (w1 := set_file filename (Some (RegularFile old')) w).
    assert (L : Z.of_nat (List.length old') = Z.of_nat (List.length old) + 1024).
    { unfold old'. rewrite length_app, repeat_length. lia. }
    destruct (IH (size - 1024) w1 old') as (H1 & H2 & H3).
    + apply fs_set_file_same.
    + lia.
    + intros j Hj. change (driver w1) with (driver w). rewrite L.
      replace (Z.of_nat (List.length old) + 1024 + 1024 * Z.of_nat j)
        with (Z.of_nat (List.length old) + 1024 * Z.of_nat (S j)) by lia.
      apply Hok. lia.
    + change (driver w1) with (driver w). rewrite L.
      replace (Z.of_nat (List.length old) + 1024 + 1024 * Z.of_nat n)
        with (Z.of_nat (List.length old) + 1024 * Z.of_nat (S n)) by lia.
      exact Hno.
    + split; [exact H1 |]. split; [| exact H3].
      rewrite H2. unfold old'. rewrite <- app_assoc, <- repeat_app.
      replace (1024 * S n)%nat with (Z.to_nat 1024 + 1024 * n)%nat by lia.
      reflexivity.
Qed.

(** X16. When the path names nothing yet or a regular file, the size is
    not negative (and, for a sparse file, below 2^63) and the operating
    system carries out every call, [_create_file] returns and leaves at the
    path a regular file of exactly [size] zero bytes, whatever the file
    held before; no other path, no backstore, no storage object and no UI
    node is touched. *)
Theorem create_file_makes_zero_file (filename : string) (size : Z)
        (sparse : bool) (w : World) :
  new_or_regular filename w ->
  0 <= size ->
  (sparse = true -> size < 2 ^ 63) ->
  quiet w ->
  exists w',
    _create_file filename size sparse w = (inr tt, w')
    /\ fs w' filename = Some (RegularFile (repeat Byte.x00 (Z.to_nat size)))
    /\ only_file filename w w'.
Proof.
  intros Hnode Hsize Hfit Hq.
  destruct (create_file_exact_size filename size sparse w Hnode Hsize Hfit Hq)
    as (w' & E & Hfile).
  exists w'. split; [exact E |]. split; [exact Hfile |].
  replace w' with (snd (_create_file filename size sparse w))
    by (rewrite E; reflexivity).
  apply create_file_only_file.
Qed.

Lemma file_world_regular (d : Driver) :
  new_or_regular "/tmp/disk.img" (file_world d).
Proof. right. eexists. reflexivity. Qed.

Lemma create_file_makes_zero_file_witness :
  exists w',
    _create_file "/tmp/disk.img" 2048 false (file_world accepting) = (inr tt, w')
    /\ fs w' "/tmp/disk.img" = Some (RegularFile (repeat Byte.x00 2048))
    /\ only_file "/tmp/disk.img" (file_world accepting) w'.
Proof.
  apply (create_file_makes_zero_file "/tmp/disk.img" 2048 false
           (file_world accepting)).
  - apply file_world_regular.
  - lia.
  - discriminate.
  - intros c. reflexivity.
Defined.

(** X17. What [_create_file] does when writing the file out fails, on a
    path that names nothing yet or a regular file and can be opened.  When
    a write raises IOError, the file is closed and then removed, and the
    ExecutionError [Could not expand file to size] is raised; if the closing
    raises as well, that IOError goes to the caller, and if the removal is
    refused, that OSError does, and in both cases the file is left behind.
    When every write passes and only the closing at the end raises, that
    IOError goes to the caller as it is and the file is left behind. *)
Theorem create_file_failures (filename : string) (size : Z) (w : World) :
  new_or_regular filename w ->
  io_error (driver w) (Open filename) = None ->
  0 < size ->
  let r := _create_file filename size false w in
  (forall (n : nat) (msg : string),
      1024 * Z.of_nat n < size ->
      (forall j, (j < n)%nat ->
         io_error (driver w) (Write filename (1024 * Z.of_nat j)) = None) ->
      io_error (driver w) (Write filename (1024 * Z.of_nat n)) = Some msg ->
      match io_error (driver w) (Close filename (1024 * Z.of_nat n)),
            io_error (driver w) (Remove filename) with
      | None, None =>
          fst r = inl (ExecutionError "Could not expand file to size")
          /\ os_path_exists filename (snd r) = false
      | None, Some msg' =>
          fst r = inl (OSError msg')
          /\ os_path_isfile filename (snd r) = true
      | Some msg', _ =>
          fst r = inl (IOError msg')
          /\ os_path_isfile filename (snd r) = true
      end)
  /\ (forall msg : string,
        (forall len, io_error (driver w) (Write filename len) = None) ->
        io_error (driver w) (Close filename size) = Some msg ->
        fst r = inl (IOError msg)
        /\ os_path_isfile filename (snd r) = true).
Proof.
  intros Hnode Hopen Hsize r. unfold r, _create_file.
  rewrite (bind_run _ _ _ _ _ (open_w_run filename w Hnode Hopen)).
  set (w0 := set_file filename (Some (RegularFile [])) w).
  set (w1 := with_log (log w0 ++ [(Info, ("Writing " ++ fmt_d size
                                           ++ " bytes")%string)]) w0).
  assert (Hfs1 : fs w1 filename = Some (RegularFile []))
    by apply fs_set_file_same.
  set (handler := (f_close filename ;; os_remove filename ;;
                   raise (ExecutionError "Could not expand file to size")) : M unit).
  assert (Hbody : forall res w2,
            write_loop filename size w1 = (res, w2) ->
            try_except_IOError
              (shell_log Info ("Writing " ++ fmt_d size ++ " bytes")%string ;;
               write_loop filename size) handler w0
            = match res with
              | inl (IOError _) => handler w2
              | _ => (res, w2)
              end).
  { intros res w2 E. unfold try_except_IOError.
    rewrite (bind_run (shell_log _ _) _ w0 w1 tt eq_refl), E.
    destruct res as [[] | []]; reflexivity. }
  split.
  - intros n msg Hn Hok Hno.
    destruct (write_loop_fails filename msg n size w1 [] Hfs1 Hn)
      as (H1 & H2 & H3).
    { intros j Hj. cbn [List.length]. change (driver w1) with (driver w).
      rewrite Z.add_0_l. now apply Hok. }
    { cbn [List.length]. change (driver w1) with (driver w).
      rewrite Z.add_0_l. exact Hno. }
    cbn [app] in H2.
    destruct (write_loop filename size w1) as [res w2] eqn:E.
    cbn [fst snd] in H1, H2, H3. subst res.
    rewrite bind_unfold, (Hbody _ _ eq_refl). unfold handler.
    rewrite bind_unfold, (f_close_run filename _ w2 H2), H3.
    change (driver w1) with (driver w).
    rewrite repeat_length.
    replace (Z.of_nat (1024 * n)) with (1024 * Z.of_nat n) by lia.
    assert (Hfile : os_path_isfile filename w2 = true)
      by (unfold os_path_isfile; now rewrite H2).
    destruct (io_error (driver w) (Close filename (1024 * Z.of_nat n))).
    + split; [reflexivity | exact Hfile].
    + unfold os_remove, modify, raise, bind, get. cbv beta iota. rewrite H3.
      change (driver w1) with (driver w).
      destruct (io_error (driver w) (Remove filename)); cbn [fst snd].
      * split; [reflexivity | exact Hfile].
      * split; [reflexivity |].
        unfold os_path_exists. now rewrite fs_set_file_same.
  - intros msg Hok Hno.
    destruct (write_loop_appends filename (Z.to_nat size) size w1 []
                (le_n _) Hfs1) as (H1 & H2 & H3).
    { intros len. change (driver w1) with (driver w). apply Hok. }
    cbn [app] in H2.
    destruct (write_loop filename size w1) as [res w2] eqn:E.
    cbn [fst snd] in H1, H2, H3. subst res.
    rewrite bind_unfold, (Hbody _ _ eq_refl).
    rewrite (f_close_run filename _ w2 H2), H3.
    change (driver w1) with (driver w).
    rewrite repeat_length, Z2Nat.id by lia.
    rewrite Hno. split; [reflexivity |].
    cbn [snd]. unfold os_path_isfile. now rewrite H2.
Qed.

Lemma create_file_failures_witness :
  (let r := _create_file "/tmp/disk.img" 4096 false (file_world (full_at 2048)) in
   fst r = inl (ExecutionError "Could not expand file to size")
   /\ os_path_exists "/tmp/disk.img" (snd r) = false)
  /\ (let r := _create_file "/tmp/disk.img" 4096 false (file_world full_on_close) in
      fst r = inl (IOError "[Errno 28] No space left on device")
      /\ os_path_isfile "/tmp/disk.img" (snd r) = true).
Proof.
  split.
  - destruct (create_file_failures "/tmp/disk.img" 4096 (file_world (full_at 2048))
                (file_world_regular _) eq_refl eq_refl) as [Hw _].
    apply (Hw 2%nat "[Errno 28] No space left on device").
    + reflexivity.
    + intros [| [| j]] Hj; [reflexivity | reflexivity | lia].
    + reflexivity.
  - destruct (create_file_failures "/tmp/disk.img" 4096 (file_world full_on_close)
                (file_world_regular _) eq_refl eq_refl) as [_ Hc].
    apply (Hc "[Errno 28] No space left on device").
    + intros len. reflexivity.
    + reflexivity.
Defined.

(** ** The fileio command on paths that are not regular files *)

(** Allocating an index and making the backstore for it, followed by any
    continuation. *)
Lemma allocate_backstore_run (k : Plugin) (w : World) (i : Z) :
  fst (next_hba_index k w) = inr i ->
  exists w',
    rts_backstores w' = rts_backstores w ++ [mkBackstore k i]
    /\ rts_storage_objects w' = rts_storage_objects w
    /\ children w' = children w
    /\ fs w' = fs w
    /\ driver w' = driver w
    /\ forall A (rest : Backstore -> M A),
         (i <- next_hba_index k ;; b <- Backstore_create k i ;; rest b) w
         = rest (mkBackstore k i) w'.
Proof.
  intros Hi.
  pose proof (next_hba_index_log_only k w) as (B3 & S3 & C3 & F3 & D3).
  pose proof (next_hba_index_free k w i Hi) as Hfree.
  remember (next_hba_index k w) as r eqn:E3.
  destruct r as [[e3 | i3] w3]; cbn [fst snd] in *; [discriminate Hi |].
  injection Hi as ->.
  assert (Hfree3 : ~ In i (backstore_indexes k w3)).
  { unfold backstore_indexes. rewrite B3. exact Hfree. }
  exists (with_backstores (rts_backstores w3 ++ [mkBackstore k i]) w3).
  cbn [rts_backstores rts_storage_objects children fs driver with_backstores].
  split; [now rewrite B3 |]. repeat split; try assumption.
  intros A rest. rewrite (bind_unfold (next_hba_index k)), <- E3.
  rewrite (bind_unfold (Backstore_create k i)).
  rewrite (Backstore_create_fresh k i w3 Hfree3). reflexivity.
Qed.

(** X18. The fileio command, given a block device or a partition together
    with a size, or a path that exists and is neither a regular file nor a
    device without a size, fails with the ExecutionError
    [Path ... exists but is not a file].  No storage object and no UI node
    is made and the filesystem is untouched, but the backstore made before
    the path is looked at stays behind. *)
Theorem fileio_create_rejects_non_file
        (name file_or_dev : string) (size : option string)
        (generate_wwn buffered sparse : option bool) (w : World) (i : Z) :
  ~ In name (map ui_name (children w fileio)) ->
  first_free fileio w i ->
  match fs w file_or_dev with
  | Some BlockDevice | Some DiskPartition => size <> None
  | Some OtherNode => size = None
  | Some (RegularFile _) | None => False
  end ->
  exists w',
    ui_command_create name file_or_dev size generate_wwn buffered sparse w
    = (inl (ExecutionError
              ("Path " ++ file_or_dev ++ " exists but is not a file")), w')
    /\ rts_backstores w' = rts_backstores w ++ [mkBackstore fileio i]
    /\ rts_storage_objects w' = rts_storage_objects w
    /\ children w' = children w
    /\ fs w' = fs w.
Proof.
  intros Hname Hfree Hpath.
  apply assert_available_so_name_ok in Hname.
  apply next_hba_index_first_free in Hfree.
  unfold ui_command_create. cbv zeta.
  rewrite (bind_succeeds assert_root _ w tt eq_refl).
  change (snd (assert_root w)) with w.
  rewrite (bind_succeeds _ _ w tt Hname), assert_available_so_name_snd.
  rewrite (bind_succeeds (shell_log _ _) _ w tt eq_refl).
  set (w2 := snd (shell_log _ _ w)).
  assert (Hi2 : fst (next_hba_index fileio w2) = inr i)
    by (rewrite <- Hfree; apply next_hba_index_fst_same; reflexivity).
  destruct (allocate_backstore_run fileio w2 i Hi2)
    as (w5 & B5 & S5 & C5 & F5 & _ & E5).
  rewrite E5. clear E5.
  rewrite (bind_unfold get). unfold get. cbv beta iota zeta.
  unfold get_block_type, is_disk_partition, os_path_isfile, os_path_exists.
  rewrite F5. change (fs w2) with (fs w).
  exists w5.
  split.
  - destruct (fs w file_or_dev) as [[d | | |] |]; try contradiction;
      destruct size as [s |]; try discriminate; try contradiction;
      reflexivity.
  - split; [exact B5 |]. split; [exact S5 |]. split; [exact C5 | exact F5].
Qed.

Lemma fileio_create_rejects_non_file_witness :
  exists w',
    ui_command_create "disk0" "/dev/sdb" (Some "1M") None None None device_world
    = (inl (ExecutionError "Path /dev/sdb exists but is not a file"), w')
    /\ rts_backstores w' = rts_backstores device_world ++ [mkBackstore fileio 0]
    /\ rts_storage_objects w' = rts_storage_objects device_world
    /\ children w' = children device_world
    /\ fs w' = fs device_world.
Proof.
  apply (fileio_create_rejects_non_file "disk0" "/dev/sdb" (Some "1M")
           None None None device_world 0).
  - intros [].
  - split; [unfold range_stop; lia |]. split; [intros [] | intros m Hm; lia].
  - cbn. discriminate.
Defined.

(** X19. Whatever its arguments and whatever its outcome, once the name is
    free and an index is available the fileio command leaves the backstore
    it allocates first registered without any storage object. *)
Theorem fileio_create_always_leaves_orphan
        (name file_or_dev : string) (size : option string)
        (generate_wwn buffered sparse : option bool) (w : World) (i : Z) :
  ~ In name (map ui_name (children w fileio)) ->
  first_free fileio w i ->
  attached w ->
  let w' := snd (ui_command_create name file_or_dev size
                                   generate_wwn buffered sparse w) in
  In (mkBackstore fileio i) (rts_backstores w')
  /\ hba_storage_objects (mkBackstore fileio i) w' = []
  /\ ~ no_orphans w'.
Proof.
  intros Hname Hfree Hatt w'.
  apply assert_available_so_name_ok in Hname.
  apply next_hba_index_first_free in Hfree.
  assert (Hno : hba_storage_objects (mkBackstore fileio i) w = []).
  { pose proof (fresh_backstore_not_live fileio w i Hfree) as Hb.
    unfold hba_storage_objects. unfold attached in Hatt.
    induction (rts_storage_objects w) as [| s l IH]; [reflexivity |].
    cbn [filter].
    destruct (Backstore_eqb (so_backstore s) (mkBackstore fileio i)) eqn:E.
    - exfalso. apply Backstore_eqb_eq in E. apply Hb. rewrite <- E.
      apply Hatt. now left.
    - apply IH. intros so Hso. apply Hatt. now right. }
  destruct (fileio_create_orphans_first_backstore name file_or_dev size
              generate_wwn buffered sparse w i Hname Hfree Hno) as [H1 H2].
  fold w' in H1, H2.
  split; [exact H1 |]. split; [exact H2 |].
  intros Hall. exact (Hall _ H1 H2).
Qed.

Lemma fileio_create_always_leaves_orphan_witness :
  let w' := snd (ui_command_create "disk0" "/tmp/disk.img" None None None None
                                   (file_world accepting)) in
  In (mkBackstore fileio 0) (rts_backstores w')
  /\ hba_storage_objects (mkBackstore fileio 0) w' = []
  /\ ~ no_orphans w'.
Proof.
  apply (fileio_create_always_leaves_orphan "disk0" "/tmp/disk.img" None
           None None None (file_world accepting) 0).
  - intros [].
  - split; [unfold range_stop; lia |]. split; [intros [] | intros m Hm; lia].
  - intros so [].
Defined.

(** ** Creating and then deleting *)

Lemma pscsi_create_then_delete (name dev : string) (w w1 : World)
      (v : option UIStorageObject) :
  attached w ->
  UIPSCSIBackstore.ui_command_create name dev w = (inr v, w1) ->
  let r := ui_command_delete pscsi name w1 in
  returns_or_ValueError (fst r)
  /\ rts_backstores (snd r) = rts_backstores w
  /\ rts_storage_objects (snd r) = rts_storage_objects w
  /\ fs (snd r) = fs w.
Proof.
  exact (protocol_then_delete pscsi name unit _ (ret tt) tt
           (fun b _ => mkStorageObject name b (Some dev) None None None)
           ("Created pscsi storage object " ++ name ++ " using " ++ dev)%string
           (pscsi_note_log_only dev) (pscsi_note_total dev)
           (ret_log_only tt) (fun _ => eq_refl)
           (fun _ _ => eq_refl) (fun _ _ => eq_refl) w w1 v).
Qed.

Lemma rd_dr_create_then_delete (name size : string) (generate_wwn : option bool) (w w1 : World)
      (v : option UIStorageObject) :
  attached w ->
  UIRDDRBackstore.ui_command_create name size generate_wwn w = (inr v, w1) ->
  let r := ui_command_delete rd_dr name w1 in
  returns_or_ValueError (fst r)
  /\ rts_backstores (snd r) = rts_backstores w
  /\ rts_storage_objects (snd r) = rts_storage_objects w
  /\ fs (snd r) = fs w.
Proof.
  exact (protocol_then_delete rd_dr name bool (ret tt) (prm_gen_wwn generate_wwn) (ui_eval_param_bool generate_wwn true)
           (fun b x => mkStorageObject name b None (Some size) (Some x) None)
           ("Created rd_dr ramdisk " ++ name ++ " with size " ++ size ++ ".")%string
           (ret_log_only tt) (fun _ => eq_refl)
           (prm_gen_wwn_log_only generate_wwn) (prm_gen_wwn_value generate_wwn)
           (fun _ _ => eq_refl) (fun _ _ => eq_refl) w w1 v).
Qed.

Lemma rd_mcp_create_then_delete (name size : string) (generate_wwn : option bool) (w w1 : World)
      (v : option UIStorageObject) :
  attached w ->
  UIRDMCPBackstore.ui_command_create name size generate_wwn w = (inr v, w1) ->
  let r := ui_command_delete rd_mcp name w1 in
  returns_or_ValueError (fst r)
  /\ rts_backstores (snd r) = rts_backstores w
  /\ rts_storage_objects (snd r) = rts_storage_objects w
  /\ fs (snd r) = fs w.
Proof.
  exact (protocol_then_delete rd_mcp name bool (ret tt) (prm_gen_wwn generate_wwn) (ui_eval_param_bool generate_wwn true)
           (fun b x => mkStorageObject name b None (Some size) (Some x) None)
           ("Created rd_mcp ramdisk " ++ name ++ " with size " ++ size ++ ".")%string
           (ret_log_only tt) (fun _ => eq_refl)
           (prm_gen_wwn_log_only generate_wwn) (prm_gen_wwn_value generate_wwn)
           (fun _ _ => eq_refl) (fun _ _ => eq_refl) w w1 v).
Qed.

Lemma iblock_create_then_delete (name dev : string) (generate_wwn : option bool) (w w1 : World)
      (v : option UIStorageObject) :
  attached w ->
  UIIBlockBackstore.ui_command_create name dev generate_wwn w = (inr v, w1) ->
  let r := ui_command_delete iblock name w1 in
  returns_or_ValueError (fst r)
  /\ rts_backstores (snd r) = rts_backstores w
  /\ rts_storage_objects (snd r) = rts_storage_objects w
  /\ fs (snd r) = fs w.
Proof.
  exact (protocol_then_delete iblock name bool (ret tt) (prm_gen_wwn generate_wwn) (ui_eval_param_bool generate_wwn true)
           (fun b x => mkStorageObject name b (Some dev) None (Some x) None)
           ("Created iblock storage object " ++ name ++ " using " ++ dev ++ ".")%string
           (ret_log_only tt) (fun _ => eq_refl)
           (prm_gen_wwn_log_only generate_wwn) (prm_gen_wwn_value generate_wwn)
           (fun _ _ => eq_refl) (fun _ _ => eq_refl) w w1 v).
Qed.

(** X20. Deleting a storage object right after a pscsi, rd_dr, rd_mcp or
    iblock command has created it undoes the creation in the storage
    library: in a world where every storage object sits on a registered
    backstore, the backstores, the storage objects and the filesystem are
    again what they were before the creation, so every kind's next index
    is again what it was.  The deletion itself is carried out in every
    case; the command then returns, or raises the ValueError of the refresh
    that ends it. *)
Theorem delete_undoes_create (k : Plugin) (name : string) (w w1 : World)
        (v : option UIStorageObject) :
  attached w ->
  match k with
  | pscsi => exists dev,
      UIPSCSIBackstore.ui_command_create name dev w = (inr v, w1)
  | rd_dr => exists size generate_wwn,
      UIRDDRBackstore.ui_command_create name size generate_wwn w = (inr v, w1)
  | rd_mcp => exists size generate_wwn,
      UIRDMCPBackstore.ui_command_create name size generate_wwn w = (inr v, w1)
  | iblock => exists dev generate_wwn,
      UIIBlockBackstore.ui_command_create name dev generate_wwn w = (inr v, w1)
  | fileio => False
  end ->
  let r := ui_command_delete k name w1 in
  returns_or_ValueError (fst r)
  /\ rts_backstores (snd r) = rts_backstores w
  /\ rts_storage_objects (snd r) = rts_storage_objects w
  /\ fs (snd r) = fs w
  /\ (forall k', fst (next_hba_index k' (snd r)) = fst (next_hba_index k' w)).
Proof.
  intros Hatt H r.
  assert (F : returns_or_ValueError (fst r)
              /\ rts_backstores (snd r) = rts_backstores w
              /\ rts_storage_objects (snd r) = rts_storage_objects w
              /\ fs (snd r) = fs w).
  { destruct k.
    - destruct H as (dev & H).
      exact (pscsi_create_then_delete name dev w w1 v Hatt H).
    - destruct H as (size & g & H).
      exact (rd_dr_create_then_delete name size g w w1 v Hatt H).
    - destruct H as (size & g & H).
      exact (rd_mcp_create_then_delete name size g w w1 v Hatt H).
    - contradiction.
    - destruct H as (dev & g & H).
      exact (iblock_create_then_delete name dev g w w1 v Hatt H). }
  destruct F as (R & B & S & F). repeat split; try assumption.
  intros k'. now apply next_hba_index_fst_same.
Qed.

Lemma delete_undoes_create_witness :
  let node := mkUIStorageObject "m"
                (mkStorageObject "m" (mkBackstore rd_mcp 0) None (Some "1M")
                                 (Some true) None) in
  let w1 := snd (UIRDMCPBackstore.ui_command_create "m" "1M" None shared_world) in
  let r := ui_command_delete rd_mcp "m" w1 in
  attached shared_world
  /\ UIRDMCPBackstore.ui_command_create "m" "1M" None shared_world
     = (inr (Some node), w1)
  /\ returns_or_ValueError (fst r)
  /\ rts_backstores (snd r) = rts_backstores shared_world
  /\ rts_storage_objects (snd r) = rts_storage_objects shared_world.
Proof.
  intros node w1 r.
  assert (H : UIRDMCPBackstore.ui_command_create "m" "1M" None shared_world
              = (inr (Some node), w1)).
  { unfold w1.
    rewrite (surjective_pairing
               (UIRDMCPBackstore.ui_command_create "m" "1M" None
                  shared_world)) at 1.
    f_equal; vm_compute; reflexivity. }
  assert (Hatt : attached shared_world).
  { intros so [<- | [<- | [<- | []]]]; cbn; auto. }
  destruct (delete_undoes_create rd_mcp "m" shared_world w1 (Some node) Hatt
              (ex_intro _ "1M" (ex_intro _ None H)))
    as (R & B & S & _).
  split; [exact Hatt |]. split; [exact H |].
  split; [exact R |]. split; [exact B | exact S].
Defined.
